(** * crowd-anki-diff-viewer: change classifier, template engine, renderers

    A shallow embedding of [src/change_classifier.py],
    [src/template_engine.py], [src/renderers/*.py] and the renderer
    selection of [src/html_generator.py], with the properties of the
    specification stated and settled on it; then the searches of
    [src/parser.py], the comparison of [src/git_diff.py] and the
    statistics and the highlighting of [src/html_generator.py], with
    further properties of the code.

    Python [str] values are sequences of Unicode code points and are
    modelled as [list N].  What the code takes from libraries outside the
    repository (BeautifulSoup, [html.unescape], [str.lower], the Unicode
    classes behind [\s], [\w], [\d], [json.dumps], [int]) is gathered in
    the class [Runtime]; the general theorems hold for every instance.
    [RefLib] is a small executable instance used to run the code on
    concrete inputs. *)

From stdpp Require Import base gmap strings list sorting.
From Stdlib Require Import ZArith NArith Ascii.

Open Scope N_scope.
Open Scope list_scope.

(** ** Texts *)

Abbreviation text := (list N).

(** The code point of an ASCII character, and the text of an ASCII literal. *)
Definition ch (a : ascii) : N := N_of_ascii a.
Arguments ch : simpl never.
Definition txt (s : string) : text := ch <$> String.list_ascii_of_string s.

(** [s.startswith(p)] *)
Fixpoint starts_with (p s : text) : bool :=
  match p, s with
  | [], _ => true
  | _ :: _, [] => false
  | x :: p', y :: s' => (x =? y) && starts_with p' s'
  end.

(** [sub in s] *)
Fixpoint contains (sub s : text) : bool :=
  starts_with sub s ||
  match s with
  | [] => false
  | _ :: s' => contains sub s'
  end.

(** The longest prefix of [s] whose characters satisfy [p], and the rest. *)
Fixpoint span (p : N → bool) (s : text) : text * text :=
  match s with
  | [] => ([], [])
  | c :: s' =>
      if p c then let '(a, b) := span p s' in (c :: a, b) else ([], s)
  end.

(** ** Regular-expression drivers

    Every pattern of the source matches at least one character and looks
    at nothing before the position it is tried at, so a pattern is given
    by a function from the remaining input to the match found at its
    start: the data of the match and the number of characters it
    consumes (at least one).  [re.sub], [re.findall] and [re.finditer]
    try the pattern at each position from the left and resume after a
    match. *)

Section drivers.
Context {A : Type} (m : text → option (A * nat)).

Fixpoint finditer_from (skip : nat) (s : text) : list A :=
  match s with
  | [] => []
  | _ :: s' =>
      match skip with
      | S k => finditer_from k s'
      | O =>
          match m s with
          | Some (a, n) => a :: finditer_from (pred n) s'
          | None => finditer_from 0 s'
          end
      end
  end.

Definition re_finditer (s : text) : list A := finditer_from 0%nat s.
End drivers.

Section sub_driver.
Context (m : text → option (text * nat)).

(** [count = None]: replace every match; [Some k]: at most [k]. *)
Fixpoint sub_from (count : option nat) (skip : nat) (s : text) : text :=
  match s with
  | [] => []
  | c :: s' =>
      match skip with
      | S k => sub_from count k s'
      | O =>
          match count with
          | Some O => s
          | _ =>
              match m s with
              | Some (r, n) => r ++ sub_from (pred <$> count) (pred n) s'
              | None => c :: sub_from count 0 s'
              end
          end
      end
  end.

Definition re_sub (s : text) : text := sub_from None 0%nat s.
End sub_driver.

(** [s.replace(old, new)] and [s.replace(old, new, 1)], for a non-empty
    [old] (the source only replaces non-empty constants). *)
Definition lit_match (old new : text) (s : text) : option (text * nat) :=
  if starts_with old s then Some (new, length old) else None.
Definition str_replace (old new s : text) : text := re_sub (lit_match old new) s.
Definition str_replace_first (old new s : text) : text :=
  sub_from (lit_match old new) (Some 1%nat) 0 s.

(** ** Change kinds ([class ChangeType]) *)

Module ChangeType.
Definition CONTENT : string := "content".
Definition WHITESPACE : string := "whitespace".
Definition HTML_FORMATTING : string := "html_formatting".
Definition ENTITIES : string := "entities".
Definition CASE : string := "case".
Definition PUNCTUATION : string := "punctuation".
Definition MIXED_COSMETIC : string := "mixed_cosmetic".
End ChangeType.

(** [ChangeClassifier.WHITESPACE_ENTITIES], in the order of the source
    text of the set display. *)
Definition WHITESPACE_ENTITIES : list text :=
  [ txt "&nbsp;"; txt "&ensp;"; txt "&emsp;"; txt "&thinsp;";
    txt "&#160;"; txt "&#8194;"; txt "&#8195;"; txt "&#8201;" ].

(** ** The library interface *)

(** A shape of the image-occlusion renderer: the dictionary
    [{"cloze": .., "type": .., "params": {..}}]; [params] keeps the
    insertion order of the Python dict. *)
Record shape := {
  shape_cloze : Z;
  shape_type : text;
  shape_params : list (text * text)
}.

Class Runtime := {
  (** [str.isspace], which is also the class [\s] of [re] on [str]
      patterns and what [str.strip()] removes *)
  is_space : N → bool;
  (** the class [\w]; the colon is not in it *)
  is_word : N → bool;
  word_not_colon : is_word (ch ":") = false;
  (** the class [\d]; neither the colon nor the semicolon is in it *)
  is_digit : N → bool;
  digit_not_colon : is_digit (ch ":") = false;
  digit_not_semicolon : is_digit (ch ";") = false;
  (** [str.lower] *)
  lower : text → text;
  (** [html.unescape] *)
  unescape : text → text;
  (** [BeautifulSoup(t, 'html.parser').get_text()]; [None] when the
      parser raises *)
  get_text : text → option text;
  (** the order in which the set [WHITESPACE_ENTITIES] is iterated *)
  whitespace_entities_iter : list text;
  whitespace_entities_iter_perm :
    whitespace_entities_iter ≡ₚ WHITESPACE_ENTITIES;
  (** whether [\g<name>], in a replacement template for a pattern
      without groups, refers to group 0; every other name raises *)
  group0_name : text → bool;
  (** [int] on a match of [\d+]; [None] when it raises [ValueError] (the
      limit on the number of digits) *)
  py_int : text → option Z;
  (** [json.dumps] on a list of shapes *)
  json_dumps_shapes : list shape → text
}.

(** ** The classifier ([class ChangeClassifier]) *)

Section classifier.
Context `{Runtime}.
Import ChangeType.

(** the pattern [\s+] *)
Definition ws_run (repl : text) (s : text) : option (text * nat) :=
  match fst (span is_space s) with
  | [] => None
  | run => Some (repl, length run)
  end.

(** [re.sub(r'\s+', repl, s)] *)
Definition sub_ws (repl s : text) : text := re_sub (ws_run repl) s.

Definition lstrip (s : text) : text := snd (span is_space s).
(** [s.strip()] *)
Definition strip (s : text) : text := reverse (lstrip (reverse (lstrip s))).

(** [soup.get_text()] under [try], with the raw text in the [except]
    branch *)
Definition text_or_raw (t : text) : text := default t (get_text t).

Definition _normalize_for_comparison (t : text) : text :=
  let text_content := text_or_raw t in
  let text_content := unescape text_content in
  let text_content := sub_ws (txt " ") text_content in
  let text_content := strip text_content in
  lower text_content.

(** The loop over [WHITESPACE_ENTITIES]: each entity is removed from
    both texts in turn. *)
Definition remove_whitespace_entities (p : text * text) : text * text :=
  foldl (λ '(b, a) entity, (str_replace entity [] b, str_replace entity [] a))
        p whitespace_entities_iter.

Definition _is_whitespace_change (before after : text) : bool :=
  let before_no_ws := sub_ws [] before in
  let after_no_ws := sub_ws [] after in
  let '(before_no_ws, after_no_ws) :=
    remove_whitespace_entities (before_no_ws, after_no_ws) in
  bool_decide (before_no_ws = after_no_ws).

Definition is_ascii_letter (c : N) : bool :=
  ((ch "a" <=? c) && (c <=? ch "z")) || ((ch "A" <=? c) && (c <=? ch "Z")).

(** One branch [&class+;] of the entity pattern, after the ampersand. *)
Definition run_then_semicolon (p : N → bool) (s : text) : option text :=
  match span p s with
  | (c :: run, semi :: _) =>
      if semi =? ch ";" then Some (c :: run ++ [semi]) else None
  | _ => None
  end.

(** the pattern [&[a-zA-Z]+;|&#\d+;] *)
Definition entity_token (s : text) : option (text * nat) :=
  match s with
  | amp :: r =>
      if amp =? ch "&" then
        match run_then_semicolon is_ascii_letter r with
        | Some tok => Some (amp :: tok, S (length tok))
        | None =>
            match r with
            | hash :: r' =>
                if hash =? ch "#" then
                  match run_then_semicolon is_digit r' with
                  | Some tok => Some (amp :: hash :: tok, S (S (length tok)))
                  | None => None
                  end
                else None
            | [] => None
            end
        end
      else None
  | [] => None
  end.

(** [set(re.findall(r'&[a-zA-Z]+;|&#\d+;', s))] *)
Definition entity_set (s : text) : gset text :=
  list_to_set (re_finditer entity_token s).

Definition _is_entity_change (before after : text) : bool :=
  let before_entities := entity_set before in
  let after_entities := entity_set after in
  if bool_decide (before_entities ≠ after_entities) then
    let before_decoded := unescape before in
    let after_decoded := unescape after in
    bool_decide (_normalize_for_comparison before_decoded =
                 _normalize_for_comparison after_decoded)
  else false.

Definition _is_html_formatting_change (before after : text) : bool :=
  match get_text before, get_text after with
  | Some before_text, Some after_text =>
      let before_text := strip (sub_ws (txt " ") before_text) in
      let after_text := strip (sub_ws (txt " ") after_text) in
      bool_decide (before_text = after_text) && bool_decide (before ≠ after)
  | _, _ => false
  end.

(** The [try] block shared by the case and punctuation detectors: both
    texts come from the parser, or both stay raw. *)
Definition both_texts (before after : text) : text * text :=
  match get_text before, get_text after with
  | Some before_text, Some after_text => (before_text, after_text)
  | _, _ => (before, after)
  end.

Definition _is_case_change (before after : text) : bool :=
  let '(before_text, after_text) := both_texts before after in
  let before_text := strip (sub_ws (txt " ") before_text) in
  let after_text := strip (sub_ws (txt " ") after_text) in
  bool_decide (lower before_text = lower after_text) &&
  bool_decide (before_text ≠ after_text).

(** the pattern [[^\w\s]] *)
Definition punctuation_char (s : text) : option (text * nat) :=
  match s with
  | c :: _ => if negb (is_word c) && negb (is_space c)
              then Some ([], 1%nat) else None
  | [] => None
  end.

Definition _is_punctuation_change (before after : text) : bool :=
  let '(before_text, after_text) := both_texts before after in
  let before_no_punct := re_sub punctuation_char before_text in
  let after_no_punct := re_sub punctuation_char after_text in
  let before_no_punct := strip (sub_ws (txt " ") before_no_punct) in
  let after_no_punct := strip (sub_ws (txt " ") after_no_punct) in
  bool_decide (lower before_no_punct = lower after_no_punct) &&
  bool_decide (before_text ≠ after_text).

Definition _detect_cosmetic_changes (before after : text) : list string :=
  if _is_whitespace_change before after then [WHITESPACE]
  else
    let changes := [] in
    let changes :=
      if _is_entity_change before after then changes ++ [ENTITIES] else changes in
    let changes :=
      if _is_html_formatting_change before after
      then changes ++ [HTML_FORMATTING] else changes in
    let changes :=
      if _is_case_change before after then changes ++ [CASE] else changes in
    let changes :=
      if _is_punctuation_change before after
      then changes ++ [PUNCTUATION] else changes in
    match changes with
    | [] => [HTML_FORMATTING]
    | _ => changes
    end.

Definition classify_field_change (before after : text) : string * list string :=
  if bool_decide (before = after) then (CONTENT, [])
  else
    let before_normalized := _normalize_for_comparison before in
    let after_normalized := _normalize_for_comparison after in
    if bool_decide (before_normalized = after_normalized) then
      let changes_detected := _detect_cosmetic_changes before after in
      match changes_detected with
      | [only] => (only, changes_detected)
      | _ :: _ :: _ => (MIXED_COSMETIC, changes_detected)
      | [] => (HTML_FORMATTING, ["unknown"%string])
      end
    else (CONTENT, []).

(** *** [classify_note_change] *)

(** The variables the loop updates; [field_changes] is keyed by the
    index [i] of the key ["field_i"], in insertion order. *)
Record note_state := {
  field_changes : list (nat * (string * list string));
  cosmetic_types : gset string;
  has_content_change : bool
}.

Definition field_at (fields : list text) (i : nat) : text :=
  default [] (fields !! i).

Definition note_step (before_fields after_fields : list text)
    (st : note_state) (i : nat) : note_state :=
  let before_val := field_at before_fields i in
  let after_val := field_at after_fields i in
  if bool_decide (before_val ≠ after_val) then
    let '(change_type, details) := classify_field_change before_val after_val in
    let fc := field_changes st ++ [(i, (change_type, details))] in
    if bool_decide (change_type = CONTENT) then
      {| field_changes := fc;
         cosmetic_types := cosmetic_types st;
         has_content_change := true |}
    else
      {| field_changes := fc;
         cosmetic_types := cosmetic_types st ∪ list_to_set details;
         has_content_change := has_content_change st |}
  else st.

Definition note_init : note_state :=
  {| field_changes := []; cosmetic_types := ∅; has_content_change := false |}.

Definition note_loop (before_fields after_fields : list text) : note_state :=
  let max_len := (length before_fields `max` length after_fields)%nat in
  foldl (note_step before_fields after_fields) note_init (seq 0 max_len).

(** The second component of the result: [field_changes] and the set
    behind [list(cosmetic_types)] (a list in no specified order). *)
Definition classify_note_change (before_fields after_fields : list text)
    : string * (list (nat * (string * list string)) * gset string) :=
  let st := note_loop before_fields after_fields in
  let overall_type :=
    if has_content_change st then CONTENT
    else
      match elements (cosmetic_types st) with
      | [only] => only
      | _ :: _ :: _ => MIXED_COSMETIC
      | [] => CONTENT
      end in
  (overall_type, (field_changes st, cosmetic_types st)).
End classifier.

(** ** Exceptions *)

Inductive exn := re_error | IndexError | ValueError.

Inductive result (A : Type) :=
  | Ok (a : A)
  | Raise (e : exn).
Arguments Ok {A} a.
Arguments Raise {A} e.

#[export] Instance result_ret : MRet result := λ A, Ok.
#[export] Instance result_bind : MBind result := λ A B f r,
  match r with
  | Ok a => f a
  | Raise e => Raise e
  end.

Definition returns {A} (r : result A) : Prop := ∃ a, r = Ok a.

(** ** Python dictionaries and lists *)

(** A [dict] from texts to [V], in insertion order. *)
Abbreviation dict V := (list (text * V)).

(** [d.get(k, dflt)] *)
Fixpoint dict_get {V} (d : dict V) (k : text) (dflt : V) : V :=
  match d with
  | [] => dflt
  | (k', v) :: d' => if bool_decide (k' = k) then v else dict_get d' k dflt
  end.

(** [d[k] = v]: an existing key keeps its position. *)
Fixpoint dict_set {V} (d : dict V) (k : text) (v : V) : dict V :=
  match d with
  | [] => [(k, v)]
  | (k', v') :: d' =>
      if bool_decide (k' = k) then (k, v) :: d' else (k', v') :: dict_set d' k v
  end.

(** [l[i]], with Python's negative indices. *)
Definition list_index {A} (l : list A) (i : Z) : result A :=
  let n := Z.of_nat (length l) in
  let j := if (i <? 0)%Z then (i + n)%Z else i in
  if (j <? 0)%Z then Raise IndexError
  else match l !! Z.to_nat j with
       | Some x => Ok x
       | None => Raise IndexError
       end.

(** [sep.join(parts)] *)
Fixpoint str_join (sep : text) (parts : list text) : text :=
  match parts with
  | [] => []
  | [p] => p
  | p :: parts' => p ++ sep ++ str_join sep parts'
  end.

(** [s.find(sub)], as an option *)
Fixpoint str_find (sub s : text) : option nat :=
  if starts_with sub s then Some 0%nat
  else match s with
       | [] => None
       | _ :: s' => S <$> str_find sub s'
       end.

(** [s.split(sep)] for a one-character separator *)
Fixpoint str_split (sep : N) (s : text) : list text :=
  match s with
  | [] => [[]]
  | c :: s' =>
      if c =? sep then [] :: str_split sep s'
      else match str_split sep s' with
           | p :: ps => (c :: p) :: ps
           | [] => [[c]]
           end
  end.

(** ** Replacement templates of [re.sub]

    A replacement given as a string is compiled before the search
    starts whenever it contains a backslash (the template parser of
    [re], as of Python 3.7: an unknown escape of an ASCII letter, a
    reference to a missing group and a backslash at the end are
    errors).  The pattern it is used with in the source has no group,
    so that only group 0, the whole match, can be referred to. *)

Section template.
Context `{Runtime}.

Inductive piece := Lit (c : N) | WholeMatch.

Definition is_octal (c : N) : bool := (ch "0" <=? c) && (c <=? ch "7").
Definition is_ascii_digit (c : N) : bool := (ch "0" <=? c) && (c <=? ch "9").
Definition octal_value (ds : text) : N :=
  foldl (λ acc d, 8 * acc + (d - ch "0")) 0 ds.

(** The table [ESCAPES] of the template parser. *)
Definition simple_escape (c : N) : option N :=
  if c =? ch "a" then Some 7
  else if c =? ch "b" then Some 8
  else if c =? ch "f" then Some 12
  else if c =? ch "n" then Some 10
  else if c =? ch "r" then Some 13
  else if c =? ch "t" then Some 9
  else if c =? ch "v" then Some 11
  else if c =? ch "\" then Some (ch "\")
  else None.

(** The escape that starts with a backslash followed by [c] and then
    [r]: the pieces it stands for and the number of characters of [r]
    it takes. *)
Definition escape (c : N) (r : text)
    : result (list piece * nat) :=
  if c =? ch "g" then
    match r with
    | lt :: r' =>
        if lt =? ch "<" then
          match span (λ x, negb (x =? ch ">")) r' with
          | (name, _ :: _) =>
              if group0_name name then Ok ([WholeMatch], S (S (length name)))
              else Raise re_error
          | _ => Raise re_error
          end
        else Raise re_error
    | [] => Raise re_error
    end
  else if c =? ch "0" then
    match r with
    | d1 :: d2 :: _ =>
        if is_octal d1 && is_octal d2
        then Ok ([Lit (octal_value [d1; d2] `mod` 256)], 2%nat)
        else if is_octal d1 then Ok ([Lit (octal_value [d1])], 1%nat)
        else Ok ([Lit 0], 0%nat)
    | [d1] =>
        if is_octal d1 then Ok ([Lit (octal_value [d1])], 1%nat)
        else Ok ([Lit 0], 0%nat)
    | [] => Ok ([Lit 0], 0%nat)
    end
  else if is_ascii_digit c then
    match r with
    | d1 :: d2 :: _ =>
        if is_octal c && is_octal d1 && is_octal d2 then
          let v := octal_value [c; d1; d2] in
          if 255 <? v then Raise re_error else Ok ([Lit v], 2%nat)
        else Raise re_error
    | _ => Raise re_error
    end
  else
    match simple_escape c with
    | Some x => Ok ([Lit x], 0%nat)
    | None =>
        if is_ascii_letter c then Raise re_error
        else Ok ([Lit (ch "\"); Lit c], 0%nat)
    end.

Fixpoint parse_from (skip : nat) (s : text)
    : result (list piece) :=
  match s with
  | [] => Ok []
  | c :: s' =>
      match skip with
      | S k => parse_from k s'
      | O =>
          if c =? ch "\" then
            match s' with
            | [] => Raise re_error
            | e :: r =>
                '(ps, n) ← escape e r;
                rest ← parse_from (S n) s';
                Ok (ps ++ rest)
            end
          else
            rest ← parse_from 0 s';
            Ok (Lit c :: rest)
      end
  end.
End template.

(** ** The template engine ([class AnkiTemplateEngine]) *)

Section engine.
Context `{Runtime}.

Definition parse_template (repl : text) : result (list piece) :=
  parse_from 0%nat repl.

(** The text a compiled template stands for at a match [whole]. *)
Definition expand (whole : text) (ps : list piece) : text :=
  mjoin ((λ p, match p with Lit c => [c] | WholeMatch => whole end) <$> ps).

Definition not_brace (c : N) : bool := negb (c =? ch "}").

(** [[^}]+\}\}] at the start of [s]: the run and the rest after the
    closing braces. *)
Definition run_to_close (s : text) : option (text * text) :=
  match span not_brace s with
  | (c :: run, after) =>
      if starts_with (txt "}}") after then Some (c :: run, drop 2 after) else None
  | _ => None
  end.

(** Group 2 of the cloze pattern, from the run between [::] and the
    closing braces: the lazy [[^}]+?] stops at the first [::] that
    leaves a non-empty hint before the braces. *)
Fixpoint before_hint (run : text) : text :=
  match run with
  | [] => []
  | c :: run' =>
      if starts_with (txt "::") run && (2 <? length run)%nat then []
      else c :: before_hint run'
  end.
Definition cloze_text_of (run : text) : text :=
  match run with
  | [] => []
  | c :: run' => c :: before_hint run'
  end.

(** the pattern [\{\{c(\d+)::([^}]+?)(?:::([^}]+))?\}\}] with the
    replacement of [replace_cloze_item] *)
Definition cloze_item (s : text) : option (text * nat) :=
  if starts_with (txt "{{c") s then
    match span is_digit (drop 3 s) with
    | (d :: ds, after) =>
        if starts_with (txt "::") after then
          match run_to_close (drop 2 after) with
          | Some (run, _) =>
              let cloze_num := d :: ds in
              let cloze_text := cloze_text_of run in
              Some (txt "<span class=" ++ [34] ++ txt "cloze" ++ [34] ++
                    txt " data-cloze=" ++ [34] ++ cloze_num ++ [34] ++
                    txt ">" ++ cloze_text ++ txt "</span>",
                    (3 + length cloze_num + 2 + length run + 2)%nat)
          | None => None
          end
        else None
    | _ => None
    end
  else None.

(** the pattern [\{\{cloze:([^}]+)\}\}] with [replace_cloze] *)
Definition cloze_block (fields : dict text) (s : text) : option (text * nat) :=
  if starts_with (txt "{{cloze:") s then
    match run_to_close (drop 8 s) with
    | Some (field_name, _) =>
        let field_value := dict_get fields field_name [] in
        Some (re_sub cloze_item field_value, (8 + length field_name + 2)%nat)
    | None => None
    end
  else None.

Definition _render_cloze (template : text) (fields : dict text) : text :=
  re_sub (cloze_block fields) template.

(** the patterns [\{\{\^([^}]+)\}\}(.*?)\{\{/\1\}\}] and
    [\{\{#([^}]+)\}\}(.*?)\{\{/\1\}\}] under [re.DOTALL], with
    [replace_negative] ([positive = false]) and [replace_positive] *)
Definition conditional (positive : bool) (fields : dict text) (s : text)
    : option (text * nat) :=
  if starts_with (txt "{{" ++ [if positive then ch "#" else ch "^"]) s then
    match run_to_close (drop 3 s) with
    | Some (name, rest) =>
        let closing := txt "{{/" ++ name ++ txt "}}" in
        match str_find closing rest with
        | Some n =>
            let field_name := strip name in
            let content := take n rest in
            let field_value := dict_get fields field_name [] in
            let blank := bool_decide (strip field_value = []) in
            Some (if bool_decide (blank = positive) then [] else content,
                  (3 + length name + 2 + n + length closing)%nat)
        | None => None
        end
    | None => None
    end
  else None.

Definition _render_conditionals (template : text) (fields : dict text) : text :=
  let template := re_sub (conditional false fields) template in
  re_sub (conditional true fields) template.

(** One round of the loop of [_render_fields]:
    [re.sub('\{\{' + re.escape(field_name) + '\}\}', field_value, template)]. *)
Definition substitute_field (template : text) (item : text * text) : result text :=
  let '(field_name, field_value) := item in
  let placeholder := txt "{{" ++ field_name ++ txt "}}" in
  ps ← parse_template field_value;
  Ok (str_replace placeholder (expand placeholder ps) template).

Fixpoint substitute_fields (template : text) (items : dict text) : result text :=
  match items with
  | [] => Ok template
  | item :: items' =>
      template ← substitute_field template item;
      substitute_fields template items'
  end.

(** the lookahead [c\d+::image-occlusion] *)
Definition occlusion_ahead (s : text) : bool :=
  match s with
  | c :: r =>
      (c =? ch "c") &&
      match span is_digit r with
      | (_ :: _, after) => starts_with (txt "::image-occlusion") after
      | _ => false
      end
  | [] => false
  end.

(** the pattern [\{\{(?!c\d+::image-occlusion)([^}]+)\}\}] *)
Definition unmatched_reference (s : text) : option (text * nat) :=
  if starts_with (txt "{{") s && negb (occlusion_ahead (drop 2 s)) then
    match run_to_close (drop 2 s) with
    | Some (run, _) => Some ([], (2 + length run + 2)%nat)
    | None => None
    end
  else None.

Definition _render_fields (template : text) (fields : dict text) : result text :=
  template ← substitute_fields template fields;
  Ok (re_sub unmatched_reference template).

Definition render (template : text) (fields : dict text)
    (tags : option (list text)) (is_answer : bool) (front_side_html : text)
    : result text :=
  let tags := default [] tags in
  let result := template in
  let result :=
    if is_answer && contains (txt "{{FrontSide}}") result
    then str_replace (txt "{{FrontSide}}") front_side_html result
    else result in
  let tags_str := str_join (txt " ") tags in
  let result := str_replace (txt "{{Tags}}") tags_str result in
  let result := _render_cloze result fields in
  let result := _render_conditionals result fields in
  _render_fields result fields.
End engine.

(** ** Data models ([src/models.py]) *)

Inductive NoteType := BASIC | CLOZE.

#[export] Instance NoteType_eq_dec : EqDecision NoteType.
Proof. solve_decision. Defined.

Module FieldModel.
Record t := { name : text; ord : Z }.
End FieldModel.

Module Template.
Record t := { name : text; ord : Z; qfmt : text; afmt : text }.
End Template.

Module NoteModel.
Record t := {
  name : text;
  type : NoteType;
  flds : list FieldModel.t;
  tmpls : list Template.t;
  css : text
}.
End NoteModel.

Module Note.
Record t := { guid : text; fields : list text; tags : list text }.
End Note.

(** A value of the dictionary a renderer returns. *)
Inductive value := VStr (s : text) | VInt (z : Z).

(** ** The renderers ([src/renderers]) *)

Inductive renderer :=
  | ImageOcclusionRenderer
  | ClozeRenderer
  | MultiFieldRenderer
  | BasicRenderer.

#[export] Instance renderer_eq_dec : EqDecision renderer.
Proof. solve_decision. Defined.

(** The text of [_generate_io_script] before [shapes_json], between it
    and [show_answer_json], and after. *)
Definition io_script_head : text := txt "
(function() {
    const canvas = document.getElementById('image-occlusion-canvas');
    const container = document.getElementById('image-occlusion-container');

    if (!canvas || !container) {
        console.warn('Image occlusion elements not found');
        return;
    }

    const img = container.querySelector('img');

    if (!img) {
        console.warn('Image not found in container');
        return;
    }

    function drawShapes() {
        canvas.width = img.width || img.naturalWidth;
        canvas.height = img.height || img.naturalHeight;

        // Position canvas over image
        canvas.style.position = 'absolute';
        canvas.style.top = '0';
        canvas.style.left = '0';
        canvas.style.pointerEvents = 'none';

        const ctx = canvas.getContext('2d');

        const shapes = ".
Definition io_script_middle : text := txt ";
        const showAnswer = ".
Definition io_script_tail : text := txt ";

        shapes.forEach(shape => {
            const params = shape.params;
            const x = parseFloat(params.left || 0) * canvas.width;
            const y = parseFloat(params.top || 0) * canvas.height;
            const w = parseFloat(params.width || 0) * canvas.width;
            const h = parseFloat(params.height || 0) * canvas.height;

            // Different colors for question vs answer
            if (showAnswer) {
                // Answer: semi-transparent red highlight
                ctx.fillStyle = 'rgba(255, 142, 142, 0.5)';
            } else {
                // Question: solid occlusion (yellow/beige)
                ctx.fillStyle = '#ffeba2';
            }

            ctx.strokeStyle = '#212121';
            ctx.lineWidth = 2;

            if (shape.type === 'rect') {
                ctx.fillRect(x, y, w, h);
                ctx.strokeRect(x, y, w, h);
            } else if (shape.type === 'ellipse') {
                ctx.beginPath();
                ctx.ellipse(x + w/2, y + h/2, w/2, h/2, 0, 0, 2 * Math.PI);
                ctx.fill();
                ctx.stroke();
            }
        });
    }

    // Make container relative for absolute positioning of canvas
    container.style.position = 'relative';
    container.style.display = 'inline-block';

    // Draw when image loads
    if (img.complete) {
        drawShapes();
    } else {
        img.onload = drawShapes;
    }
})();
".

Section renderers.
Context `{Runtime}.

(** [BaseNoteRenderer._build_field_map] *)
Fixpoint build_field_map_from (field_map : dict text) (note : Note.t)
    (flds : list FieldModel.t) : result (dict text) :=
  match flds with
  | [] => Ok field_map
  | field_def :: flds' =>
      v ← (if (FieldModel.ord field_def <? Z.of_nat (length (Note.fields note)))%Z
           then list_index (Note.fields note) (FieldModel.ord field_def)
           else Ok []);
      build_field_map_from (dict_set field_map (FieldModel.name field_def) v)
                           note flds'
  end.

Definition _build_field_map (note : Note.t) (note_model : NoteModel.t)
    : result (dict text) :=
  build_field_map_from [] note (NoteModel.flds note_model).

(** The first statement of every [render_card]. *)
Definition clamp_template_idx (note_model : NoteModel.t) (template_idx : Z) : Z :=
  if (Z.of_nat (length (NoteModel.tmpls note_model)) <=? template_idx)%Z
  then 0%Z else template_idx.

(** The two calls of the template engine, shared by all renderers. *)
Definition render_sides (template : Template.t) (fields : dict text)
    (note : Note.t) : result (text * text) :=
  front_html ← render (Template.qfmt template) fields (Some (Note.tags note)) false [];
  back_html ← render (Template.afmt template) fields (Some (Note.tags note))
                     true front_html;
  Ok (front_html, back_html).

(** *** [ImageOcclusionRenderer] *)

(** the pattern [\{\{c(\d+)::image-occlusion:(\w+):(.*?)\}\}]: the
    three groups *)
Definition occlusion_shape (s : text) : option ((text * text * text) * nat) :=
  if starts_with (txt "{{c") s then
    match span is_digit (drop 3 s) with
    | (d :: ds, after) =>
        if starts_with (txt "::image-occlusion:") after then
          match span is_word (drop 18 after) with
          | (w :: ws, after') =>
              if starts_with (txt ":") after' then
                let rest := drop 1 after' in
                match str_find (txt "}}") rest with
                | Some n =>
                    let params_str := take n rest in
                    if forallb (λ c, negb (c =? 10)) params_str then
                      Some ((d :: ds, w :: ws, params_str),
                            (3 + length (d :: ds) + 18 + length (w :: ws) + 1 + n + 2)%nat)
                    else None
                | None => None
                end
              else None
          | _ => None
          end
        else None
    | _ => None
    end
  else None.

(** The loop over [params_str.split(':')]. *)
Definition parse_params (params_str : text) : dict text :=
  foldl (λ params param,
           if contains (txt "=") param then
             match str_find (txt "=") param with
             | Some n => dict_set params (take n param) (drop (S n) param)
             | None => params
             end
           else params)
        [] (str_split (ch ":") params_str).

Definition shape_of_match (m : text * text * text) : result shape :=
  let '(num, shape_type, params_str) := m in
  match py_int num with
  | Some cloze_num =>
      Ok {| shape_cloze := cloze_num;
            shape_type := shape_type;
            shape_params := parse_params params_str |}
  | None => Raise ValueError
  end.

Fixpoint shapes_of_matches (ms : list (text * text * text)) : result (list shape) :=
  match ms with
  | [] => Ok []
  | m :: ms' =>
      sh ← shape_of_match m;
      shapes ← shapes_of_matches ms';
      Ok (sh :: shapes)
  end.

Definition _parse_occlusion_shapes (occlusion_field : text) : result (list shape) :=
  shapes_of_matches (re_finditer occlusion_shape occlusion_field).

Definition _generate_io_script (shapes : list shape) (show_answer : bool) : text :=
  let shapes_json := json_dumps_shapes shapes in
  let show_answer_json := if show_answer then txt "true" else txt "false" in
  io_script_head ++ shapes_json ++ io_script_middle ++ show_answer_json ++
  io_script_tail.

Definition _inject_io_script (html : text) (shapes : list shape)
    (show_answer : bool) : text :=
  let io_script := _generate_io_script shapes show_answer in
  if contains (txt "anki.imageOcclusion.setup()") html then
    str_replace (txt "anki.imageOcclusion.setup()") io_script html
  else if contains (txt "</script>") html then
    str_replace_first (txt "</script>") (io_script ++ [10] ++ txt "</script>") html
  else
    html ++ [10] ++ txt "<script>" ++ [10] ++ io_script ++ [10] ++ txt "</script>".

(** *** [can_render] *)

Definition can_render (r : renderer) (note_model : NoteModel.t) : bool :=
  match r with
  | ImageOcclusionRenderer =>
      contains (txt "image") (lower (NoteModel.name note_model)) &&
      contains (txt "occlusion") (lower (NoteModel.name note_model))
  | ClozeRenderer => bool_decide (NoteModel.type note_model = CLOZE)
  | MultiFieldRenderer =>
      ((3 <? length (NoteModel.flds note_model))%nat ||
       (1 <? length (NoteModel.tmpls note_model))%nat) &&
      bool_decide (NoteModel.type note_model = BASIC)
  | BasicRenderer => bool_decide (NoteModel.type note_model = BASIC)
  end.

(** *** [render_card] *)

Definition render_card (r : renderer) (note : Note.t) (note_model : NoteModel.t)
    (template_idx : Z) : result (gmap string value) :=
  let template_idx := clamp_template_idx note_model template_idx in
  template ← list_index (NoteModel.tmpls note_model) template_idx;
  fields ← _build_field_map note note_model;
  match r with
  | BasicRenderer =>
      '(front_html, back_html) ← render_sides template fields note;
      Ok (<["template_name" := VStr (Template.name template)]>
          (<["css" := VStr (NoteModel.css note_model)]>
           (<["back" := VStr back_html]>
            (<["front" := VStr front_html]> ∅))))
  | MultiFieldRenderer =>
      '(front_html, back_html) ← render_sides template fields note;
      Ok (<["total_templates" :=
              VInt (Z.of_nat (length (NoteModel.tmpls note_model)))]>
          (<["template_index" := VInt template_idx]>
           (<["template_name" := VStr (Template.name template)]>
            (<["css" := VStr (NoteModel.css note_model)]>
             (<["back" := VStr back_html]>
              (<["front" := VStr front_html]> ∅))))))
  | ClozeRenderer =>
      '(front_html, back_html) ← render_sides template fields note;
      Ok (<["css" := VStr (NoteModel.css note_model)]>
          (<["back" := VStr back_html]>
           (<["front" := VStr front_html]> ∅)))
  | ImageOcclusionRenderer =>
      let occlusion_field := dict_get fields (txt "Occlusion") [] in
      shapes ← _parse_occlusion_shapes occlusion_field;
      '(front_html, back_html) ← render_sides template fields note;
      let front_html := _inject_io_script front_html shapes false in
      let back_html := _inject_io_script back_html shapes true in
      Ok (<["css" := VStr (NoteModel.css note_model)]>
          (<["back" := VStr back_html]>
           (<["front" := VStr front_html]> ∅)))
  end.

(** ** Renderer selection ([HTMLDiffGenerator]) *)

(** [self.renderers], as [__init__] builds it *)
Definition renderers : list renderer :=
  [ImageOcclusionRenderer; ClozeRenderer; MultiFieldRenderer; BasicRenderer].

Fixpoint first_able (rs : list renderer) (note_model : NoteModel.t)
    : option renderer :=
  match rs with
  | [] => None
  | r :: rs' => if can_render r note_model then Some r else first_able rs' note_model
  end.

Definition _select_renderer (note_model : NoteModel.t) : renderer :=
  match first_able renderers note_model with
  | Some r => r
  | None => List.last renderers BasicRenderer
  end.
End renderers.

(** ** A reference instance of the library interface

    [RefLib] runs the code on concrete inputs.  It follows the Python
    libraries on texts made of ASCII and Latin-1 characters in which an
    ampersand starts one of the character references of [ref_names], or
    a decimal reference to a code point of the Basic Multilingual Plane
    outside the control and surrogate ranges, or no reference at all,
    and in which a [<] followed by a letter or a slash starts a tag
    closed by the next [>].  On other texts it is only some instance:
    the runs below stay within these texts, and every general theorem
    is proved for all instances. *)

Module RefLib.
(** [str.isspace] *)
Definition is_space (c : N) : bool :=
  ((9 <=? c) && (c <=? 13)) || ((28 <=? c) && (c <=? 32)) ||
  (c =? 133) || (c =? 160) || (c =? 5760) ||
  ((8192 <=? c) && (c <=? 8202)) || (c =? 8232) || (c =? 8233) ||
  (c =? 8239) || (c =? 8287) || (c =? 12288).

Definition is_digit (c : N) : bool := (ch "0" <=? c) && (c <=? ch "9").

Definition is_upper (c : N) : bool :=
  ((ch "A" <=? c) && (c <=? ch "Z")) ||
  ((192 <=? c) && (c <=? 222) && negb (c =? 215)).

Definition is_letter (c : N) : bool :=
  ((ch "a" <=? c) && (c <=? ch "z")) || ((ch "A" <=? c) && (c <=? ch "Z")) ||
  ((192 <=? c) && (c <=? 255) && negb (c =? 215) && negb (c =? 247)).

Definition is_word (c : N) : bool := is_letter c || is_digit c || (c =? ch "_").

Definition lower (s : text) : text :=
  (λ c, if is_upper c then c + 32 else c) <$> s.

Definition ref_names : list (text * N) :=
  [ (txt "amp", 38); (txt "lt", 60); (txt "gt", 62); (txt "quot", 34);
    (txt "apos", 39); (txt "nbsp", 160); (txt "ensp", 8194);
    (txt "emsp", 8195); (txt "thinsp", 8201); (txt "eacute", 233) ].

Fixpoint lookup_ref (name : text) (table : list (text * N)) : option N :=
  match table with
  | [] => None
  | (n, c) :: table' =>
      if bool_decide (n = name) then Some c else lookup_ref name table'
  end.

(** The value of a run of ASCII digits. *)
Definition decimal (ds : text) : N :=
  foldl (λ acc d, 10 * acc + (d - ch "0")) 0 ds.

Definition decodable (c : N) : bool :=
  ((32 <=? c) && (c <=? 126)) || ((160 <=? c) && (c <? 55296)).

(** A character reference at the start of [s]. *)
Definition char_ref (s : text) : option (text * nat) :=
  match s with
  | amp :: r =>
      if amp =? ch "&" then
        match span (λ c, negb (c =? ch ";")) r with
        | (body, _ :: _) =>
            match body with
            | hash :: ds =>
                if (hash =? ch "#") then
                  if forallb is_digit ds && negb (bool_decide (ds = []))
                     && decodable (decimal ds)
                  then Some ([decimal ds], S (S (length body))) else None
                else (λ c, ([c], S (S (length body)))) <$> lookup_ref body ref_names
            | [] => None
            end
        | _ => None
        end
      else None
  | [] => None
  end.

Definition unescape (s : text) : text := re_sub char_ref s.

(** A tag at the start of [s]. *)
Definition tag (s : text) : option (text * nat) :=
  match s with
  | lt :: c :: r =>
      if (lt =? ch "<") && (is_letter c || (c =? ch "/")) then
        match span (λ c, negb (c =? ch ">")) (c :: r) with
        | (body, _ :: _) => Some ([], S (S (length body)))
        | _ => None
        end
      else None
  | _ => None
  end.

Definition get_text (s : text) : option text :=
  Some (re_sub char_ref (re_sub tag s)).

Fixpoint digits_of (fuel : nat) (n : N) (acc : text) : text :=
  match fuel with
  | O => acc
  | S fuel' =>
      let acc' := (ch "0" + n `mod` 10) :: acc in
      if n <? 10 then acc' else digits_of fuel' (n `div` 10) acc'
  end.

(** [str(n)] *)
Definition show_N (n : N) : text := digits_of (S (N.to_nat (N.log2 n))) n [].
Definition show_Z (z : Z) : text :=
  match z with
  | Zneg p => ch "-" :: show_N (Npos p)
  | _ => show_N (Z.to_N z)
  end.

Definition hex_digit (n : N) : N :=
  if n <? 10 then ch "0" + n else ch "a" + (n - 10).
Definition u_escape (c : N) : text :=
  txt "\u" ++ [hex_digit ((c `div` 4096) `mod` 16); hex_digit ((c `div` 256) `mod` 16);
               hex_digit ((c `div` 16) `mod` 16); hex_digit (c `mod` 16)].

(** One character of a JSON string under [ensure_ascii]. *)
Definition json_char (c : N) : text :=
  if c =? 34 then txt "\" ++ [34]
  else if c =? ch "\" then txt "\\"
  else if c =? 10 then txt "\n"
  else if c =? 13 then txt "\r"
  else if c =? 9 then txt "\t"
  else if c =? 8 then txt "\b"
  else if c =? 12 then txt "\f"
  else if (32 <=? c) && (c <=? 126) then [c]
  else if c <? 65536 then u_escape c
  else u_escape (55296 + (c - 65536) `div` 1024) ++
       u_escape (56320 + (c - 65536) `mod` 1024).

Definition json_string (s : text) : text :=
  [34] ++ mjoin (json_char <$> s) ++ [34].

Fixpoint join (sep : text) (parts : list text) : text :=
  match parts with
  | [] => []
  | [p] => p
  | p :: parts' => p ++ sep ++ join sep parts'
  end.

Definition json_params (ps : list (text * text)) : text :=
  txt "{" ++ join (txt ", ")
    ((λ '(k, v), json_string k ++ txt ": " ++ json_string v) <$> ps) ++ txt "}".

Definition json_shape (sh : shape) : text :=
  txt "{" ++ json_string (txt "cloze") ++ txt ": " ++ show_Z (shape_cloze sh) ++
  txt ", " ++ json_string (txt "type") ++ txt ": " ++ json_string (shape_type sh) ++
  txt ", " ++ json_string (txt "params") ++ txt ": " ++ json_params (shape_params sh) ++
  txt "}".

Definition json_dumps_shapes (shapes : list shape) : text :=
  txt "[" ++ join (txt ", ") (json_shape <$> shapes) ++ txt "]".

(** Group 0 is named by a non-empty run of zeros. *)
Definition group0_name (name : text) : bool :=
  forallb (λ c, c =? ch "0") name && negb (bool_decide (name = [])).

Definition py_int (ds : text) : option Z := Some (Z.of_N (decimal ds)).
End RefLib.

#[export] Instance ref_lib : Runtime := {|
  is_space := RefLib.is_space;
  is_word := RefLib.is_word;
  word_not_colon := eq_refl;
  is_digit := RefLib.is_digit;
  digit_not_colon := eq_refl;
  digit_not_semicolon := eq_refl;
  lower := RefLib.lower;
  unescape := RefLib.unescape;
  get_text := RefLib.get_text;
  whitespace_entities_iter := WHITESPACE_ENTITIES;
  whitespace_entities_iter_perm := reflexivity _;
  group0_name := RefLib.group0_name;
  py_int := RefLib.py_int;
  json_dumps_shapes := RefLib.json_dumps_shapes
|}.

(** * Vocabulary of the statements *)

Section vocabulary.
Context `{Runtime}.
Import ChangeType.

(** The kinds the battery can report. *)
Definition cosmetic_kinds : list string :=
  [WHITESPACE; ENTITIES; HTML_FORMATTING; CASE; PUNCTUATION].

(** What [_is_whitespace_change] compares: the text without its
    whitespace characters and whitespace entities. *)
Definition without_whitespace (t : text) : text :=
  foldl (λ t entity, str_replace entity [] t) (sub_ws [] t)
        whitespace_entities_iter.

(** The texts have the same characters once the whitespace characters
    are left out: they differ only by inserted or removed whitespace
    runs. *)
Definition same_up_to_whitespace_runs (a b : text) : Prop :=
  filter (λ c, is_space c = false) a = filter (λ c, is_space c = false) b.

(** The positions [classify_note_change] classifies, and the
    classification of each. *)
Definition differing (before_fields after_fields : list text) : list nat :=
  filter (λ i, field_at before_fields i ≠ field_at after_fields i)
         (seq 0 (length before_fields `max` length after_fields)%nat).

Definition field_class (before_fields after_fields : list text) (i : nat)
    : string * list string :=
  classify_field_change (field_at before_fields i) (field_at after_fields i).

(** No character of the text is whitespace. *)
Definition spaceless (t : text) : Prop := Forall (λ c, is_space c = false) t.

(** The text has no backslash. *)
Definition backslash_free (t : text) : Prop := Forall (λ c, c ≠ ch "\") t.
End vocabulary.

(** Inputs of the runs *)

(** ["café"] *)
Definition cafe : text := txt "caf" ++ [233].

(** A model named for image occlusion, of type Basic, with two fields,
    and a note of it. *)
Definition occlusion_model : NoteModel.t :=
  {| NoteModel.name := txt "Image Occlusion Enhanced";
     NoteModel.type := BASIC;
     NoteModel.flds :=
       [ {| FieldModel.name := txt "Occlusion"; FieldModel.ord := 0 |};
         {| FieldModel.name := txt "Image"; FieldModel.ord := 1 |} ];
     NoteModel.tmpls :=
       [ {| Template.name := txt "Card 1"; Template.ord := 0;
            Template.qfmt := txt "{{cloze:Occlusion}}{{Image}}";
            Template.afmt := txt "{{FrontSide}}<hr>" |} ];
     NoteModel.css := txt ".card {}" |}.

Definition occlusion_note : Note.t :=
  {| Note.guid := txt "g1";
     Note.fields := [ txt "{{c1::image-occlusion:rect:left=.5:top=.25}}";
                      txt "<img src=a.png>" ];
     Note.tags := [] |}.

(** A cloze model with one template, and a note of it. *)
Definition cloze_model : NoteModel.t :=
  {| NoteModel.name := txt "Cloze";
     NoteModel.type := CLOZE;
     NoteModel.flds := [ {| FieldModel.name := txt "Text"; FieldModel.ord := 0 |} ];
     NoteModel.tmpls :=
       [ {| Template.name := txt "Cloze"; Template.ord := 0;
            Template.qfmt := txt "{{cloze:Text}}";
            Template.afmt := txt "{{cloze:Text}}" |} ];
     NoteModel.css := txt ".cloze {}" |}.

Definition cloze_note : Note.t :=
  {| Note.guid := txt "g2";
     Note.fields := [ txt "{{c1::Paris}} is capital" ];
     Note.tags := [] |}.

(** * Further code of the repository *)

(** ** [get_change_description] ([src/change_classifier.py]) *)

(** The dictionary [descriptions]. *)
Definition descriptions : gmap string string :=
  list_to_map
    [ (ChangeType.CONTENT, "Content changed"%string);
      (ChangeType.WHITESPACE, "Whitespace only"%string);
      (ChangeType.HTML_FORMATTING, "HTML formatting only"%string);
      (ChangeType.ENTITIES, "HTML entities only"%string);
      (ChangeType.CASE, "Letter case only"%string);
      (ChangeType.PUNCTUATION, "Punctuation only"%string);
      (ChangeType.MIXED_COSMETIC, "Cosmetic changes only"%string) ].

Definition get_change_description (change_type : string)
    (cosmetic_types : option (list string)) : string :=
  let base_desc := default "Changed"%string (descriptions !! change_type) in
  match cosmetic_types with
  | Some types =>
      if (1 <? length types)%nat then
        let types_desc :=
          String.concat ", " ((λ t, default t (descriptions !! t)) <$> types) in
        (base_desc +:+ " (" +:+ types_desc +:+ ")")%string
      else base_desc
  | None => base_desc
  end.

(** ** Cloze helpers of [src/template_engine.py] *)

(** [re.search]: the match found first from the left, if any. *)
Fixpoint re_search {A : Type} (m : text → option (A * nat)) (s : text)
    : option A :=
  match m s with
  | Some (a, _) => Some a
  | None =>
      match s with
      | [] => None
      | _ :: s' => re_search m s'
      end
  end.

Section cloze_helpers.
Context `{Runtime}.

(** the pattern [\{\{c(\d+)::] with its group *)
Definition cloze_open (s : text) : option (text * nat) :=
  if starts_with (txt "{{c") s then
    match span is_digit (drop 3 s) with
    | (d :: ds, after) =>
        if starts_with (txt "::") after
        then Some (d :: ds, (3 + length (d :: ds) + 2)%nat)
        else None
    | _ => None
    end
  else None.

(** Group 3 of the cloze pattern, from the run between [::] and the
    closing braces: what follows the [::] at which group 2 stops. *)
Fixpoint after_hint_mark (run : text) : option text :=
  match run with
  | [] => None
  | _ :: run' =>
      if starts_with (txt "::") run && (2 <? length run)%nat
      then Some (drop 2 run)
      else after_hint_mark run'
  end.
Definition cloze_hint_of (run : text) : option text :=
  match run with
  | [] => None
  | _ :: run' => after_hint_mark run'
  end.

(** the cloze pattern with the replacement of the branch
    [show_all = False] of [render_cloze_field_for_display] *)
Definition cloze_hidden_item (s : text) : option (text * nat) :=
  if starts_with (txt "{{c") s then
    match span is_digit (drop 3 s) with
    | (d :: ds, after) =>
        if starts_with (txt "::") after then
          match run_to_close (drop 2 after) with
          | Some (run, _) =>
              let cloze_num := d :: ds in
              let cloze_hint := default (txt "[...]") (cloze_hint_of run) in
              Some (txt "<span class=" ++ [34] ++ txt "cloze-hidden" ++ [34] ++
                    txt " data-cloze=" ++ [34] ++ cloze_num ++ [34] ++
                    txt ">" ++ cloze_hint ++ txt "</span>",
                    (3 + length cloze_num + 2 + length run + 2)%nat)
          | None => None
          end
        else None
    | _ => None
    end
  else None.

Definition render_cloze_field_for_display (field_value : text)
    (show_all : bool) : text :=
  if show_all then re_sub cloze_item field_value
  else re_sub cloze_hidden_item field_value.

(** [int(num) for num in matches]; the first failure raises. *)
Fixpoint ints_of (nums : list text) : result (list Z) :=
  match nums with
  | [] => Ok []
  | num :: nums' =>
      match py_int num with
      | Some n => ns ← ints_of nums'; Ok (n :: ns)
      | None => Raise ValueError
      end
  end.

(** [sorted(set(..))] on integers *)
Definition sorted_set (ns : list Z) : list Z :=
  merge_sort Z.le (elements (list_to_set ns : gset Z)).

Definition extract_cloze_numbers (field_value : text) : result (list Z) :=
  let matches := re_finditer cloze_open field_value in
  ns ← ints_of matches;
  Ok (sorted_set ns).

Definition has_cloze_deletions (field_value : text) : bool :=
  bool_decide (is_Some (re_search cloze_open field_value)).
End cloze_helpers.

(** ** Vocabulary of the further statements *)

(** The text has no opening brace. *)
Definition no_open (t : text) : Prop := Forall (λ c, c ≠ ch "{") t.

(** The text has no brace. *)
Definition brace_free (t : text) : Prop :=
  Forall (λ c, c ≠ ch "{" ∧ c ≠ ch "}") t.

(** A pattern that can only match at a [{{]. *)
Definition needs_open (m : text → option (text * nat)) : Prop :=
  ∀ s, starts_with (txt "{{") s = false → m s = None.

(** The text of a block: marker and name, body, closing reference. *)
Definition block_text (marker : N) (name body : text) : text :=
  txt "{{" ++ [marker] ++ name ++ txt "}}" ++ body ++
  txt "{{/" ++ name ++ txt "}}".


(** ** [BaseNoteRenderer.render_all_cards] *)

Section all_cards.
Context `{Runtime}.

(** The loop over [range(len(note_model.tmpls))], with the list
    [cards] it appends to. *)
Fixpoint render_cards_from (r : renderer) (note : Note.t)
    (note_model : NoteModel.t) (cards : list (gmap string value))
    (idxs : list nat) : result (list (gmap string value)) :=
  match idxs with
  | [] => Ok cards
  | i :: idxs' =>
      card ← render_card r note note_model (Z.of_nat i);
      render_cards_from r note note_model (cards ++ [card]) idxs'
  end.

Definition render_all_cards (r : renderer) (note : Note.t)
    (note_model : NoteModel.t) : result (list (gmap string value)) :=
  render_cards_from r note note_model []
    (seq 0 (length (NoteModel.tmpls note_model))).
End all_cards.

(** The text of an occlusion parameter, of a parameter string and of a
    shape reference, as the field of an image-occlusion note holds
    them. *)
Definition param_text (kv : text * text) : text := kv.1 ++ txt "=" ++ kv.2.
Definition params_text (kvs : list (text * text)) : text :=
  str_join (txt ":") (param_text <$> kvs).
Definition shape_text (num shape_type params_str : text) : text :=
  txt "{{c" ++ num ++ txt "::image-occlusion:" ++ shape_type ++ txt ":" ++
  params_str ++ txt "}}".

(** One step of the loop over the parameters of a shape. *)
Definition param_step (params : dict text) (param : text) : dict text :=
  if contains (txt "=") param then
    match str_find (txt "=") param with
    | Some n => dict_set params (take n param) (drop (S n) param)
    | None => params
    end
  else params.

Section shapes_written.
Context `{Runtime}.

(** The reference of a shape, from the digits of its cloze number. *)
Definition shape_ref (item : text * shape) : text :=
  shape_text item.1 (shape_type item.2) (params_text (shape_params item.2)).

(** What a reference is written from: digits that [int] reads as the
    cloze number, a type of word characters, and parameters with
    distinct keys, free of the characters that end a key, a value or
    the reference. *)
Definition shape_written (item : text * shape) : Prop :=
  item.1 ≠ [] ∧ Forall (λ c, is_digit c = true) item.1 ∧
  py_int item.1 = Some (shape_cloze item.2) ∧
  shape_type item.2 ≠ [] ∧
  Forall (λ c, is_word c = true) (shape_type item.2) ∧
  NoDup (shape_params item.2).*1 ∧
  Forall (λ kv, Forall (λ c, (c ∉ kv.1) ∧ (c ∉ kv.2))
                       [ch ":"; ch "}"; 10] ∧ (ch "=" ∉ kv.1))
         (shape_params item.2).
End shapes_written.

(** ** Decks ([models.Deck], [src/parser.py]) *)

(** [d.get(k)]; it is [None] exactly when [k not in d]. *)
Fixpoint dict_lookup {V} (d : dict V) (k : text) : option V :=
  match d with
  | [] => None
  | (k', v) :: d' => if bool_decide (k' = k) then Some v else dict_lookup d' k
  end.

(** [d.update(d')] *)
Definition dict_update {V} (d d' : dict V) : dict V :=
  foldl (λ d item, dict_set d item.1 item.2) d d'.

(** [models.Note] as the parser builds it: with the field
    [note_model_uuid], which the renderers do not read. *)
Module DeckNote.
Record t := { note : Note.t; note_model_uuid : text }.
Definition guid (n : t) : text := Note.guid (note n).
Definition fields (n : t) : list text := Note.fields (note n).
Definition tags (n : t) : list text := Note.tags (note n).
End DeckNote.

(** [models.Deck]: the fields the parser's searches read. *)
Module Deck.
#[local] Unset Elimination Schemes.
Inductive t := mk { name : text; notes : list DeckNote.t; children : list t }.
#[local] Set Elimination Schemes.
End Deck.

(** [f"{current_path}::{deck.name}" if current_path else deck.name] *)
Definition path_in (current_path name : text) : text :=
  match current_path with
  | [] => name
  | _ => current_path ++ txt "::" ++ name
  end.

Fixpoint find_note_by_guid (deck : Deck.t) (guid : text) (current_path : text)
    : option (DeckNote.t * text) :=
  let deck_path := path_in current_path (Deck.name deck) in
  match List.find (λ note, bool_decide (DeckNote.guid note = guid))
                  (Deck.notes deck) with
  | Some note => Some (note, deck_path)
  | None =>
      (fix search (children : list Deck.t) : option (DeckNote.t * text) :=
         match children with
         | [] => None
         | child :: children' =>
             match find_note_by_guid child guid deck_path with
             | Some result => Some result
             | None => search children'
             end
         end) (Deck.children deck)
  end.

Fixpoint build_note_map (deck : Deck.t) (current_path : text)
    : dict (DeckNote.t * text) :=
  let deck_path := path_in current_path (Deck.name deck) in
  let note_map :=
    foldl (λ note_map note,
             dict_set note_map (DeckNote.guid note) (note, deck_path))
          [] (Deck.notes deck) in
  (fix update (children : list Deck.t) (note_map : dict (DeckNote.t * text))
     : dict (DeckNote.t * text) :=
     match children with
     | [] => note_map
     | child :: children' =>
         update children' (dict_update note_map (build_note_map child deck_path))
     end) (Deck.children deck) note_map.

(** The two checks of a note in [_validate_recursive]. *)
Definition note_valid (note_models : dict NoteModel.t) (note : DeckNote.t)
    : bool :=
  match dict_lookup note_models (DeckNote.note_model_uuid note) with
  | None => false
  | Some note_model =>
      bool_decide (length (DeckNote.fields note) =
                   length (NoteModel.flds note_model))
  end.

Fixpoint _validate_recursive (note_models : dict NoteModel.t) (d : Deck.t)
    : bool :=
  if forallb (note_valid note_models) (Deck.notes d) then
    (fix check (children : list Deck.t) : bool :=
       match children with
       | [] => true
       | child :: children' =>
           if _validate_recursive note_models child then check children'
           else false
       end) (Deck.children d)
  else false.

Definition validate_deck_structure (deck : Deck.t)
    (note_models : dict NoteModel.t) : bool :=
  _validate_recursive note_models deck.

(** ** Changes of notes ([models.NoteChange], [src/git_diff.py]) *)

(** The order of [str]: by code points, a proper prefix first. *)
Fixpoint text_leb (a b : text) : bool :=
  match a, b with
  | [], _ => true
  | _ :: _, [] => false
  | x :: a', y :: b' => (x <? y) || ((x =? y) && text_leb a' b')
  end.
Definition text_le (a b : text) : Prop := text_leb a b = true.

#[export] Instance text_le_dec : RelDecision text_le.
Proof. intros a b. unfold text_le. apply _. Defined.

(** [sorted(l)] on a list of [str] *)
Definition sorted (l : list text) : list text := merge_sort text_le l.

Definition _notes_equal (note1 note2 : DeckNote.t) : bool :=
  bool_decide (DeckNote.guid note1 = DeckNote.guid note2) &&
  bool_decide (DeckNote.fields note1 = DeckNote.fields note2) &&
  bool_decide (sorted (DeckNote.tags note1) = sorted (DeckNote.tags note2)) &&
  bool_decide (DeckNote.note_model_uuid note1 = DeckNote.note_model_uuid note2).

Module NoteChange.
(** [cosmetic_changes] is a list in no specified order: the set of its
    elements.  [classification_details] is [None] for the empty
    dictionary of the default. *)
Record t := {
  change_type : string;
  before : option DeckNote.t;
  after : option DeckNote.t;
  note_model : NoteModel.t;
  deck_path : text;
  content_change_type : string;
  cosmetic_changes : gset string;
  classification_details :
    option (list (nat * (string * list string)) * gset string)
}.

Definition guid (c : t) : text :=
  match after c with
  | Some n => DeckNote.guid n
  | None =>
      match before c with
      | Some n => DeckNote.guid n
      | None => txt "unknown"
      end
  end.

Definition is_cosmetic_only (c : t) : bool :=
  bool_decide (content_change_type c ≠ "content"%string).
End NoteChange.

Section git_diff.
Context `{Runtime}.

Definition added_change (note : DeckNote.t) (note_model : NoteModel.t)
    (deck_path : text) : NoteChange.t :=
  {| NoteChange.change_type := "added";
     NoteChange.before := None;
     NoteChange.after := Some note;
     NoteChange.note_model := note_model;
     NoteChange.deck_path := deck_path;
     NoteChange.content_change_type := "content";
     NoteChange.cosmetic_changes := ∅;
     NoteChange.classification_details := None |}.

Definition deleted_change (note : DeckNote.t) (note_model : NoteModel.t)
    (deck_path : text) : NoteChange.t :=
  {| NoteChange.change_type := "deleted";
     NoteChange.before := Some note;
     NoteChange.after := None;
     NoteChange.note_model := note_model;
     NoteChange.deck_path := deck_path;
     NoteChange.content_change_type := "content";
     NoteChange.cosmetic_changes := ∅;
     NoteChange.classification_details := None |}.

Definition modified_change (before_note after_note : DeckNote.t)
    (note_model : NoteModel.t) (deck_path : text) : NoteChange.t :=
  let '(content_type, details) :=
    classify_note_change (DeckNote.fields before_note)
                         (DeckNote.fields after_note) in
  {| NoteChange.change_type := "modified";
     NoteChange.before := Some before_note;
     NoteChange.after := Some after_note;
     NoteChange.note_model := note_model;
     NoteChange.deck_path := deck_path;
     NoteChange.content_change_type := content_type;
     NoteChange.cosmetic_changes := details.2;
     NoteChange.classification_details := Some details |}.

(** The loop over the notes of a deck that is on one side only: every
    note whose model is known gives a change. *)
Definition one_sided (change : DeckNote.t → NoteModel.t → text → NoteChange.t)
    (notes : dict (DeckNote.t * text)) (models : dict NoteModel.t)
    (changes : list NoteChange.t) : list NoteChange.t :=
  foldl (λ changes item,
           let note := item.2.1 in
           let deck_path_str := item.2.2 in
           match dict_lookup models (DeckNote.note_model_uuid note) with
           | Some note_model => changes ++ [change note note_model deck_path_str]
           | None => changes
           end) changes notes.

(** The body of the loop that detects additions and modifications. *)
Definition after_step (before_notes : dict (DeckNote.t * text))
    (after_models : dict NoteModel.t) (changes : list NoteChange.t)
    (item : text * (DeckNote.t * text)) : list NoteChange.t :=
  let guid := item.1 in
  let after_note := item.2.1 in
  let deck_path_str := item.2.2 in
  match dict_lookup after_models (DeckNote.note_model_uuid after_note) with
  | None => changes
  | Some note_model =>
      match dict_lookup before_notes guid with
      | None => changes ++ [added_change after_note note_model deck_path_str]
      | Some (before_note, _) =>
          if negb (_notes_equal before_note after_note) then
            changes ++ [modified_change before_note after_note note_model
                                        deck_path_str]
          else changes
      end
  end.

(** The body of the loop that detects deletions. *)
Definition before_step (after_notes : dict (DeckNote.t * text))
    (before_models : dict NoteModel.t) (changes : list NoteChange.t)
    (item : text * (DeckNote.t * text)) : list NoteChange.t :=
  let guid := item.1 in
  let before_note := item.2.1 in
  let deck_path_str := item.2.2 in
  match dict_lookup after_notes guid with
  | None =>
      match dict_lookup before_models (DeckNote.note_model_uuid before_note) with
      | Some note_model =>
          changes ++ [deleted_change before_note note_model deck_path_str]
      | None => changes
      end
  | Some _ => changes
  end.

(** [_compare_deck_versions], from the two versions of the deck file as
    they were loaded: [None] for a file that is not in the commit. *)
Definition _compare_deck_versions
    (before_deck : option Deck.t) (before_models : dict NoteModel.t)
    (after_deck : option Deck.t) (after_models : dict NoteModel.t)
    : list NoteChange.t :=
  match before_deck, after_deck with
  | None, None => []
  | Some before_deck, None =>
      one_sided deleted_change (build_note_map before_deck []) before_models []
  | None, Some after_deck =>
      one_sided added_change (build_note_map after_deck []) after_models []
  | Some before_deck, Some after_deck =>
      let before_notes := build_note_map before_deck [] in
      let after_notes := build_note_map after_deck [] in
      let changes :=
        foldl (after_step before_notes after_models) [] after_notes in
      foldl (before_step after_notes before_models) changes before_notes
  end.
End git_diff.

(** ** Statistics ([HTMLDiffGenerator._calculate_stats]) *)

Module Stats.
Record t := {
  added : nat;
  modified : nat;
  deleted : nat;
  content_changes : nat;
  cosmetic_only : nat;
  cosmetic_breakdown : gmap string nat
}.
End Stats.

(** The dictionary [stats] before the loop. *)
Definition stats_init : Stats.t :=
  {| Stats.added := 0; Stats.modified := 0; Stats.deleted := 0;
     Stats.content_changes := 0; Stats.cosmetic_only := 0;
     Stats.cosmetic_breakdown :=
       list_to_map [(ChangeType.WHITESPACE, 0%nat);
                    (ChangeType.HTML_FORMATTING, 0%nat);
                    (ChangeType.ENTITIES, 0%nat);
                    (ChangeType.CASE, 0%nat);
                    (ChangeType.PUNCTUATION, 0%nat);
                    (ChangeType.MIXED_COSMETIC, 0%nat)] |}.

Definition set_added (n : nat) (stats : Stats.t) : Stats.t :=
  {| Stats.added := n; Stats.modified := Stats.modified stats;
     Stats.deleted := Stats.deleted stats;
     Stats.content_changes := Stats.content_changes stats;
     Stats.cosmetic_only := Stats.cosmetic_only stats;
     Stats.cosmetic_breakdown := Stats.cosmetic_breakdown stats |}.
Definition set_modified (n : nat) (stats : Stats.t) : Stats.t :=
  {| Stats.added := Stats.added stats; Stats.modified := n;
     Stats.deleted := Stats.deleted stats;
     Stats.content_changes := Stats.content_changes stats;
     Stats.cosmetic_only := Stats.cosmetic_only stats;
     Stats.cosmetic_breakdown := Stats.cosmetic_breakdown stats |}.
Definition set_deleted (n : nat) (stats : Stats.t) : Stats.t :=
  {| Stats.added := Stats.added stats; Stats.modified := Stats.modified stats;
     Stats.deleted := n;
     Stats.content_changes := Stats.content_changes stats;
     Stats.cosmetic_only := Stats.cosmetic_only stats;
     Stats.cosmetic_breakdown := Stats.cosmetic_breakdown stats |}.
Definition set_content_changes (n : nat) (stats : Stats.t) : Stats.t :=
  {| Stats.added := Stats.added stats; Stats.modified := Stats.modified stats;
     Stats.deleted := Stats.deleted stats;
     Stats.content_changes := n;
     Stats.cosmetic_only := Stats.cosmetic_only stats;
     Stats.cosmetic_breakdown := Stats.cosmetic_breakdown stats |}.
Definition set_cosmetic_only (n : nat) (stats : Stats.t) : Stats.t :=
  {| Stats.added := Stats.added stats; Stats.modified := Stats.modified stats;
     Stats.deleted := Stats.deleted stats;
     Stats.content_changes := Stats.content_changes stats;
     Stats.cosmetic_only := n;
     Stats.cosmetic_breakdown := Stats.cosmetic_breakdown stats |}.
Definition set_cosmetic_breakdown (b : gmap string nat) (stats : Stats.t)
    : Stats.t :=
  {| Stats.added := Stats.added stats; Stats.modified := Stats.modified stats;
     Stats.deleted := Stats.deleted stats;
     Stats.content_changes := Stats.content_changes stats;
     Stats.cosmetic_only := Stats.cosmetic_only stats;
     Stats.cosmetic_breakdown := b |}.

(** [if key in stats: stats[key] += 1]; [None] when the addition raises
    [TypeError]: the value of the key ["cosmetic_breakdown"] is a
    dictionary. *)
Definition count_change_type (key : string) (stats : Stats.t) : option Stats.t :=
  if bool_decide (key = "added"%string) then
    Some (set_added (S (Stats.added stats)) stats)
  else if bool_decide (key = "modified"%string) then
    Some (set_modified (S (Stats.modified stats)) stats)
  else if bool_decide (key = "deleted"%string) then
    Some (set_deleted (S (Stats.deleted stats)) stats)
  else if bool_decide (key = "content_changes"%string) then
    Some (set_content_changes (S (Stats.content_changes stats)) stats)
  else if bool_decide (key = "cosmetic_only"%string) then
    Some (set_cosmetic_only (S (Stats.cosmetic_only stats)) stats)
  else if bool_decide (key = "cosmetic_breakdown"%string) then None
  else Some stats.

(** The body of the loop over the changes. *)
Definition stats_step (stats : Stats.t) (change : NoteChange.t)
    : option Stats.t :=
  stats ← count_change_type (NoteChange.change_type change) stats;
  if bool_decide (NoteChange.change_type change = "modified"%string) then
    if NoteChange.is_cosmetic_only change then
      let stats := set_cosmetic_only (S (Stats.cosmetic_only stats)) stats in
      match Stats.cosmetic_breakdown stats
              !! NoteChange.content_change_type change with
      | Some n =>
          Some (set_cosmetic_breakdown
                  (<[NoteChange.content_change_type change := S n]>
                     (Stats.cosmetic_breakdown stats)) stats)
      | None => Some stats
      end
    else Some (set_content_changes (S (Stats.content_changes stats)) stats)
  else Some stats.

Fixpoint calculate_stats_from (stats : Stats.t) (changes : list NoteChange.t)
    : option Stats.t :=
  match changes with
  | [] => Some stats
  | change :: changes' =>
      stats ← stats_step stats change;
      calculate_stats_from stats changes'
  end.

Definition _calculate_stats (changes : list NoteChange.t) : option Stats.t :=
  calculate_stats_from stats_init changes.

(** [changes_to_render] of [generate_diff_page] *)
Definition changes_to_render (changes : list NoteChange.t)
    : list NoteChange.t :=
  filter (λ change, NoteChange.is_cosmetic_only change = false) changes.

(** ** Vocabulary of the statements about decks *)

(** The notes of a deck and of the decks below it, each with the path
    of its deck: the notes of the deck first, then those of each child
    in turn. *)
Fixpoint notes_below (deck : Deck.t) (current_path : text)
    : list (DeckNote.t * text) :=
  let deck_path := path_in current_path (Deck.name deck) in
  ((λ note, (note, deck_path)) <$> Deck.notes deck) ++
  (fix below (children : list Deck.t) : list (DeckNote.t * text) :=
     match children with
     | [] => []
     | child :: children' => notes_below child deck_path ++ below children'
     end) (Deck.children deck).

(** The test of the searches: the entry is a note with the guid. *)
Definition has_guid (guid : text) (entry : DeckNote.t * text) : bool :=
  bool_decide (DeckNote.guid entry.1 = guid).

(** A dictionary of notes under their guids, as [build_note_map]
    returns it. *)
Definition keyed_by_guid (notes : dict (DeckNote.t * text)) : Prop :=
  NoDup notes.*1 ∧ Forall (λ item, DeckNote.guid item.2.1 = item.1) notes.

(** The note map of a version of the deck file. *)
Definition notes_of (deck : option Deck.t) : dict (DeckNote.t * text) :=
  match deck with
  | Some deck => build_note_map deck []
  | None => []
  end.

(** A change as [_compare_deck_versions] builds it: an added or
    deleted note with the default kind of change, or a modified note
    with a kind that [classify_note_change] returns. *)
Definition well_classified (change : NoteChange.t) : Prop :=
  (NoteChange.change_type change = "added"%string ∨
   NoteChange.change_type change = "deleted"%string) ∧
  NoteChange.content_change_type change = ChangeType.CONTENT ∨
  NoteChange.change_type change = "modified"%string ∧
  (NoteChange.content_change_type change = ChangeType.CONTENT ∨
   NoteChange.content_change_type change = ChangeType.MIXED_COSMETIC ∨
   NoteChange.content_change_type change ∈ cosmetic_kinds).

(** The total of the counts of a breakdown. *)
Definition breakdown_total (b : gmap string nat) : nat :=
  map_fold (λ _ n total, (n + total)%nat) 0%nat b.

(** What the loop of [_calculate_stats] keeps true of the counters. *)
Definition stats_balanced (stats : Stats.t) : Prop :=
  Stats.modified stats
    = (Stats.content_changes stats + Stats.cosmetic_only stats)%nat ∧
  breakdown_total (Stats.cosmetic_breakdown stats) = Stats.cosmetic_only stats ∧
  (∀ k, k = ChangeType.MIXED_COSMETIC ∨ k ∈ cosmetic_kinds →
        is_Some (Stats.cosmetic_breakdown stats !! k)).

(** The changes counted by type, and those that are rendered. *)
Definition stats_total (stats : Stats.t) : nat :=
  (Stats.added stats + Stats.modified stats + Stats.deleted stats)%nat.
Definition stats_rendered (stats : Stats.t) : nat :=
  (Stats.added stats + Stats.deleted stats + Stats.content_changes stats)%nat.

(** ** Highlighted differences ([HTMLDiffGenerator._highlight_diff]) *)

(** The operations of [diff_match_patch]. *)
Definition DIFF_DELETE : Z := (-1)%Z.
Definition DIFF_INSERT : Z := 1%Z.
Definition DIFF_EQUAL : Z := 0%Z.

(** [text.replace('&', '&amp;').replace('<', '&lt;').replace('>', '&gt;')] *)
Definition escape_html (t : text) : text :=
  str_replace (txt ">") (txt "&gt;")
    (str_replace (txt "<") (txt "&lt;")
       (str_replace (txt "&") (txt "&amp;") t)).

(** The body of the loop over the differences, on the two lists
    [html1] and [html2]. *)
Definition highlight_step (acc : list text * list text) (d : Z * text)
    : list text * list text :=
  let '(html1, html2) := acc in
  let escaped_text := escape_html d.2 in
  if bool_decide (d.1 = DIFF_DELETE) then
    (html1 ++ [txt "<del>" ++ escaped_text ++ txt "</del>"], html2)
  else if bool_decide (d.1 = DIFF_INSERT) then
    (html1, html2 ++ [txt "<ins>" ++ escaped_text ++ txt "</ins>"])
  else (html1 ++ [escaped_text], html2 ++ [escaped_text]).

(** The loop and the two joins, on the differences that the library
    computed. *)
Definition highlight (diffs : list (Z * text)) : text * text :=
  let '(html1, html2) := foldl highlight_step ([], []) diffs in
  (str_join [] html1, str_join [] html2).

Section highlight_diff.
(** [dmp.diff_main] followed by [dmp.diff_cleanupSemantic] *)
Context (diff_main : text → text → list (Z * text)).

Definition _highlight_diff (text1 text2 : text) : text * text :=
  highlight (diff_main text1 text2).
End highlight_diff.

(** The text of one side of a list of differences: the parts that are
    not of the other side's operation. *)
Definition side_text (other : Z) (diffs : list (Z * text)) : text :=
  mjoin (snd <$> filter (λ d, d.1 ≠ other) diffs).

(** The text without the marks of a tag. *)
Definition without_marks (tag html : text) : text :=
  str_replace (txt "</" ++ tag ++ txt ">") []
    (str_replace (txt "<" ++ tag ++ txt ">") [] html).

(** * Facts about the drivers *)

Section driver_facts.
Context `{Runtime}.

Lemma span_all (p : N → bool) (s : text) :
  Forall (λ c, p c = false) s → span p s = ([], s).
Proof. destruct 1 as [|c s Hc _]; simpl; [done | by rewrite Hc]. Qed.

Lemma sub_from_unmatched (m : text → option (text * nat)) (s : text) :
  (∀ s', s' `suffix_of` s → m s' = None) → sub_from m None 0 s = s.
Proof.
  induction s as [|c s IH]; intros Hm; simpl; [done|].
  rewrite (Hm (c :: s)) by done. f_equal. apply IH.
  intros s' Hs'. apply Hm. by apply suffix_cons_r.
Qed.

Lemma ws_run_spaceless repl s : spaceless s → ws_run repl s = None.
Proof. intros Hs. unfold ws_run. by rewrite span_all. Qed.

Lemma spaceless_suffix s s' : spaceless s → s' `suffix_of` s → spaceless s'.
Proof.
  intros Hs [k ->]. unfold spaceless in *. by apply Forall_app in Hs as [_ ?].
Qed.

Lemma sub_ws_spaceless repl s : spaceless s → sub_ws repl s = s.
Proof.
  intros Hs. apply sub_from_unmatched. intros s' Hs'.
  apply ws_run_spaceless. by eapply spaceless_suffix.
Qed.

Lemma lstrip_spaceless s : spaceless s → lstrip s = s.
Proof. intros Hs. unfold lstrip. by rewrite span_all. Qed.

Lemma strip_spaceless s : spaceless s → strip s = s.
Proof.
  intros Hs. unfold strip. rewrite (lstrip_spaceless s Hs).
  rewrite lstrip_spaceless; [apply reverse_involutive|].
  unfold spaceless. by apply Forall_reverse.
Qed.

Lemma span_app (p : N → bool) (s : text) :
  (span p s).1 ++ (span p s).2 = s.
Proof.
  induction s as [|c s IH]; simpl; [done|].
  destruct (p c); [|done]. destruct (span p s) as [a b]. simpl in *.
  by rewrite IH.
Qed.

Lemma span_fst_all (p : N → bool) (s : text) :
  Forall (λ c, p c = true) (span p s).1.
Proof.
  induction s as [|c s IH]; simpl; [constructor|].
  destruct (p c) eqn:Hc; [|constructor].
  destruct (span p s) as [a b]. simpl in *. by constructor.
Qed.

Lemma span_length (p : N → bool) (s : text) :
  (length (span p s).1 ≤ length s)%nat.
Proof. rewrite <- (span_app p s) at 2. rewrite length_app. lia. Qed.

Lemma sub_from_skip (m : text → option (text * nat)) count k s :
  sub_from m count k s = sub_from m count 0 (drop k s).
Proof.
  revert k. induction s as [|c s IH]; intros [|k]; simpl; auto.
Qed.

Lemma finditer_from_skip {A} (m : text → option (A * nat)) k s :
  finditer_from m k s = finditer_from m 0 (drop k s).
Proof.
  revert k. induction s as [|c s IH]; intros [|k]; simpl; auto.
Qed.

Lemma filter_drop_spaces (run s : text) :
  Forall (λ c, is_space c = true) run →
  filter (λ c, is_space c = false) (run ++ s) =
  filter (λ c, is_space c = false) s.
Proof.
  induction 1 as [|c run Hc _ IH]; simpl; [done|].
  rewrite filter_cons_False; [done | congruence].
Qed.

(** [re.sub(r'\s+', '', s)] leaves exactly the characters that are not
    whitespace. *)
Lemma sub_ws_nil_filter s :
  sub_ws [] s = filter (λ c, is_space c = false) s.
Proof.
  unfold sub_ws, re_sub.
  remember (length s) as n eqn:Hn.
  assert (length s ≤ n)%nat as Hle by lia. clear Hn.
  revert s Hle. induction n as [|n IH]; intros [|c s] Hle; simpl in *;
    try done; try lia.
  unfold ws_run. simpl.
  destruct (is_space c) eqn:Hc.
  - pose proof (span_app is_space s) as Happ.
    pose proof (span_fst_all is_space s) as Hall.
    pose proof (span_length is_space s) as Hlen.
    destruct (span is_space s) as [run rest]. simpl in *.
    rewrite sub_from_skip, filter_cons_False by congruence.
    rewrite <- Happ at 2. rewrite filter_drop_spaces by done.
    rewrite <- Happ at 1. rewrite drop_app_length.
    apply IH. apply (f_equal length) in Happ. rewrite length_app in Happ. lia.
  - rewrite filter_cons_True by done. f_equal. apply IH. lia.
Qed.
End driver_facts.

(** * The classifier *)

Section classifier_facts.
Context `{Runtime}.
Import ChangeType.

Lemma remove_whitespace_entities_fold (entities : list text) b a :
  foldl (λ '(b, a) entity, (str_replace entity [] b, str_replace entity [] a))
        (b, a) entities =
  (foldl (λ t entity, str_replace entity [] t) b entities,
   foldl (λ t entity, str_replace entity [] t) a entities).
Proof. revert b a. induction entities as [|e es IH]; intros; simpl; auto. Qed.

Lemma is_whitespace_change_eq before after :
  _is_whitespace_change before after =
  bool_decide (without_whitespace before = without_whitespace after).
Proof.
  unfold _is_whitespace_change, remove_whitespace_entities.
  by rewrite remove_whitespace_entities_fold.
Qed.

Lemma bool_decide_eq_sym {A} `{EqDecision A} (x y : A) :
  bool_decide (x = y) = bool_decide (y = x).
Proof. apply bool_decide_ext. split; congruence. Qed.

Lemma bool_decide_ne_sym {A} `{EqDecision A} (x y : A) :
  bool_decide (x ≠ y) = bool_decide (y ≠ x).
Proof. apply bool_decide_ext. split; congruence. Qed.

Lemma is_whitespace_change_sym a b :
  _is_whitespace_change a b = _is_whitespace_change b a.
Proof. rewrite !is_whitespace_change_eq. apply bool_decide_eq_sym. Qed.

Lemma is_entity_change_sym a b :
  _is_entity_change a b = _is_entity_change b a.
Proof.
  unfold _is_entity_change.
  rewrite (bool_decide_ne_sym (entity_set a)).
  case_bool_decide; [|done]. apply bool_decide_eq_sym.
Qed.

Lemma is_html_formatting_change_sym a b :
  _is_html_formatting_change a b = _is_html_formatting_change b a.
Proof.
  unfold _is_html_formatting_change.
  destruct (get_text a), (get_text b); try done.
  f_equal; [apply bool_decide_eq_sym | apply bool_decide_ne_sym].
Qed.

Lemma both_texts_swap a b :
  both_texts b a = ((both_texts a b).2, (both_texts a b).1).
Proof. unfold both_texts. by destruct (get_text a), (get_text b). Qed.

Lemma is_case_change_sym a b : _is_case_change a b = _is_case_change b a.
Proof.
  unfold _is_case_change. rewrite (both_texts_swap a b).
  destruct (both_texts a b) as [x y]. simpl.
  f_equal; [apply bool_decide_eq_sym | apply bool_decide_ne_sym].
Qed.

Lemma is_punctuation_change_sym a b :
  _is_punctuation_change a b = _is_punctuation_change b a.
Proof.
  unfold _is_punctuation_change. rewrite (both_texts_swap a b).
  destruct (both_texts a b) as [x y]. simpl.
  f_equal; [apply bool_decide_eq_sym | apply bool_decide_ne_sym].
Qed.

Lemma detect_cosmetic_changes_sym a b :
  _detect_cosmetic_changes a b = _detect_cosmetic_changes b a.
Proof.
  unfold _detect_cosmetic_changes.
  by rewrite (is_whitespace_change_sym a b), (is_entity_change_sym a b),
    (is_html_formatting_change_sym a b), (is_case_change_sym a b),
    (is_punctuation_change_sym a b).
Qed.

Lemma cosmetic_kind_cases k :
  k ∈ cosmetic_kinds →
  k ≠ CONTENT ∧ k ≠ MIXED_COSMETIC ∧ k ≠ "unknown"%string.
Proof.
  intros Hk. apply list_elem_of_In in Hk. simpl in Hk.
  destruct Hk as [<-|[<-|[<-|[<-|[<-|[]]]]]]; by split_and!.
Qed.

Lemma detect_cosmetic_changes_shape before after :
  _detect_cosmetic_changes before after ≠ [] ∧
  Forall (λ k, k ∈ cosmetic_kinds) (_detect_cosmetic_changes before after).
Proof.
  unfold _detect_cosmetic_changes, cosmetic_kinds.
  destruct (_is_whitespace_change before after);
    [|destruct (_is_entity_change before after),
        (_is_html_formatting_change before after),
        (_is_case_change before after),
        (_is_punctuation_change before after)];
    simpl; (split; [done|]); repeat constructor;
    apply list_elem_of_In; simpl; tauto.
Qed.

(** The result of [classify_field_change] in terms of the battery. *)
Lemma classify_field_change_cosmetic before after :
  before ≠ after →
  _normalize_for_comparison before = _normalize_for_comparison after →
  classify_field_change before after =
    (match _detect_cosmetic_changes before after with
     | [only] => only
     | _ => MIXED_COSMETIC
     end, _detect_cosmetic_changes before after).
Proof.
  intros Hne Hnorm. unfold classify_field_change.
  rewrite bool_decide_false, bool_decide_true by done.
  destruct (detect_cosmetic_changes_shape before after) as [Hnil _].
  by destruct (_detect_cosmetic_changes before after) as [|? [|? ?]].
Qed.

Lemma classify_field_change_content before after :
  _normalize_for_comparison before ≠ _normalize_for_comparison after →
  classify_field_change before after = (CONTENT, []).
Proof.
  intros Hnorm. unfold classify_field_change.
  case_bool_decide; [done|]. by rewrite bool_decide_false.
Qed.

(** The second component is empty exactly for the kind [content]. *)
Lemma classify_field_change_kinds before after :
  let '(kind, details) := classify_field_change before after in
  (kind = CONTENT ∧ details = []) ∨
  (kind ≠ CONTENT ∧ details = _detect_cosmetic_changes before after ∧
   before ≠ after ∧
   _normalize_for_comparison before = _normalize_for_comparison after).
Proof.
  destruct (decide (before = after)) as [->|Hne].
  { unfold classify_field_change. rewrite bool_decide_true by done. by left. }
  destruct (decide (_normalize_for_comparison before =
                    _normalize_for_comparison after)) as [Hn|Hn].
  - rewrite classify_field_change_cosmetic by done. right.
    destruct (detect_cosmetic_changes_shape before after) as [Hnil Hall].
    destruct (_detect_cosmetic_changes before after) as [|k [|k' ks]];
      [done| |done].
    split_and!; try done. apply Forall_cons in Hall as [Hk _].
    by apply cosmetic_kind_cases in Hk as (? & _).
  - rewrite classify_field_change_content by done. by left.
Qed.

(** C10: [classify_field_change] is symmetric: swapping the two texts
    gives the same kind and the same list of subkinds. *)
Theorem classify_field_change_symmetric (a b : text) :
  classify_field_change a b = classify_field_change b a.
Proof.
  unfold classify_field_change.
  rewrite (bool_decide_eq_sym a b). case_bool_decide; [done|].
  rewrite (bool_decide_eq_sym (_normalize_for_comparison a)).
  by rewrite (detect_cosmetic_changes_sym a b).
Qed.

(** C9: for texts that differ and have equal normalized forms, the
    detector battery returns a non-empty list of subkinds, which is
    [html_formatting] alone when neither the whitespace check nor any
    of the four detectors matches; [classify_field_change] then takes
    one of its first two branches, and never returns the fallback
    [(html_formatting, ["unknown"])]. *)
Theorem cosmetic_battery_never_empty (before after : text) :
  before ≠ after →
  _normalize_for_comparison before = _normalize_for_comparison after →
  (∃ k ks, _detect_cosmetic_changes before after = k :: ks ∧
           classify_field_change before after =
             (if bool_decide (ks = []) then k else MIXED_COSMETIC, k :: ks)) ∧
  (_is_whitespace_change before after = false →
   _is_entity_change before after = false →
   _is_html_formatting_change before after = false →
   _is_case_change before after = false →
   _is_punctuation_change before after = false →
   _detect_cosmetic_changes before after = [HTML_FORMATTING]) ∧
  ("unknown"%string ∉ (classify_field_change before after).2) ∧
  classify_field_change before after ≠ (HTML_FORMATTING, ["unknown"%string]).
Proof.
  intros Hne Hnorm.
  rewrite classify_field_change_cosmetic by done. simpl.
  destruct (detect_cosmetic_changes_shape before after) as [Hnil Hall].
  split_and!.
  - destruct (_detect_cosmetic_changes before after) as [|k [|k' ks]];
      [done| |]; eexists _, _; (split; [done|]); done.
  - unfold _detect_cosmetic_changes. by intros -> -> -> -> ->.
  - intros Hin. rewrite Forall_forall in Hall. apply Hall in Hin.
    by apply cosmetic_kind_cases in Hin as (_ & _ & ?).
  - intros [= _ Heq]. rewrite Heq in Hall.
    apply Forall_cons in Hall as [Hk _].
    by apply cosmetic_kind_cases in Hk as (_ & _ & ?).
Qed.
End classifier_facts.

Section classifier_runs.
Context `{Runtime}.
Import ChangeType.

Lemma same_up_to_whitespace_runs_without a b :
  same_up_to_whitespace_runs a b → without_whitespace a = without_whitespace b.
Proof.
  unfold same_up_to_whitespace_runs, without_whitespace.
  rewrite !sub_ws_nil_filter. by intros ->.
Qed.

(** C1, as amended: two different texts with equal normalized forms
    that are equal once every whitespace character and every
    whitespace entity is removed are classified
    [(whitespace, [whitespace])], whatever the other detectors would
    report. *)
Theorem whitespace_change_classified (a b : text) :
  a ≠ b →
  _normalize_for_comparison a = _normalize_for_comparison b →
  without_whitespace a = without_whitespace b →
  classify_field_change a b = (WHITESPACE, [WHITESPACE]).
Proof.
  intros Hne Hnorm Hws.
  rewrite classify_field_change_cosmetic by done.
  unfold _detect_cosmetic_changes.
  by rewrite is_whitespace_change_eq, bool_decide_true.
Qed.

(** Whitespace has no precedence over a difference that survives the
    removal: the kind is then never [whitespace]. *)
Lemma not_whitespace_when_stripped_differ (a b : text) :
  without_whitespace a ≠ without_whitespace b →
  WHITESPACE ∉ (classify_field_change a b).2.
Proof.
  intros Hws. pose proof (classify_field_change_kinds a b) as Hk.
  destruct (classify_field_change a b) as [kind details]. simpl.
  destruct Hk as [[_ ->]|(_ & -> & _)]; [apply not_elem_of_nil|].
  unfold _detect_cosmetic_changes.
  rewrite is_whitespace_change_eq, bool_decide_false by done.
  destruct (_is_entity_change a b), (_is_html_formatting_change a b),
    (_is_case_change a b), (_is_punctuation_change a b); simpl;
    intros Hin; apply list_elem_of_In in Hin; simpl in Hin;
    intuition discriminate.
Qed.

(** Removing the whitespace entities from a text none of them occurs
    in, in whatever order the set is iterated. *)
Lemma without_entities_id (t : text) :
  Forall (λ entity, str_replace entity [] t = t) WHITESPACE_ENTITIES →
  foldl (λ t entity, str_replace entity [] t) t whitespace_entities_iter = t.
Proof.
  rewrite <- whitespace_entities_iter_perm.
  induction 1 as [|e es He _ IH]; simpl; [done|]. by rewrite He.
Qed.

Lemma without_whitespace_id (t : text) :
  spaceless t →
  Forall (λ entity, str_replace entity [] t = t) WHITESPACE_ENTITIES →
  without_whitespace t = t.
Proof.
  intros Hs He. unfold without_whitespace.
  rewrite sub_ws_spaceless by done. by apply without_entities_id.
Qed.

Lemma normalize_plain (t u : text) :
  get_text t = Some u → unescape u = u → spaceless u →
  _normalize_for_comparison t = lower u.
Proof.
  intros Hg Hu Hs. unfold _normalize_for_comparison, text_or_raw.
  rewrite Hg. simpl. rewrite Hu, sub_ws_spaceless, strip_spaceless; done.
Qed.

Lemma spaceless_app_l (t u : text) : spaceless (t ++ u) → spaceless t.
Proof. unfold spaceless. rewrite Forall_app. tauto. Qed.
Lemma spaceless_app_r (t u : text) : spaceless (t ++ u) → spaceless u.
Proof. unfold spaceless. rewrite Forall_app. tauto. Qed.

(** C3, as amended: [classify_field_change("café", "caf&eacute;")]
    is [(mixed_cosmetic, ["entities", "html_formatting"])]: the parser
    gives both texts the same visible text, so that the HTML
    formatting detector matches along with the entity detector.  The
    hypotheses say what the libraries do on the two texts. *)
Theorem cafe_entity_change_is_mixed :
  spaceless (cafe ++ txt "caf&eacute;") →
  get_text cafe = Some cafe →
  get_text (txt "caf&eacute;") = Some cafe →
  unescape cafe = cafe →
  unescape (txt "caf&eacute;") = cafe →
  classify_field_change cafe (txt "caf&eacute;") =
    (MIXED_COSMETIC, [ENTITIES; HTML_FORMATTING]).
Proof.
  intros Hs Hg1 Hg2 Hu1 Hu2.
  pose proof (spaceless_app_l _ _ Hs) as Hs1.
  pose proof (spaceless_app_r _ _ Hs) as Hs2.
  assert (_normalize_for_comparison cafe = lower cafe) as Hn1
    by by apply normalize_plain.
  assert (_normalize_for_comparison (txt "caf&eacute;") = lower cafe) as Hn2
    by by apply normalize_plain.
  rewrite classify_field_change_cosmetic; [|by vm_compute|congruence].
  assert (_detect_cosmetic_changes cafe (txt "caf&eacute;") =
          [ENTITIES; HTML_FORMATTING]) as ->; [|done].
  unfold _detect_cosmetic_changes.
  assert (_is_whitespace_change cafe (txt "caf&eacute;") = false) as ->.
  { rewrite is_whitespace_change_eq.
    rewrite !without_whitespace_id;
      [by vm_compute | done | | done |];
      repeat constructor. }
  assert (_is_entity_change cafe (txt "caf&eacute;") = true) as ->.
  { unfold _is_entity_change.
    assert (bool_decide (entity_set cafe ≠ entity_set (txt "caf&eacute;"))
            = true) as -> by by vm_compute.
    rewrite Hu1, Hu2. by apply bool_decide_true. }
  assert (_is_html_formatting_change cafe (txt "caf&eacute;") = true) as ->.
  { unfold _is_html_formatting_change. rewrite Hg1, Hg2.
    rewrite bool_decide_true by done. by vm_compute. }
  assert (_is_case_change cafe (txt "caf&eacute;") = false) as ->.
  { unfold _is_case_change, both_texts. rewrite Hg1, Hg2.
    rewrite (bool_decide_false (_ ≠ _)) by (by intros []).
    apply andb_false_r. }
  assert (_is_punctuation_change cafe (txt "caf&eacute;") = false) as ->.
  { unfold _is_punctuation_change, both_texts. rewrite Hg1, Hg2.
    rewrite (bool_decide_false (cafe ≠ cafe)) by (by intros []).
    apply andb_false_r. }
  done.
Qed.

Lemma punctuation_free (t : text) :
  Forall (λ c, is_word c = true) t → re_sub punctuation_char t = t.
Proof.
  intros Hw. apply sub_from_unmatched. intros [|c s'] [k ->]; [done|].
  apply Forall_app in Hw as [_ Hw]. apply Forall_cons in Hw as [Hc _].
  unfold punctuation_char. by rewrite Hc.
Qed.

(** C4, on the code: [classify_field_change("hello", "Hello")] is
    [(mixed_cosmetic, ["case", "punctuation"])], not [(case, ["case"])]:
    the punctuation detector compares the texts without their
    punctuation ignoring case, and so matches every change of case.
    The hypotheses say what the libraries do on the two texts. *)
Theorem hello_case_change_is_mixed :
  spaceless (txt "helloHello") →
  Forall (λ c, is_word c = true) (txt "helloHello") →
  get_text (txt "hello") = Some (txt "hello") →
  get_text (txt "Hello") = Some (txt "Hello") →
  unescape (txt "hello") = txt "hello" →
  unescape (txt "Hello") = txt "Hello" →
  lower (txt "hello") = txt "hello" →
  lower (txt "Hello") = txt "hello" →
  classify_field_change (txt "hello") (txt "Hello") =
    (MIXED_COSMETIC, [CASE; PUNCTUATION]).
Proof.
  intros Hs Hw Hg1 Hg2 Hu1 Hu2 Hl1 Hl2.
  change (txt "helloHello") with (txt "hello" ++ txt "Hello") in Hs, Hw.
  pose proof (spaceless_app_l _ _ Hs) as Hs1.
  pose proof (spaceless_app_r _ _ Hs) as Hs2.
  apply Forall_app in Hw as [Hw1 Hw2].
  assert (_normalize_for_comparison (txt "hello") = txt "hello") as Hn1
    by by rewrite (normalize_plain _ _ Hg1).
  assert (_normalize_for_comparison (txt "Hello") = txt "hello") as Hn2
    by by rewrite (normalize_plain _ _ Hg2).
  rewrite classify_field_change_cosmetic; [|by vm_compute|congruence].
  assert (_detect_cosmetic_changes (txt "hello") (txt "Hello") =
          [CASE; PUNCTUATION]) as ->; [|done].
  unfold _detect_cosmetic_changes.
  assert (_is_whitespace_change (txt "hello") (txt "Hello") = false) as ->.
  { rewrite is_whitespace_change_eq.
    rewrite !without_whitespace_id;
      [by vm_compute | done | | done |];
      repeat constructor. }
  assert (_is_entity_change (txt "hello") (txt "Hello") = false) as ->.
  { unfold _is_entity_change.
    assert (bool_decide (entity_set (txt "hello") ≠ entity_set (txt "Hello"))
            = false) as -> by by vm_compute.
    done. }
  assert (_is_html_formatting_change (txt "hello") (txt "Hello") = false) as ->.
  { unfold _is_html_formatting_change. rewrite Hg1, Hg2.
    rewrite !sub_ws_spaceless, !strip_spaceless by done. by vm_compute. }
  assert (_is_case_change (txt "hello") (txt "Hello") = true) as ->.
  { unfold _is_case_change, both_texts. rewrite Hg1, Hg2.
    rewrite !sub_ws_spaceless, !strip_spaceless by done.
    rewrite Hl1, Hl2. by vm_compute. }
  assert (_is_punctuation_change (txt "hello") (txt "Hello") = true) as ->.
  { unfold _is_punctuation_change, both_texts. rewrite Hg1, Hg2.
    rewrite !punctuation_free by done.
    rewrite !sub_ws_spaceless, !strip_spaceless by done.
    rewrite Hl1, Hl2. by vm_compute. }
  done.
Qed.
End classifier_runs.

Section note_facts.
Context `{Runtime}.
Import ChangeType.

Implicit Types before after : list text.

(** The state of the loop of [classify_note_change] after the
    indices below [n]. *)
Lemma note_loop_invariant before after (n : nat) :
  let st := foldl (note_step before after) note_init (seq 0 n) in
  let D := filter (λ i, field_at before i ≠ field_at after i) (seq 0 n) in
  field_changes st = (λ i, (i, field_class before after i)) <$> D ∧
  (has_content_change st = true ↔
     ∃ i, i ∈ D ∧ (field_class before after i).1 = CONTENT) ∧
  (∀ k, k ∈ cosmetic_types st ↔
     ∃ i, i ∈ D ∧ (field_class before after i).1 ≠ CONTENT ∧
          k ∈ (field_class before after i).2).
Proof.
  cbv zeta. induction n as [|n (IHfc & IHc & IHt)].
  { simpl. split_and!; [done|split; [done|]|intros k; split].
    - by intros (i & Hi & _); apply elem_of_nil in Hi.
    - set_solver.
    - by intros (i & Hi & _); apply elem_of_nil in Hi. }
  rewrite seq_S, foldl_snoc, filter_app. simpl.
  set (st := foldl (note_step before after) note_init (seq 0 n)) in *.
  set (D := filter (λ i, field_at before i ≠ field_at after i) (seq 0 n)) in *.
  unfold note_step at 1 2 3.
  destruct (decide (field_at before n ≠ field_at after n)) as [Hd|Hd].
  - rewrite bool_decide_true, filter_cons_True by done.
    rewrite filter_nil, fmap_app. simpl.
    assert (field_class before after n =
            classify_field_change (field_at before n) (field_at after n))
      as Hfc by done.
    destruct (classify_field_change (field_at before n) (field_at after n))
      as [kind details].
    destruct (decide (kind = CONTENT)) as [->|Hk].
    + rewrite bool_decide_true by done. simpl. split_and!.
      * by rewrite IHfc, Hfc.
      * split; [intros _|done]. exists n. rewrite Hfc.
        split; [|done]. apply elem_of_app. right. apply list_elem_of_singleton.
        done.
      * intros k. rewrite IHt. split.
        -- intros (i & Hi & Hc & Hk). exists i. split_and!; try done.
           apply elem_of_app. by left.
        -- intros (i & Hi & Hc & Hk). apply elem_of_app in Hi as [Hi|Hi].
           ++ by exists i.
           ++ apply list_elem_of_singleton in Hi as ->. by rewrite Hfc in Hc.
    + rewrite bool_decide_false by done. simpl. split_and!.
      * by rewrite IHfc, Hfc.
      * rewrite IHc. split.
        -- intros (i & Hi & Hc). exists i. split; [|done].
           apply elem_of_app. by left.
        -- intros (i & Hi & Hc). apply elem_of_app in Hi as [Hi|Hi].
           ++ by exists i.
           ++ apply list_elem_of_singleton in Hi as ->. by rewrite Hfc in Hc.
      * intros k. rewrite elem_of_union, IHt, elem_of_list_to_set. split.
        -- intros [(i & Hi & Hc & Hk')|Hk'].
           ++ exists i. split_and!; try done. apply elem_of_app. by left.
           ++ exists n. rewrite Hfc. split_and!; try done.
              apply elem_of_app. right. by apply list_elem_of_singleton.
        -- intros (i & Hi & Hc & Hk'). apply elem_of_app in Hi as [Hi|Hi].
           ++ left. by exists i.
           ++ apply list_elem_of_singleton in Hi as ->. right.
              by rewrite Hfc in Hk'.
  - rewrite bool_decide_false, filter_cons_False by done.
    rewrite filter_nil, app_nil_r. done.
Qed.

(** C2: [classify_note_change] classifies the positions below
    [max(len(before_fields), len(after_fields))] at which the two
    lists differ, a missing position counting as the empty string.  If
    one of them is classified [content], the overall kind is
    [content].  Otherwise the set of cosmetic types is the union of
    the subkinds of these positions, and the overall kind is its
    element when it has exactly one, [mixed_cosmetic] when it has
    more (it is not empty when some position differs); when no position
    differs the kind is [content] and both parts of the detail are
    empty. *)
Theorem classify_note_change_spec before after :
  let D := differing before after in
  let res := classify_note_change before after in
  res.2.1 = (λ i, (i, field_class before after i)) <$> D ∧
  ((∃ i, i ∈ D ∧ (field_class before after i).1 = CONTENT) →
     res.1 = CONTENT) ∧
  ((∀ i, i ∈ D → (field_class before after i).1 ≠ CONTENT) →
     (∀ k, k ∈ res.2.2 ↔ ∃ i, i ∈ D ∧ k ∈ (field_class before after i).2) ∧
     (D ≠ [] → res.2.2 ≠ ∅) ∧
     (size res.2.2 = 1%nat → res.2.2 = {[ res.1 ]}) ∧
     ((1 < size res.2.2)%nat → res.1 = MIXED_COSMETIC)) ∧
  (D = [] → res = (CONTENT, ([], ∅))).
Proof.
  intros D res. subst D res. unfold differing, classify_note_change, note_loop.
  destruct (note_loop_invariant before after
              (length before `max` length after)) as (Hfc & Hc & Ht).
  set (st := foldl _ _ _) in *. set (D := filter _ _) in *. simpl.
  split_and!.
  - done.
  - intros Hex. apply Hc in Hex. by rewrite Hex.
  - intros Hall.
    assert (has_content_change st = false) as ->.
    { destruct (has_content_change st); [|done].
      destruct Hc as [Hc _]. destruct (Hc eq_refl) as (i & Hi & Hk).
      by apply Hall in Hi. }
    split_and!.
    + intros k. rewrite Ht. split.
      * intros (i & Hi & _ & Hk). by exists i.
      * intros (i & Hi & Hk). exists i. split_and!; auto.
    + intros HD. destruct D as [|i D'] eqn:HDeq; [done|].
      assert (i ∈ i :: D') as Hi by apply list_elem_of_here.
      pose proof (Hall i Hi) as Hkind.
      pose proof (classify_field_change_kinds
                    (field_at before i) (field_at after i)) as Hk.
      unfold field_class in Hkind, Ht.
      destruct (classify_field_change (field_at before i) (field_at after i))
        as [kind details] eqn:Hcls.
      destruct Hk as [[-> _]|(_ & -> & _)]; [done|].
      destruct (detect_cosmetic_changes_shape
                  (field_at before i) (field_at after i)) as [Hnil _].
      destruct (_detect_cosmetic_changes (field_at before i) (field_at after i))
        as [|k ks] eqn:Hdet; [done|].
      intros Hempty. apply (not_elem_of_empty (C:=gset string) k).
      rewrite <- Hempty. apply Ht. exists i. rewrite Hcls. simpl.
      split_and!; [done|done|apply list_elem_of_here].
    + intros Hsize. apply size_1_elem_of in Hsize as [k Hk].
      apply leibniz_equiv in Hk. rewrite Hk, elements_singleton. done.
    + unfold size, set_size. simpl.
      destruct (elements (cosmetic_types st)) as [|? [|? ?]]; simpl;
        [lia|lia|done].
  - intros HD.
    assert (has_content_change st = false) as Hcf.
    { destruct (has_content_change st); [|done].
      destruct Hc as [Hc _]. destruct (Hc eq_refl) as (i & Hi & _).
      rewrite HD in Hi. by apply elem_of_nil in Hi. }
    assert (cosmetic_types st = ∅) as Hte.
    { apply set_eq. intros k. rewrite Ht, HD. split.
      - intros (i & Hi & _). by apply elem_of_nil in Hi.
      - set_solver. }
    rewrite Hcf, Hte, elements_empty, Hfc, HD. done.
Qed.
End note_facts.

(** * The template engine *)

Section engine_facts.
Context `{Runtime}.

Lemma returns_Ok {A} (a : A) : returns (Ok a).
Proof. by exists a. Qed.

Lemma not_returns_Raise {A} (e : exn) : ¬ returns (@Raise A e).
Proof. by intros [a Ha]. Qed.

(** A replacement without backslash is taken literally. *)
Lemma parse_template_backslash_free (repl : text) :
  backslash_free repl → parse_template repl = Ok (Lit <$> repl).
Proof.
  unfold parse_template.
  induction 1 as [|c s Hc _ IH]; simpl; [done|].
  apply N.eqb_neq in Hc. rewrite Hc, IH. done.
Qed.

Lemma expand_literal (whole s : text) : expand whole (Lit <$> s) = s.
Proof.
  unfold expand. induction s as [|c s IH]; simpl; [done|].
  f_equal. exact IH.
Qed.

(** The only exception of the template parser is [re.error]. *)
Lemma escape_raises c r e : escape c r = Raise e → e = re_error.
Proof.
  unfold escape. intros He.
  repeat (case_match; simplify_eq/=; try done).
Qed.

Lemma parse_from_raises k s e : parse_from k s = Raise e → e = re_error.
Proof.
  revert k. induction s as [|c s IH]; intros [|k]; simpl; try done.
  - destruct (c =? ch "\").
    + destruct s as [|x r]; [by intros [= <-]|].
      destruct (escape x r) as [[ps n]|e'] eqn:He; simpl.
      * destruct (parse_from n r) eqn:Hp; simpl; intros Heq; simplify_eq.
        by apply (IH (S n)).
      * intros [= <-]. by eapply escape_raises.
    + destruct (parse_from 0 s) eqn:Hp; simpl; intros Heq; simplify_eq.
      by eapply IH.
  - apply IH.
Qed.

Lemma substitute_fields_returns template (items : dict text) :
  Forall (λ item, returns (parse_template item.2)) items →
  returns (substitute_fields template items).
Proof.
  revert template.
  induction items as [|[name value] items IH]; intros template Hall; simpl.
  { apply returns_Ok. }
  apply Forall_cons in Hall as [[ps Hps] Hall]. simpl in Hps.
  rewrite Hps. simpl. by apply IH.
Qed.

Lemma substitute_fields_raises template (items : dict text) name value :
  (name, value) ∈ items → ¬ returns (parse_template value) →
  substitute_fields template items = Raise re_error.
Proof.
  intros Hin Hval. revert template.
  induction items as [|[name' value'] items IH]; intros template.
  { by apply elem_of_nil in Hin. }
  simpl. destruct (parse_template value') as [ps|e] eqn:Hps; simpl.
  - apply IH. apply elem_of_cons in Hin as [[= -> ->]|Hin]; [|done].
    exfalso. apply Hval. rewrite Hps. apply returns_Ok.
  - apply parse_from_raises in Hps as ->. done.
Qed.

(** [render] returns exactly when every field value is a well-formed
    replacement template. *)
Lemma render_returns template fields tags is_answer front_side_html :
  Forall (λ item, returns (parse_template item.2)) fields →
  returns (render template fields tags is_answer front_side_html).
Proof.
  intros Hall. unfold render, _render_fields.
  match goal with
  | |- context [substitute_fields ?t fields] =>
      destruct (substitute_fields_returns t fields Hall) as [t' ->]
  end.
  apply returns_Ok.
Qed.

(** C5, on the code: [render] is not total.  A field value is used as
    the replacement template of [re.sub], so that [render] raises
    [re.error], for every template, tag list and side, as soon as one
    field value is not a well-formed replacement template; a value
    that is a single backslash is one. *)
Theorem render_raises_on_malformed_value
    template fields tags is_answer front_side_html name value :
  (name, value) ∈ fields →
  ¬ returns (parse_template value) →
  parse_template (txt "\") = Raise re_error ∧
  render template fields tags is_answer front_side_html = Raise re_error.
Proof.
  intros Hin Hval. split; [done|].
  unfold render, _render_fields.
  by erewrite substitute_fields_raises.
Qed.
End engine_facts.

(** * The renderers *)

Section renderer_facts.
Context `{Runtime}.

Lemma list_index_in_range {A} (l : list A) (i : Z) :
  (- Z.of_nat (length l) ≤ i < Z.of_nat (length l))%Z →
  ∃ x, list_index l i = Ok x ∧ x ∈ l.
Proof.
  intros Hi. unfold list_index.
  set (j := if (i <? 0)%Z then (i + Z.of_nat (length l))%Z else i).
  assert (0 ≤ j < Z.of_nat (length l))%Z as Hj.
  { subst j. destruct (Z.ltb_spec i 0); lia. }
  destruct (Z.ltb_spec j 0) as [?|_]; [lia|].
  destruct (lookup_lt_is_Some_2 l (Z.to_nat j)) as [x Hx]; [lia|].
  rewrite Hx. exists x. split; [done|]. by eapply list_elem_of_lookup_2.
Qed.

Lemma clamp_template_idx_range (m : NoteModel.t) (idx : Z) :
  NoteModel.tmpls m ≠ [] →
  (- Z.of_nat (length (NoteModel.tmpls m)) ≤ idx)%Z →
  (- Z.of_nat (length (NoteModel.tmpls m)) ≤ clamp_template_idx m idx
     < Z.of_nat (length (NoteModel.tmpls m)))%Z.
Proof.
  intros Hne Hidx. unfold clamp_template_idx.
  destruct (NoteModel.tmpls m) as [|t ts]; [done|]. simpl length in *.
  destruct (Z.leb_spec (Z.of_nat (S (length ts))) idx); lia.
Qed.

Lemma dict_set_Forall {V} (P : text * V → Prop) (d : dict V) k v :
  Forall P d → P (k, v) → Forall P (dict_set d k v).
Proof.
  intros Hd Hkv. induction Hd as [|[k' v'] d Hx Hd IH]; simpl.
  - by repeat constructor.
  - case_bool_decide; by constructor.
Qed.

Lemma dict_get_Forall {V} (P : V → Prop) (d : dict V) k dflt :
  Forall (λ item, P item.2) d → P dflt → P (dict_get d k dflt).
Proof.
  intros Hd Hdflt. induction Hd as [|[k' v'] d Hx Hd IH]; simpl; [done|].
  by case_bool_decide.
Qed.

(** With non-negative ordinals the field map is built, and its values
    are field values of the note or empty. *)
Lemma build_field_map_from_returns (P : text → Prop) acc note flds :
  Forall (λ f, (0 ≤ FieldModel.ord f)%Z) flds →
  P [] → Forall P (Note.fields note) → Forall (λ item, P item.2) acc →
  ∃ fields, build_field_map_from acc note flds = Ok fields ∧
            Forall (λ item, P item.2) fields.
Proof.
  intros Hord Hnil Hfields. revert acc.
  induction Hord as [|f flds Hf _ IH]; intros acc Hacc; simpl.
  { by exists acc. }
  destruct (Z.ltb_spec (FieldModel.ord f)
              (Z.of_nat (length (Note.fields note)))) as [Hlt|Hge].
  - destruct (list_index_in_range (Note.fields note) (FieldModel.ord f))
      as (v & -> & Hv); [lia|]. simpl.
    apply IH. apply dict_set_Forall; [done|]. simpl.
    rewrite Forall_forall in Hfields. by apply Hfields.
  - simpl. apply IH. by apply dict_set_Forall.
Qed.

Lemma finditer_from_elem {A} (m : text → option (A * nat)) k s x :
  x ∈ finditer_from m k s →
  ∃ s' n, s' `suffix_of` s ∧ m s' = Some (x, n).
Proof.
  revert k. induction s as [|c s IH]; intros k Hx; simpl in Hx.
  { by apply elem_of_nil in Hx. }
  destruct k as [|k].
  - destruct (m (c :: s)) as [[a n]|] eqn:Hm.
    + apply elem_of_cons in Hx as [->|Hx]; [by exists (c :: s), n|].
      destruct (IH _ Hx) as (s' & n' & Hs' & Hm').
      exists s', n'. split; [by apply suffix_cons_r|done].
    + destruct (IH _ Hx) as (s' & n' & Hs' & Hm').
      exists s', n'. split; [by apply suffix_cons_r|done].
  - destruct (IH _ Hx) as (s' & n' & Hs' & Hm').
    exists s', n'. split; [by apply suffix_cons_r|done].
Qed.

Lemma occlusion_shape_num s num ty ps n :
  occlusion_shape s = Some ((num, ty, ps), n) → (length num ≤ length s)%nat.
Proof.
  unfold occlusion_shape. intros Hs.
  pose proof (span_length is_digit (drop 3 s)) as Hlen.
  rewrite length_drop in Hlen.
  destruct (starts_with _ s); [|done].
  destruct (span is_digit (drop 3 s)) as [[|d ds] after]; [done|].
  assert (length (d :: ds) ≤ length s)%nat as Hnum by (simpl in *; lia).
  repeat (case_match; try done). by simplify_eq.
Qed.

Lemma shapes_of_matches_returns (ms : list (text * text * text)) :
  Forall (λ m, is_Some (py_int m.1.1)) ms → returns (shapes_of_matches ms).
Proof.
  induction 1 as [|[[num ty] ps] ms [z Hz] _ [shapes IH]]; simpl.
  { apply returns_Ok. }
  simpl in Hz. rewrite Hz. simpl. rewrite IH. apply returns_Ok.
Qed.

Lemma parse_occlusion_shapes_returns (limit : nat) (occlusion_field : text) :
  (∀ ds, (length ds ≤ limit)%nat → is_Some (py_int ds)) →
  (length occlusion_field ≤ limit)%nat →
  returns (_parse_occlusion_shapes occlusion_field).
Proof.
  intros Hint Hlen. apply shapes_of_matches_returns.
  apply Forall_forall. intros [[num ty] ps] Hm.
  apply finditer_from_elem in Hm as (s' & n & Hs' & Hm).
  apply occlusion_shape_num in Hm. apply Hint. simpl.
  apply suffix_length in Hs'. lia.
Qed.

(** *** Selection *)

Lemma first_able_spec (rs : list renderer) (m : NoteModel.t) (r : renderer) :
  first_able rs m = Some r →
  ∃ earlier later,
    rs = earlier ++ r :: later ∧
    Forall (λ r', can_render r' m = false) earlier ∧
    can_render r m = true.
Proof.
  induction rs as [|r' rs IH]; simpl; [done|].
  destruct (can_render r' m) eqn:Hr'.
  - intros [= ->]. by exists [], rs.
  - intros Hr. destruct (IH Hr) as (earlier & later & -> & Hall & Hcan).
    exists (r' :: earlier), later. split_and!; try done. by constructor.
Qed.

(** The renderers are tried in the order of the list and the first
    able one is selected; one of them is always able. *)
Lemma select_renderer_first_match (m : NoteModel.t) :
  ∃ earlier later,
    renderers = earlier ++ _select_renderer m :: later ∧
    Forall (λ r', can_render r' m = false) earlier ∧
    can_render (_select_renderer m) m = true.
Proof.
  unfold _select_renderer.
  destruct (first_able renderers m) as [r|] eqn:Hr.
  - by apply first_able_spec.
  - exfalso. unfold renderers in Hr. simpl in Hr.
    destruct (NoteModel.type m); simpl in Hr;
      repeat (case_match; simplify_eq/=).
Qed.

(** C6: the four renderers are tried in the order image-occlusion,
    cloze, multi-field, basic, and the first whose predicate holds is
    selected.  A model named "Image Occlusion Enhanced" is served by
    the image-occlusion renderer whatever its type and its number of
    fields, so also with type Basic and two fields.  The hypothesis
    says what [str.lower] does on that name. *)
Theorem renderer_dispatch_priority (m : NoteModel.t) :
  lower (txt "Image Occlusion Enhanced") = txt "image occlusion enhanced" →
  renderers =
    [ImageOcclusionRenderer; ClozeRenderer; MultiFieldRenderer; BasicRenderer] ∧
  (∃ earlier later,
     renderers = earlier ++ _select_renderer m :: later ∧
     Forall (λ r', can_render r' m = false) earlier ∧
     can_render (_select_renderer m) m = true) ∧
  (NoteModel.name m = txt "Image Occlusion Enhanced" →
   _select_renderer m = ImageOcclusionRenderer).
Proof.
  intros Hlower. split_and!; [done|apply select_renderer_first_match|].
  intros Hname. unfold _select_renderer, renderers. simpl.
  rewrite Hname, Hlower. by vm_compute.
Qed.

(** C8: on the same note, model and template index, the multi-field
    renderer raises when the basic renderer raises, and otherwise
    returns the dictionary of the basic renderer with the two keys
    [template_index], the index of the selected template, and
    [total_templates], the number of templates of the model, added:
    front, back, css and template name are the same. *)
Theorem multi_field_extends_basic (note : Note.t) (m : NoteModel.t) (idx : Z) :
  match render_card BasicRenderer note m idx with
  | Ok basic =>
      ∃ multi,
        render_card MultiFieldRenderer note m idx = Ok multi ∧
        multi = <["total_templates" :=
                    VInt (Z.of_nat (length (NoteModel.tmpls m)))]>
                  (<["template_index" := VInt (clamp_template_idx m idx)]> basic) ∧
        multi !! "front" = basic !! "front" ∧
        multi !! "back" = basic !! "back" ∧
        multi !! "css" = basic !! "css" ∧
        multi !! "template_name" = basic !! "template_name" ∧
        basic !! "template_index" = None ∧
        basic !! "total_templates" = None
  | Raise e => render_card MultiFieldRenderer note m idx = Raise e
  end.
Proof.
  unfold render_card.
  destruct (list_index _ _) as [template|e]; simpl; [|done].
  destruct (_build_field_map note m) as [fields|e]; simpl; [|done].
  destruct (render_sides template fields note) as [[front back]|e]; simpl;
    [|done].
  eexists. split; [done|]. by split_and!.
Qed.
Lemma backslash_free_returns (fields : dict text) :
  Forall (λ item, backslash_free item.2) fields →
  Forall (λ item, returns (parse_template item.2)) fields.
Proof.
  intros Hall. eapply Forall_impl; [exact Hall|].
  intros [name value] Hv. simpl in *.
  rewrite parse_template_backslash_free by done. apply returns_Ok.
Qed.

(** C7, as amended: for a model with at least one template, field
    ordinals that are not negative and a note whose field values have
    no backslash, [render_card] returns a dictionary with the front
    HTML, the back HTML and the shared CSS of the model; the basic
    and the multi-field renderers add the name of the selected
    template, the cloze and the image-occlusion renderers have no key
    [template_name].  (For the image-occlusion renderer the field
    values are also short enough for [int] to convert any run of
    digits in them.) *)
Theorem render_card_record (r : renderer) (note : Note.t) (m : NoteModel.t)
    (idx : Z) (limit : nat) :
  NoteModel.tmpls m ≠ [] →
  (- Z.of_nat (length (NoteModel.tmpls m)) ≤ idx)%Z →
  Forall (λ f, (0 ≤ FieldModel.ord f)%Z) (NoteModel.flds m) →
  Forall backslash_free (Note.fields note) →
  (r = ImageOcclusionRenderer →
     (∀ ds, (length ds ≤ limit)%nat → is_Some (py_int ds)) ∧
     Forall (λ f, (length f ≤ limit)%nat) (Note.fields note)) →
  ∃ template fields front back d,
    list_index (NoteModel.tmpls m) (clamp_template_idx m idx) = Ok template ∧
    _build_field_map note m = Ok fields ∧
    render (Template.qfmt template) fields (Some (Note.tags note)) false []
      = Ok front ∧
    render (Template.afmt template) fields (Some (Note.tags note)) true front
      = Ok back ∧
    render_card r note m idx = Ok d ∧
    d !! "css" = Some (VStr (NoteModel.css m)) ∧
    match r with
    | BasicRenderer | MultiFieldRenderer =>
        d !! "front" = Some (VStr front) ∧
        d !! "back" = Some (VStr back) ∧
        d !! "template_name" = Some (VStr (Template.name template))
    | ClozeRenderer =>
        d !! "front" = Some (VStr front) ∧
        d !! "back" = Some (VStr back) ∧
        d !! "template_name" = None
    | ImageOcclusionRenderer =>
        ∃ shapes,
          _parse_occlusion_shapes (dict_get fields (txt "Occlusion") [])
            = Ok shapes ∧
          d !! "front" = Some (VStr (_inject_io_script front shapes false)) ∧
          d !! "back" = Some (VStr (_inject_io_script back shapes true)) ∧
          d !! "template_name" = None
    end.
Proof.
  intros Htmpls Hidx Hord Hfree Hio.
  destruct (list_index_in_range (NoteModel.tmpls m) (clamp_template_idx m idx))
    as (template & Htemplate & _); [by apply clamp_template_idx_range|].
  destruct (build_field_map_from_returns backslash_free [] note
              (NoteModel.flds m)) as (fields & Hfields & Hvalues);
    [done|constructor|done|constructor|].
  apply backslash_free_returns in Hvalues.
  destruct (render_returns (Template.qfmt template) fields
              (Some (Note.tags note)) false [] Hvalues) as [front Hfront].
  destruct (render_returns (Template.afmt template) fields
              (Some (Note.tags note)) true front Hvalues) as [back Hback].
  exists template, fields, front, back.
  unfold render_card. rewrite Htemplate. simpl.
  fold (_build_field_map note m) in Hfields. rewrite Hfields. simpl.
  unfold render_sides.
  destruct r.
  - destruct Hio as [Hint Hlen]; [done|].
    destruct (build_field_map_from_returns (λ f, (length f ≤ limit)%nat) []
                note (NoteModel.flds m)) as (fields' & Hfields' & Hshort);
      [done|simpl; lia|done|constructor|].
    fold (_build_field_map note m) in Hfields'.
    rewrite Hfields in Hfields'. injection Hfields' as <-.
    destruct (parse_occlusion_shapes_returns limit
                (dict_get fields (txt "Occlusion") []) Hint) as [shapes Hshapes].
    { apply dict_get_Forall; [done|simpl; lia]. }
    rewrite Hshapes, Hfront. simpl. rewrite Hback. simpl.
    eexists. split_and!; try done. by exists shapes.
  - rewrite Hfront. simpl. rewrite Hback. simpl.
    eexists. by split_and!.
  - rewrite Hfront. simpl. rewrite Hback. simpl.
    eexists. by split_and!.
  - rewrite Hfront. simpl. rewrite Hback. simpl.
    eexists. by split_and!.
Qed.
End renderer_facts.

(** * Runs on the reference instance *)

Section runs.
Import ChangeType.

(** C1, as stated, fails: a space inserted between two letters is a
    whitespace run, and the result is [content]. *)
Lemma whitespace_claim_counterexample :
  ¬ (∀ a b : text,
       a ≠ b → same_up_to_whitespace_runs a b →
       classify_field_change a b = (WHITESPACE, [WHITESPACE])).
Proof.
  intros Hclaim.
  specialize (Hclaim (txt "ab") (txt "a b")).
  assert (classify_field_change (txt "ab") (txt "a b") = (CONTENT, []))
    as Hrun by by vm_compute.
  rewrite Hrun in Hclaim.
  discriminate Hclaim; by vm_compute.
Qed.

(** The same with a change of case next to the whitespace: the
    whitespace check fails and two other subkinds are reported. *)
Example whitespace_and_case_run :
  classify_field_change (txt "Hello World") (txt "hello  World") =
    (MIXED_COSMETIC, [CASE; PUNCTUATION]).
Proof. by vm_compute. Qed.

Lemma whitespace_change_classified_witness :
  txt "Hello World" ≠ txt "Hello  World" ∧
  _normalize_for_comparison (txt "Hello World") =
    _normalize_for_comparison (txt "Hello  World") ∧
  without_whitespace (txt "Hello World") =
    without_whitespace (txt "Hello  World") ∧
  classify_field_change (txt "Hello World") (txt "Hello  World") =
    (WHITESPACE, [WHITESPACE]).
Proof.
  split_and!; [by vm_compute|by vm_compute|by vm_compute|].
  apply (whitespace_change_classified (txt "Hello World") (txt "Hello  World"));
    by vm_compute.
Defined.

Lemma cosmetic_battery_never_empty_witness :
  "unknown"%string ∉
    (classify_field_change (txt "<b>Hi</b>") (txt "Hi")).2.
Proof.
  apply (cosmetic_battery_never_empty (txt "<b>Hi</b>") (txt "Hi"));
    by vm_compute.
Defined.

(** C3, as stated, fails. *)
Lemma cafe_entity_claim_counterexample :
  classify_field_change cafe (txt "caf&eacute;") ≠ (ENTITIES, [ENTITIES]).
Proof. by vm_compute. Qed.

Lemma cafe_entity_change_is_mixed_witness :
  classify_field_change cafe (txt "caf&eacute;") =
    (MIXED_COSMETIC, [ENTITIES; HTML_FORMATTING]).
Proof.
  apply cafe_entity_change_is_mixed; try by vm_compute.
  repeat constructor.
Defined.

Lemma hello_case_change_is_mixed_witness :
  classify_field_change (txt "hello") (txt "Hello") =
    (MIXED_COSMETIC, [CASE; PUNCTUATION]).
Proof.
  apply hello_case_change_is_mixed; try by vm_compute.
  - repeat constructor.
  - repeat constructor.
Defined.

Lemma render_raises_on_malformed_value_witness :
  render (txt "{{Front}}") [(txt "Front", txt "\")] None false [] =
    Raise re_error.
Proof.
  apply (render_raises_on_malformed_value
           (txt "{{Front}}") [(txt "Front", txt "\")] None false []
           (txt "Front") (txt "\")).
  - apply list_elem_of_here.
  - intros [ps Hps]. discriminate Hps.
Defined.

Lemma renderer_dispatch_priority_witness :
  NoteModel.type occlusion_model = BASIC ∧
  length (NoteModel.flds occlusion_model) = 2%nat ∧
  _select_renderer occlusion_model = ImageOcclusionRenderer.
Proof.
  split_and!; [done|done|].
  apply (renderer_dispatch_priority occlusion_model); by vm_compute.
Defined.

(** C7, as stated, fails: the dictionary of the cloze renderer has no
    template name. *)
Lemma cloze_record_counterexample :
  ∃ d, render_card ClozeRenderer cloze_note cloze_model 0 = Ok d ∧
       d !! "template_name" = None.
Proof. eexists. split; by vm_compute. Qed.

(** The same for the image-occlusion renderer. *)
Example occlusion_record_run :
  ∃ d, render_card ImageOcclusionRenderer occlusion_note occlusion_model 0 = Ok d ∧
       d !! "template_name" = None.
Proof. eexists. split; by vm_compute. Qed.

Lemma render_card_record_witness :
  ∃ d, render_card ImageOcclusionRenderer occlusion_note occlusion_model 0 = Ok d ∧
       d !! "css" = Some (VStr (txt ".card {}")).
Proof.
  destruct (render_card_record ImageOcclusionRenderer occlusion_note
              occlusion_model 0 4300)
    as (template & fields & front & back & d & _ & _ & _ & _ & Hd & Hcss & _).
  - by vm_compute.
  - by vm_compute.
  - repeat constructor; by vm_compute.
  - repeat constructor; by vm_compute.
  - intros _. split; [intros ds _; by eexists|].
    repeat constructor; vm_compute; lia.
  - by exists d.
Defined.

(** With an empty list of templates every renderer raises. *)
Example render_card_no_template :
  render_card BasicRenderer cloze_note
    {| NoteModel.name := txt "Empty"; NoteModel.type := BASIC;
       NoteModel.flds := []; NoteModel.tmpls := []; NoteModel.css := [] |} 0
  = Raise IndexError.
Proof. by vm_compute. Qed.
End runs.

(** * Further properties of the classifier *)

Section classifier_more.
Context `{Runtime}.
Import ChangeType.

Lemma detect_cosmetic_changes_NoDup before after :
  NoDup (_detect_cosmetic_changes before after) ∧
  (WHITESPACE ∈ _detect_cosmetic_changes before after →
   _detect_cosmetic_changes before after = [WHITESPACE]).
Proof.
  unfold _detect_cosmetic_changes.
  destruct (_is_whitespace_change before after);
    [|destruct (_is_entity_change before after),
        (_is_html_formatting_change before after),
        (_is_case_change before after),
        (_is_punctuation_change before after)];
    simpl; (split; [by apply (bool_decide_unpack _); vm_compute|]);
    try done;
    intros Hin; apply list_elem_of_In in Hin; simpl in Hin;
    intuition discriminate.
Qed.

Lemma content_result_shape :
  NoDup (@nil string) ∧
  Forall (λ k, k ∈ cosmetic_kinds) (@nil string) ∧
  (CONTENT = CONTENT ↔ @nil string = []) ∧
  (CONTENT = MIXED_COSMETIC ↔ (2 ≤ length (@nil string))%nat) ∧
  (length (@nil string) = 1%nat ↔ [] = [CONTENT]) ∧
  (WHITESPACE ∈ @nil string → [] = [WHITESPACE]).
Proof.
  split_and!.
  - constructor.
  - constructor.
  - done.
  - split; [discriminate|simpl; lia].
  - split; discriminate.
  - intros Hin. by apply elem_of_nil in Hin.
Qed.

(** The kind and the subkinds are names the classifier knows. *)
Lemma classify_field_change_range (before after : text) :
  let '(kind, details) := classify_field_change before after in
  Forall (λ k, k ∈ cosmetic_kinds) details ∧
  (kind = CONTENT ∨ kind = MIXED_COSMETIC ∨ kind ∈ cosmetic_kinds).
Proof.
  destruct (decide (before = after)) as [Heq|Hne].
  { unfold classify_field_change. rewrite bool_decide_true by done.
    split; [constructor|by left]. }
  destruct (decide (_normalize_for_comparison before =
                    _normalize_for_comparison after)) as [Hn|Hn].
  2:{ rewrite classify_field_change_content by done.
      split; [constructor|by left]. }
  rewrite classify_field_change_cosmetic by done.
  destruct (detect_cosmetic_changes_shape before after) as [Hnil Hall].
  split; [done|].
  destruct (_detect_cosmetic_changes before after) as [|k [|k' ks]];
    [done| |by right; left].
  right; right. by apply Forall_cons in Hall as [? _].
Qed.

(** X1: The two components of the result of [classify_field_change]
    determine each other: the subkinds are distinct kinds of the
    battery, there is none exactly for
    the kind [content], one exactly when it is the kind, two or more
    exactly for [mixed_cosmetic], and [whitespace] is never reported
    together with another subkind. *)
Theorem classify_field_change_result_shape (before after : text) :
  let '(kind, details) := classify_field_change before after in
  NoDup details ∧
  Forall (λ k, k ∈ cosmetic_kinds) details ∧
  (kind = CONTENT ↔ details = []) ∧
  (kind = MIXED_COSMETIC ↔ (2 ≤ length details)%nat) ∧
  (length details = 1%nat ↔ details = [kind]) ∧
  (WHITESPACE ∈ details → details = [WHITESPACE]).
Proof.
  pose proof (classify_field_change_kinds before after) as Hk.
  destruct (decide (before = after)) as [Heq|Hne].
  { unfold classify_field_change. rewrite bool_decide_true by done.
    apply content_result_shape. }
  destruct (decide (_normalize_for_comparison before =
                    _normalize_for_comparison after)) as [Hn|Hn].
  2:{ rewrite classify_field_change_content by done.
      apply content_result_shape. }
  rewrite classify_field_change_cosmetic by done.
  destruct (detect_cosmetic_changes_shape before after) as [Hnil Hall].
  destruct (detect_cosmetic_changes_NoDup before after) as [Hnd Hws].
  destruct (_detect_cosmetic_changes before after) as [|k [|k' ks]]; [done| |].
  - apply Forall_cons in Hall as [Hkind Hall'].
    pose proof (cosmetic_kind_cases _ Hkind) as (Hc & Hm & _).
    split_and!; [done|by constructor| | |done|done].
    + split; [by intros ?|done].
    + split; [by intros ?|simpl; lia].
  - split_and!; [done|done| | | |done].
    + split; done.
    + split; [simpl; lia|done].
    + split; [simpl; lia|done].
Qed.
End classifier_more.

Section note_more.
Context `{Runtime}.
Import ChangeType.

Implicit Types before after : list text.

Lemma description_of_kind (k : string) :
  k = CONTENT ∨ k = MIXED_COSMETIC ∨ k ∈ cosmetic_kinds →
  is_Some (descriptions !! k) ∧ descriptions !! k ≠ Some "Changed"%string.
Proof.
  intros [->|[->|Hk]]; [by split; [eexists|]..|].
  apply list_elem_of_In in Hk. simpl in Hk.
  destruct Hk as [<-|[<-|[<-|[<-|[<-|[]]]]]]; by split; [eexists|].
Qed.

(** The subkinds a note collects are kinds of the battery. *)
Lemma note_cosmetic_types_kinds before after (k : string) :
  k ∈ (classify_note_change before after).2.2 → k ∈ cosmetic_kinds.
Proof.
  unfold classify_note_change, note_loop. simpl.
  destruct (note_loop_invariant before after
              (length before `max` length after)) as (_ & _ & Ht).
  rewrite Ht. intros (i & _ & _ & Hk).
  pose proof (classify_field_change_range
                (field_at before i) (field_at after i)) as Hshape.
  unfold field_class in Hk.
  destruct (classify_field_change (field_at before i) (field_at after i))
    as [kind details].
  destruct Hshape as [Hall _]. rewrite Forall_forall in Hall. auto.
Qed.

Lemma note_overall_kind before after :
  let kind := (classify_note_change before after).1 in
  kind = CONTENT ∨ kind = MIXED_COSMETIC ∨ kind ∈ cosmetic_kinds.
Proof.
  pose proof (note_cosmetic_types_kinds before after) as Hk.
  unfold classify_note_change in *. simpl in *.
  destruct (has_content_change _); [by left|].
  destruct (elements (cosmetic_types (note_loop before after)))
    as [|k [|k' ks]] eqn:Hel; [by left| |by right; left].
  right; right. apply Hk. apply elem_of_elements. rewrite Hel.
  apply list_elem_of_here.
Qed.

Lemma description_base (kind : string) (types : list string) :
  kind = CONTENT ∨ kind = MIXED_COSMETIC ∨ kind ∈ cosmetic_kinds →
  ∃ d, descriptions !! kind = Some d ∧ d ≠ "Changed"%string ∧
       ((length types ≤ 1)%nat → get_change_description kind (Some types) = d).
Proof.
  intros Hk. destruct (description_of_kind kind Hk) as [[d Hd] Hne].
  exists d. split_and!; [done|congruence|].
  intros Hlen. unfold get_change_description. rewrite Hd. simpl.
  destruct (Nat.ltb_spec 1 (length types)); [lia|done].
Qed.

(** X2: Every kind and every subkind that [classify_field_change] and
    [classify_note_change] return has an entry in the dictionary of
    [get_change_description]: the description of a classification is
    never the fallback "Changed", it is the entry of the kind when there
    is at most one subkind, and the list of subkinds in it never shows a
    raw kind name. *)
Theorem classification_is_described (a b : text) before after :
  let '(kind, details) := classify_field_change a b in
  let '(overall, (_, types)) := classify_note_change before after in
  ((∃ d, descriptions !! kind = Some d ∧ d ≠ "Changed"%string ∧
         ((length details ≤ 1)%nat →
          get_change_description kind (Some details) = d)) ∧
   Forall (λ t, is_Some (descriptions !! t)) details) ∧
  ((∃ d, descriptions !! overall = Some d ∧ d ≠ "Changed"%string ∧
         ((size types ≤ 1)%nat →
          get_change_description overall (Some (elements types)) = d)) ∧
   (∀ t, t ∈ types → is_Some (descriptions !! t))).
Proof.
  pose proof (classify_field_change_range a b) as Hshape.
  pose proof (note_overall_kind before after) as Hoverall.
  pose proof (note_cosmetic_types_kinds before after) as Htypes.
  destruct (classify_field_change a b) as [kind details].
  destruct (classify_note_change before after) as [overall [fc types]].
  simpl in *. destruct Hshape as [Hall Hkind].
  split; split.
  - by apply description_base.
  - eapply Forall_impl; [exact Hall|]. intros t Ht.
    apply description_of_kind. auto.
  - by apply description_base.
  - intros t Ht. apply description_of_kind. auto.
Qed.

(** X3: A note is classified as a cosmetic change exactly when some field
    differs and no differing field is a content change: the overall
    kind is [content] when a differing field is, and also when no field
    differs at all. *)
Theorem classify_note_change_cosmetic_iff before after :
  (classify_note_change before after).1 ≠ CONTENT ↔
  differing before after ≠ [] ∧
  ∀ i, i ∈ differing before after → (field_class before after i).1 ≠ CONTENT.
Proof.
  pose proof (note_cosmetic_types_kinds before after) as Hkinds.
  unfold classify_note_change, note_loop, differing in *. simpl in *.
  destruct (note_loop_invariant before after
              (length before `max` length after)) as (_ & Hc & Ht).
  set (st := foldl _ _ _) in *. set (D := filter _ _) in *.
  destruct (has_content_change st) eqn:Hcontent.
  - split; [intros Hx; exfalso; by apply Hx|]. intros [_ Hall]. destruct Hc as [Hc _].
    destruct (Hc eq_refl) as (i & Hi & Hk). by apply Hall in Hi.
  - assert (∀ i, i ∈ D → (field_class before after i).1 ≠ CONTENT) as Hall.
    { intros i Hi Hk. destruct Hc as [_ Hc].
      assert (false = true) as Hft by (apply Hc; by exists i).
      discriminate Hft. }
    destruct (elements (cosmetic_types st)) as [|k ks] eqn:Hel.
    + split; [intros Hx; exfalso; by apply Hx|]. intros [HD _]. exfalso.
      destruct D as [|i D'] eqn:HDeq; [done|].
      assert (i ∈ i :: D') as Hi by apply list_elem_of_here.
      pose proof (Hall i Hi) as Hkind.
      pose proof (classify_field_change_kinds
                    (field_at before i) (field_at after i)) as Hk.
      unfold field_class in Hkind, Ht.
      destruct (classify_field_change (field_at before i) (field_at after i))
        as [kind details] eqn:Hcls.
      destruct Hk as [[-> _]|(_ & -> & _)]; [done|].
      destruct (detect_cosmetic_changes_shape
                  (field_at before i) (field_at after i)) as [Hnil _].
      destruct (_detect_cosmetic_changes (field_at before i) (field_at after i))
        as [|k ks] eqn:Hdet; [done|].
      assert (k ∈ cosmetic_types st) as Hin.
      { apply Ht. exists i. rewrite Hcls. simpl.
        split_and!; [done|done|apply list_elem_of_here]. }
      apply elem_of_elements in Hin. rewrite Hel in Hin.
      by apply elem_of_nil in Hin.
    + assert (k ∈ cosmetic_types st) as Hin.
      { apply elem_of_elements. rewrite Hel. apply list_elem_of_here. }
      split; [intros _|].
      * split; [|done]. apply Ht in Hin as (i & Hi & _). intros HD.
        rewrite HD in Hi. by apply elem_of_nil in Hi.
      * intros _. destruct ks as [|k' ks]; [|done].
        apply Hkinds in Hin. by apply cosmetic_kind_cases in Hin as (? & _).
Qed.

Lemma note_step_swap before after (st : note_state) (i : nat) :
  note_step before after st i = note_step after before st i.
Proof.
  unfold note_step.
  rewrite (bool_decide_ne_sym (field_at before i)).
  assert (classify_field_change (field_at before i) (field_at after i) =
          classify_field_change (field_at after i) (field_at before i)) as ->.
  { unfold classify_field_change.
    rewrite (bool_decide_eq_sym (field_at before i)).
    rewrite (bool_decide_eq_sym
               (_normalize_for_comparison (field_at before i))).
    by rewrite (detect_cosmetic_changes_sym (field_at before i)). }
  done.
Qed.

(** X4: The classification of a note does not depend on the direction of
    the comparison: swapping the two lists of fields gives the same
    overall kind, the same classification of each field and the same
    set of subkinds. *)
Theorem classify_note_change_symmetric before after :
  classify_note_change before after = classify_note_change after before.
Proof.
  unfold classify_note_change, note_loop.
  rewrite (Nat.max_comm (length after)).
  assert (∀ l st, foldl (note_step before after) st l =
                  foldl (note_step after before) st l) as ->.
  { induction l as [|i l IH]; intros st; simpl; [done|].
    by rewrite IH, note_step_swap. }
  done.
Qed.
End note_more.

(** * Further facts about the drivers *)

Section driver_more.
Context `{Runtime}.

Lemma starts_with_app (p s : text) : starts_with p (p ++ s) = true.
Proof. induction p as [|c p IH]; simpl; [done|]. by rewrite N.eqb_refl. Qed.

Lemma starts_with_prefix (p s : text) :
  starts_with p s = true ↔ ∃ r, s = p ++ r.
Proof.
  revert s. induction p as [|c p IH]; intros s; simpl.
  { split; [by exists s|done]. }
  destruct s as [|d s]; [split; [done|by intros [r ?]]|].
  rewrite andb_true_iff, N.eqb_eq, IH. split.
  - intros [-> [r ->]]. by exists r.
  - intros [r [= -> ->]]. split; [done|by exists r].
Qed.

Lemma starts_with_app_l (p q s : text) :
  starts_with (p ++ q) s = true → starts_with p s = true.
Proof.
  rewrite !starts_with_prefix. intros [r ->]. exists (q ++ r).
  by rewrite app_assoc.
Qed.

Lemma suffix_cons_cases (s' : text) c s :
  s' `suffix_of` c :: s → s' = c :: s ∨ s' `suffix_of` s.
Proof.
  intros [[|x k] Hk]; simpl in Hk.
  - by left.
  - injection Hk as -> ->. right. by exists k.
Qed.

Lemma contains_nil (p : text) : contains p [] = starts_with p [] || false.
Proof. done. Qed.

Lemma contains_cons (p : text) c s :
  contains p (c :: s) = starts_with p (c :: s) || contains p s.
Proof. done. Qed.

Lemma contains_suffix (p s s' : text) :
  contains p s = false → s' `suffix_of` s → starts_with p s' = false.
Proof.
  induction s as [|c s IH]; intros Hc Hs'.
  - rewrite contains_nil in Hc.
    apply suffix_nil_inv in Hs' as ->. by apply orb_false_iff in Hc as [? _].
  - rewrite contains_cons in Hc. apply orb_false_iff in Hc as [Hc1 Hc2].
    apply suffix_cons_cases in Hs' as [->|Hs']; auto.
Qed.

Lemma contains_true (p s : text) :
  contains p s = true ↔ ∃ s', s' `suffix_of` s ∧ starts_with p s' = true.
Proof.
  split.
  - induction s as [|c s IH]; intros Hc.
    + rewrite contains_nil, orb_false_r in Hc. by exists [].
    + rewrite contains_cons in Hc. apply orb_true_iff in Hc as [Hc|Hc].
      * by exists (c :: s).
      * destruct (IH Hc) as (s' & Hs' & Hp). exists s'.
        split; [by apply suffix_cons_r|done].
  - intros (s' & Hs' & Hp). destruct (contains p s) eqn:Hc; [done|].
    rewrite (contains_suffix _ _ _ Hc Hs') in Hp. done.
Qed.

Lemma contains_app_l (p q s : text) :
  contains p s = false → contains (p ++ q) s = false.
Proof.
  intros Hp. destruct (contains (p ++ q) s) eqn:Hc; [|done].
  apply contains_true in Hc as (s' & Hs' & Hpq).
  apply starts_with_app_l in Hpq.
  rewrite (contains_suffix _ _ _ Hp Hs') in Hpq. done.
Qed.

Lemma sub_from_skip_all (m : text → option (text * nat)) count k s :
  (length s ≤ k)%nat → sub_from m count k s = [].
Proof.
  intros Hk. rewrite sub_from_skip, drop_ge by done. done.
Qed.

(** A match at the start: the replacement, then the rest after it. *)
Lemma sub_from_match (m : text → option (text * nat)) s r n :
  m s = Some (r, n) → s ≠ [] → (0 < n)%nat →
  re_sub m s = r ++ re_sub m (drop n s).
Proof.
  intros Hm Hs Hn. unfold re_sub. destruct s as [|c s]; [done|]. simpl.
  rewrite Hm, sub_from_skip. destruct n as [|n]; [lia|]. done.
Qed.

(** A prefix at no position of which the pattern matches is copied. *)
Lemma sub_from_app_unmatched (m : text → option (text * nat)) (pre s : text) :
  (∀ k, (k < length pre)%nat → m (drop k (pre ++ s)) = None) →
  re_sub m (pre ++ s) = pre ++ re_sub m s.
Proof.
  unfold re_sub. induction pre as [|c pre IH]; intros Hm; simpl; [done|].
  pose proof (Hm 0%nat ltac:(simpl; lia)) as H0. simpl in H0. rewrite H0.
  f_equal. apply IH. intros k Hk. apply (Hm (S k)). simpl. lia.
Qed.

Lemma re_search_None {A} (m : text → option (A * nat)) s s' :
  re_search m s = None → s' `suffix_of` s → m s' = None.
Proof.
  induction s as [|c s IH]; simpl; intros Hs Hs'.
  - apply suffix_nil_inv in Hs' as ->. by destruct (m []) as [[? ?]|].
  - destruct (m (c :: s)) as [[? ?]|] eqn:Hm; [done|].
    apply suffix_cons_cases in Hs' as [->|Hs']; auto.
Qed.

Lemma re_search_Some {A} (m : text → option (A * nat)) s a :
  m [] = None → re_search m s = Some a →
  ∃ rest, re_finditer m s = a :: rest.
Proof.
  intros Hnil. unfold re_finditer.
  induction s as [|c s IH]; simpl; intros Hs.
  - by rewrite Hnil in Hs.
  - destruct (m (c :: s)) as [[a' n]|] eqn:Hm.
    + injection Hs as ->. by eexists.
    + auto.
Qed.

Lemma finditer_unmatched {A} (m : text → option (A * nat)) s :
  (∀ s', s' `suffix_of` s → m s' = None) → re_finditer m s = [].
Proof.
  unfold re_finditer. induction s as [|c s IH]; intros Hm; simpl; [done|].
  rewrite (Hm (c :: s)) by done. apply IH. intros s' Hs'. apply Hm.
  by apply suffix_cons_r.
Qed.

Lemma span_run (p : N → bool) (run rest : text) :
  Forall (λ c, p c = true) run →
  (∀ c rest', rest = c :: rest' → p c = false) →
  span p (run ++ rest) = (run, rest).
Proof.
  intros Hrun Hrest. induction Hrun as [|c run Hc _ IH]; simpl.
  - destruct rest as [|c rest']; simpl; [done|]. by rewrite (Hrest c rest').
  - by rewrite Hc, IH.
Qed.
End driver_more.

(** * The cloze helpers *)

Section cloze_facts.
Context `{Runtime}.

Lemma cloze_item_open s : cloze_open s = None → cloze_item s = None.
Proof.
  unfold cloze_open, cloze_item. destruct (starts_with _ s); [|done].
  destruct (span is_digit (drop 3 s)) as [[|d ds] after]; [done|].
  by destruct (starts_with _ after).
Qed.

Lemma cloze_hidden_item_open s : cloze_open s = None → cloze_hidden_item s = None.
Proof.
  unfold cloze_open, cloze_hidden_item. destruct (starts_with _ s); [|done].
  destruct (span is_digit (drop 3 s)) as [[|d ds] after]; [done|].
  by destruct (starts_with _ after).
Qed.

Lemma ints_of_spec nums :
  match ints_of nums with
  | Ok ns => Forall2 (λ num n, py_int num = Some n) nums ns
  | Raise e => e = ValueError ∧ ∃ num, num ∈ nums ∧ py_int num = None
  end.
Proof.
  induction nums as [|num nums IH]; simpl; [constructor|].
  destruct (py_int num) as [n|] eqn:Hn.
  - destruct (ints_of nums) as [ns|e]; simpl.
    + by constructor.
    + destruct IH as [-> (num' & Hin & Hnone)]. split; [done|].
      exists num'. split; [by apply elem_of_cons; right|done].
  - split; [done|]. exists num. split; [apply list_elem_of_here|done].
Qed.

Lemma sorted_set_spec (ns : list Z) :
  StronglySorted Z.lt (sorted_set ns) ∧ ∀ n, n ∈ sorted_set ns ↔ n ∈ ns.
Proof.
  unfold sorted_set.
  pose proof (merge_sort_Permutation Z.le (elements (list_to_set ns : gset Z)))
    as Hperm.
  assert (StronglySorted Z.le
            (merge_sort Z.le (elements (list_to_set ns : gset Z)))) as Hsorted.
  { apply StronglySorted_merge_sort; [apply _|]. intros x y. lia. }
  assert (NoDup (merge_sort Z.le (elements (list_to_set ns : gset Z)))) as Hnd.
  { rewrite Hperm. apply NoDup_elements. }
  split.
  - revert Hsorted Hnd.
    generalize (merge_sort Z.le (elements (list_to_set ns : gset Z))).
    induction 1 as [|x l Hl IH Hx]; intros Hnd; constructor.
    + apply IH. by apply NoDup_cons in Hnd as [_ ?].
    + apply NoDup_cons in Hnd as [Hx' _].
      rewrite Forall_forall in Hx |- *. intros y Hy.
      specialize (Hx y Hy). assert (x ≠ y) by (by intros ->). lia.
  - intros n. rewrite Hperm, elem_of_elements, elem_of_list_to_set. done.
Qed.

(** X5: [extract_cloze_numbers] returns the numbers of the cloze openings
    of the field in strictly increasing order, each once, when [int]
    reads every one of them; it raises [ValueError] when [int] fails on
    one of them. *)
Theorem extract_cloze_numbers_sorted (field_value : text) :
  match extract_cloze_numbers field_value with
  | Ok ns =>
      StronglySorted Z.lt ns ∧
      Forall (λ num, is_Some (py_int num))
             (re_finditer cloze_open field_value) ∧
      ∀ n, n ∈ ns ↔
           ∃ num, num ∈ re_finditer cloze_open field_value ∧
                  py_int num = Some n
  | Raise e =>
      e = ValueError ∧
      ∃ num, num ∈ re_finditer cloze_open field_value ∧ py_int num = None
  end.
Proof.
  unfold extract_cloze_numbers.
  pose proof (ints_of_spec (re_finditer cloze_open field_value)) as Hints.
  destruct (ints_of _) as [ns|e]; simpl; [|done].
  destruct (sorted_set_spec ns) as [Hsorted Hmem]. split; [done|]. split.
  { apply Forall_forall. intros num Hnum.
    apply list_elem_of_lookup in Hnum as [i Hi].
    destruct (Forall2_lookup_l _ _ _ _ _ Hints Hi) as (n & _ & Hint).
    by exists n. }
  intros n. rewrite Hmem. split.
  - intros Hn. apply list_elem_of_lookup in Hn as [i Hi].
    destruct (Forall2_lookup_r _ _ _ _ _ Hints Hi) as (num & Hnum & Hint).
    exists num. split; [|done]. by eapply list_elem_of_lookup_2.
  - intros (num & Hnum & Hint). apply list_elem_of_lookup in Hnum as [i Hi].
    destruct (Forall2_lookup_l _ _ _ _ _ Hints Hi) as (n' & Hn' & Hint').
    rewrite Hint in Hint'. injection Hint' as <-.
    by eapply list_elem_of_lookup_2.
Qed.

(** X6: [has_cloze_deletions] is false exactly when [extract_cloze_numbers]
    returns the empty list, and then [render_cloze_field_for_display]
    returns the field unchanged in both of its modes. *)
Theorem no_cloze_deletions (field_value : text) :
  (has_cloze_deletions field_value = false ↔
   extract_cloze_numbers field_value = Ok []) ∧
  (has_cloze_deletions field_value = false →
   ∀ show_all, render_cloze_field_for_display field_value show_all = field_value).
Proof.
  unfold has_cloze_deletions.
  destruct (re_search cloze_open field_value) as [num|] eqn:Hsearch.
  - rewrite bool_decide_true by by eexists. split; [|done].
    split; [done|]. intros Hex. exfalso.
    apply re_search_Some in Hsearch as [rest Hrest]; [|done].
    unfold extract_cloze_numbers in Hex. rewrite Hrest in Hex. simpl in Hex.
    destruct (py_int num) as [n|]; [|done].
    destruct (ints_of rest) as [ns|e]; simpl in Hex; [|done].
    injection Hex as Hex.
    destruct (sorted_set_spec (n :: ns)) as [_ Hmem].
    assert (n ∈ sorted_set (n :: ns)) as Hin
      by (apply Hmem; apply list_elem_of_here).
    rewrite Hex in Hin. by apply elem_of_nil in Hin.
  - rewrite bool_decide_false by (by intros [? ?]).
    assert (∀ s', s' `suffix_of` field_value → cloze_open s' = None) as Hnone
      by (intros s'; by apply re_search_None).
    split.
    + split; [intros _|done]. unfold extract_cloze_numbers.
      rewrite finditer_unmatched by done. simpl.
      unfold sorted_set. by vm_compute.
    + intros _ [|]; unfold render_cloze_field_for_display;
        apply sub_from_unmatched; intros s' Hs'.
      * apply cloze_item_open. auto.
      * apply cloze_hidden_item_open. auto.
Qed.

(** X7: In a template, [{{cloze:Name}}] stands for what
    [render_cloze_field_for_display] shows of the field [Name] with all
    clozes revealed; a missing field counts as empty. *)
Theorem cloze_block_is_display (name : text) (fields : dict text) :
  name ≠ [] → Forall (λ c, c ≠ ch "}") name →
  _render_cloze (txt "{{cloze:" ++ name ++ txt "}}") fields =
  render_cloze_field_for_display (dict_get fields name []) true.
Proof.
  intros Hne Hname. unfold _render_cloze, render_cloze_field_for_display.
  assert (run_to_close (name ++ txt "}}") = Some (name, [])) as Hrun.
  { unfold run_to_close. rewrite span_run.
    - destruct name; [done|]. done.
    - eapply Forall_impl; [exact Hname|]. intros c Hc. unfold not_brace.
      apply negb_true_iff. by apply N.eqb_neq.
    - intros c rest' [= <- _]. done. }
  assert (cloze_block fields (txt "{{cloze:" ++ name ++ txt "}}") =
          Some (re_sub cloze_item (dict_get fields name []),
                (8 + length name + 2)%nat)) as Hm.
  { unfold cloze_block. rewrite starts_with_app.
    rewrite (drop_app_length' (txt "{{cloze:")) by done.
    by rewrite Hrun. }
  rewrite (sub_from_match _ _ _ _ Hm); [|done|lia].
  rewrite drop_ge, app_nil_r; [done|].
  rewrite !length_app.
  change (length (txt "{{cloze:")) with 8%nat.
  change (length (txt "}}")) with 2%nat. lia.
Qed.
End cloze_facts.

(** * Further properties of the template engine *)

Section render_facts.
Context `{Runtime}.

Lemma lit_match_needs_open (x new : text) :
  needs_open (lit_match (txt "{{" ++ x) new).
Proof.
  intros s Hs. unfold lit_match.
  destruct (starts_with (txt "{{" ++ x) s) eqn:Hx; [|done].
  apply starts_with_app_l in Hx. congruence.
Qed.

Lemma cloze_block_needs_open fields : needs_open (cloze_block fields).
Proof.
  intros s Hs. unfold cloze_block.
  destruct (starts_with (txt "{{cloze:") s) eqn:Hx; [|done].
  apply (starts_with_app_l (txt "{{") (txt "cloze:")) in Hx. congruence.
Qed.

Lemma conditional_needs_open positive fields :
  needs_open (conditional positive fields).
Proof.
  intros s Hs. unfold conditional.
  destruct (starts_with (txt "{{" ++ _) s) eqn:Hx; [|done].
  apply starts_with_app_l in Hx. congruence.
Qed.

Lemma unmatched_reference_needs_open : needs_open unmatched_reference.
Proof. intros s Hs. unfold unmatched_reference. by rewrite Hs. Qed.

Lemma no_open_contains (t : text) : no_open t → contains (txt "{{") t = false.
Proof.
  induction 1 as [|c t Hc _ IH]; [by vm_compute|].
  change (contains (txt "{{") (c :: t)) with
    (starts_with (txt "{{") (c :: t) || contains (txt "{{") t).
  rewrite IH, orb_false_r.
  change (starts_with (txt "{{") (c :: t)) with
    ((ch "{" =? c) && starts_with (txt "{") t).
  apply andb_false_iff. left. apply N.eqb_neq. congruence.
Qed.

(** Without [{{] in the text a pattern that needs one changes nothing. *)
Lemma re_sub_plain (m : text → option (text * nat)) (t : text) :
  needs_open m → contains (txt "{{") t = false → re_sub m t = t.
Proof.
  intros Hm Ht. apply sub_from_unmatched. intros s' Hs'.
  apply Hm. by eapply contains_suffix.
Qed.

Lemma substitute_fields_plain (t : text) (items : dict text) :
  contains (txt "{{") t = false →
  Forall (λ item, returns (parse_template item.2)) items →
  substitute_fields t items = Ok t.
Proof.
  intros Ht. induction 1 as [|[name value] items [ps Hps] _ IH]; simpl; [done|].
  simpl in Hps. unfold substitute_field. rewrite Hps. simpl. unfold str_replace.
  rewrite re_sub_plain;
    [done|apply (lit_match_needs_open (name ++ txt "}}"))|done].
Qed.

(** The passes after the tags on a text without [{{]. *)
Lemma render_tail_plain (t : text) (fields : dict text) :
  contains (txt "{{") t = false →
  Forall (λ item, returns (parse_template item.2)) fields →
  _render_fields (_render_conditionals (_render_cloze t fields) fields) fields
  = Ok t.
Proof.
  intros Ht Hfields. unfold _render_cloze, _render_conditionals, _render_fields.
  rewrite (re_sub_plain (cloze_block fields) t)
    by first [apply cloze_block_needs_open | done].
  rewrite (re_sub_plain (conditional false fields) t)
    by first [apply conditional_needs_open | done].
  rewrite (re_sub_plain (conditional true fields) t)
    by first [apply conditional_needs_open | done].
  rewrite substitute_fields_plain by done. simpl.
  rewrite re_sub_plain; [done|apply unmatched_reference_needs_open|done].
Qed.

(** X8: A template without [{{] is returned as it is, whatever the side,
    the tags and the fields, as long as the field values are
    well-formed replacement templates; so is a rendered text without
    [{{] that is rendered again. *)
Theorem render_plain_text template fields tags is_answer front_side_html :
  contains (txt "{{") template = false →
  Forall (λ item, returns (parse_template item.2)) fields →
  render template fields tags is_answer front_side_html = Ok template.
Proof.
  intros Ht Hfields. unfold render.
  change (txt "{{FrontSide}}") with (txt "{{" ++ txt "FrontSide}}").
  rewrite (contains_app_l (txt "{{") (txt "FrontSide}}") template Ht).
  rewrite andb_false_r. unfold str_replace at 1.
  rewrite (re_sub_plain (lit_match (txt "{{Tags}}") _));
    [|apply (lit_match_needs_open (txt "Tags}}"))|done].
  by apply render_tail_plain.
Qed.
End render_facts.

Section reference_facts.
Context `{Runtime}.

Lemma no_open_app (t u : text) : no_open (t ++ u) ↔ no_open t ∧ no_open u.
Proof. unfold no_open. apply Forall_app. Qed.

Lemma brace_free_no_open (t : text) : brace_free t → no_open t.
Proof. intros Ht. eapply Forall_impl; [exact Ht|]. by intros c [? _]. Qed.

Lemma no_open_suffix (t s' : text) : no_open t → s' `suffix_of` t → no_open s'.
Proof. intros Ht [k ->]. by apply no_open_app in Ht as [_ ?]. Qed.

Lemma txt_open : txt "{{" = [ch "{"; ch "{"].
Proof. done. Qed.

Lemma txt_close : txt "}}" = [ch "}"; ch "}"].
Proof. done. Qed.

Lemma no_open_close : no_open (txt "}}").
Proof. rewrite txt_close. by repeat constructor. Qed.

Lemma starts_with_open (t : text) :
  no_open t → starts_with (txt "{{") t = false.
Proof.
  intros Ht. apply (contains_suffix _ t); [by apply no_open_contains|done].
Qed.

Lemma starts_with_open_inv (s : text) :
  starts_with (txt "{{") s = true → ∃ r, s = ch "{" :: ch "{" :: r.
Proof. rewrite starts_with_prefix, txt_open. intros [r ->]. by exists r. Qed.

(** The only place of [A ++ "{{" ++ B] at which a [{{] starts, when
    neither [A] nor [B] has an opening brace. *)
Lemma re_sub_site_unmatched (m : text → option (text * nat)) (A B : text) :
  needs_open m → no_open A → no_open B →
  m (txt "{{" ++ B) = None →
  re_sub m (A ++ txt "{{" ++ B) = A ++ txt "{{" ++ B.
Proof.
  intros Hm HA HB Hsite. apply sub_from_unmatched. intros s' Hs'.
  destruct (starts_with (txt "{{") s') eqn:Hopen; [|by apply Hm].
  apply starts_with_open_inv in Hopen as [r ->].
  induction HA as [|a A Ha _ IH]; simpl in Hs'.
  - rewrite txt_open in *. simpl in *.
    apply suffix_cons_cases in Hs' as [Hs'|Hs'].
    { injection Hs' as ->. exact Hsite. }
    apply suffix_cons_cases in Hs' as [Hs'|Hs'].
    { injection Hs' as Hs'. rewrite <- Hs' in HB.
      apply Forall_cons in HB as [? _]. done. }
    apply (no_open_suffix _ _ HB) in Hs'.
    apply Forall_cons in Hs' as [? _]. done.
  - apply suffix_cons_cases in Hs' as [Hs'|Hs']; [|auto].
    injection Hs' as <- _. done.
Qed.

Lemma re_sub_site_matched (m : text → option (text * nat)) (A S : text) r n :
  needs_open m → no_open A →
  m S = Some (r, n) → S ≠ [] → (0 < n)%nat →
  re_sub m (A ++ S) = A ++ r ++ re_sub m (drop n S).
Proof.
  intros Hm HA Hsite HS Hn. rewrite sub_from_app_unmatched.
  - by rewrite (sub_from_match _ _ _ _ Hsite).
  - intros k Hk. apply Hm.
    destruct (starts_with (txt "{{") (drop k (A ++ S))) eqn:Hopen; [|done].
    apply starts_with_open_inv in Hopen as [r' Hr'].
    rewrite drop_app_le in Hr' by lia.
    destruct (lookup_lt_is_Some_2 A k Hk) as [a Ha].
    rewrite (drop_S _ _ _ Ha) in Hr'. injection Hr' as -> _.
    unfold no_open in HA. rewrite Forall_forall in HA.
    apply list_elem_of_lookup_2 in Ha. by apply HA in Ha.
Qed.

Lemma starts_with_app_same (p q s : text) :
  starts_with (p ++ q) (p ++ s) = starts_with q s.
Proof. induction p as [|c p IH]; simpl; [done|]. by rewrite N.eqb_refl. Qed.

(** Two references that start at the same place are the same. *)
Lemma reference_eq (X name post : text) :
  brace_free name → brace_free post →
  starts_with (X ++ txt "}}") (name ++ txt "}}" ++ post) = true → X = name.
Proof.
  rewrite starts_with_prefix, txt_close. intros Hname Hpost [r Hr].
  revert X Hr. induction Hname as [|a name [_ Ha] _ IH]; intros X Hr.
  - destruct X as [|x [|x' X]]; [done| |]; simpl in Hr.
    + injection Hr as _ Hr. rewrite Hr in Hpost.
      apply Forall_cons in Hpost as [[_ ?] _]. done.
    + injection Hr as _ _ Hr. rewrite Hr in Hpost.
      apply Forall_app in Hpost as [Hpost _].
      apply Forall_app in Hpost as [_ Hpost].
      apply Forall_cons in Hpost as [[_ ?] _]. done.
  - destruct X as [|x X]; simpl in Hr.
    + injection Hr as Hr _. done.
    + injection Hr as -> Hr. f_equal. by apply IH.
Qed.

Lemma lit_match_other (X name post new : text) :
  brace_free name → brace_free post → X ≠ name →
  lit_match (txt "{{" ++ X ++ txt "}}") new (txt "{{" ++ name ++ txt "}}" ++ post)
  = None.
Proof.
  intros Hname Hpost HX. unfold lit_match.
  destruct (starts_with _ _) eqn:Hs; [|done]. exfalso. apply HX.
  apply (reference_eq X name post); [done|done|].
  by rewrite starts_with_app_same in Hs.
Qed.

Lemma str_replace_other (X name pre post new : text) :
  no_open pre → brace_free name → brace_free post → X ≠ name →
  str_replace (txt "{{" ++ X ++ txt "}}") new
              (pre ++ txt "{{" ++ name ++ txt "}}" ++ post)
  = pre ++ txt "{{" ++ name ++ txt "}}" ++ post.
Proof.
  intros Hpre Hname Hpost HX. unfold str_replace.
  apply re_sub_site_unmatched.
  - apply lit_match_needs_open.
  - done.
  - apply no_open_app. split; [by apply brace_free_no_open|].
    apply no_open_app. split; [apply no_open_close|by apply brace_free_no_open].
  - by apply lit_match_other.
Qed.

Lemma run_to_close_rest (s run rest : text) :
  run_to_close s = Some (run, rest) → s = run ++ txt "}}" ++ rest.
Proof.
  unfold run_to_close. pose proof (span_app not_brace s) as Happ.
  destruct (span not_brace s) as [[|c run'] after]; [done|]. simpl in Happ.
  destruct (starts_with (txt "}}") after) eqn:Hclose; [|done].
  intros [= <- <-]. apply starts_with_prefix in Hclose as [r ->].
  rewrite <- Happ. by rewrite (drop_app_length' (txt "}}")).
Qed.

Lemma run_to_close_run (name rest : text) :
  name ≠ [] → Forall (λ c, c ≠ ch "}") name →
  run_to_close (name ++ txt "}}" ++ rest) = Some (name, rest).
Proof.
  intros Hne Hname. unfold run_to_close. rewrite span_run.
  - destruct name as [|c name]; [done|].
    rewrite starts_with_app.
    by rewrite (drop_app_length' (txt "}}")).
  - eapply Forall_impl; [exact Hname|]. intros c Hc.
    unfold not_brace. apply negb_true_iff. by apply N.eqb_neq.
  - rewrite txt_close. intros c rest' [= <- _]. done.
Qed.

Lemma str_find_no_open (c s : text) :
  no_open s → str_find (ch "{" :: c) s = None.
Proof.
  induction 1 as [|a s Ha _ IH]; [done|].
  change (str_find (ch "{" :: c) (a :: s)) with
    (if (ch "{" =? a) && starts_with c s then Some 0%nat
     else S <$> str_find (ch "{" :: c) s).
  rewrite IH. apply N.eqb_neq in Ha. rewrite N.eqb_sym in Ha.
  by rewrite Ha.
Qed.

(** A conditional opening with nothing but text after it is not a
    block. *)
Lemma conditional_unclosed positive fields (B : text) :
  no_open B → conditional positive fields (txt "{{" ++ B) = None.
Proof.
  intros HB. unfold conditional. destruct (starts_with _ _); [|done].
  destruct (run_to_close _) as [[name rest]|] eqn:Hrun; [|done].
  apply run_to_close_rest in Hrun.
  assert (no_open rest) as Hrest.
  { assert (no_open (drop 3 (txt "{{" ++ B))) as Hd.
    { rewrite txt_open. simpl. destruct B; [constructor|]. simpl.
      apply Forall_cons in HB as [_ HB]. unfold no_open.
      rewrite drop_0. done. }
    rewrite Hrun in Hd. apply no_open_app in Hd as [_ Hd].
    by apply no_open_app in Hd as [_ Hd]. }
  change (txt "{{/" ++ name ++ txt "}}")
    with (ch "{" :: (ch "{" :: ch "/" :: name ++ txt "}}")).
  by rewrite str_find_no_open.
Qed.

Lemma starts_with_before (p name rest : text) c :
  Forall (λ x, x ≠ c) p →
  starts_with p (name ++ c :: rest) = true → starts_with p name = true.
Proof.
  revert name. induction p as [|x p IH]; intros name Hp Hs; [done|].
  apply Forall_cons in Hp as [Hx Hp].
  destruct name as [|a name]; simpl in *.
  - apply andb_true_iff in Hs as [Hs _]. apply N.eqb_eq in Hs. done.
  - apply andb_true_iff in Hs as [Hs1 Hs2]. rewrite Hs1. simpl. by apply IH.
Qed.

(** The passes before the field substitution leave a template with one
    reference that is neither the tags, nor the front side, nor a cloze
    block as it is. *)
Lemma render_reference_head pre name post fields tags is_answer front :
  no_open pre → name ≠ [] → brace_free name → brace_free post →
  name ≠ txt "Tags" → is_answer = false ∨ name ≠ txt "FrontSide" →
  starts_with (txt "cloze:") name = false →
  render (pre ++ txt "{{" ++ name ++ txt "}}" ++ post) fields tags is_answer front
  = _render_fields (pre ++ txt "{{" ++ name ++ txt "}}" ++ post) fields.
Proof.
  intros Hpre Hne Hname Hpost Htags Hfront Hcloze.
  assert (no_open (name ++ txt "}}" ++ post)) as HB.
  { apply no_open_app. split; [by apply brace_free_no_open|].
    apply no_open_app. split; [apply no_open_close|by apply brace_free_no_open]. }
  unfold render.
  assert ((if is_answer &&
              contains (txt "{{FrontSide}}")
                (pre ++ txt "{{" ++ name ++ txt "}}" ++ post)
           then str_replace (txt "{{FrontSide}}") front
                  (pre ++ txt "{{" ++ name ++ txt "}}" ++ post)
           else pre ++ txt "{{" ++ name ++ txt "}}" ++ post)
          = pre ++ txt "{{" ++ name ++ txt "}}" ++ post) as ->.
  { destruct Hfront as [->|Hfront]; [done|].
    destruct (_ && _); [|done].
    by apply (str_replace_other (txt "FrontSide")). }
  rewrite (str_replace_other (txt "Tags")) by done.
  unfold _render_cloze.
  rewrite re_sub_site_unmatched;
    [|apply cloze_block_needs_open|done|done|].
  2:{ unfold cloze_block.
      destruct (starts_with (txt "{{cloze:") _) eqn:Hs; [|done].
      exfalso.
      change (txt "{{cloze:") with (txt "{{" ++ txt "cloze:") in Hs.
      rewrite starts_with_app_same in Hs.
      apply (starts_with_before _ name (ch "}" :: post) (ch "}")) in Hs;
        [congruence|].
      by repeat constructor. }
  unfold _render_conditionals.
  rewrite (re_sub_site_unmatched (conditional false fields));
    [|apply conditional_needs_open|done|done|by apply conditional_unclosed].
  rewrite (re_sub_site_unmatched (conditional true fields));
    [|apply conditional_needs_open|done|done|by apply conditional_unclosed].
  done.
Qed.
End reference_facts.

Section reference_theorems.
Context `{Runtime}.

Lemma dict_first {V} (fields : dict V) (name : text) (dflt : V) :
  name ∈ fields.*1 →
  ∃ l1 l2, fields = l1 ++ (name, dict_get fields name dflt) :: l2 ∧
           name ∉ l1.*1.
Proof.
  induction fields as [|[k v] fields IH]; simpl; intros Hin.
  { by apply elem_of_nil in Hin. }
  case_bool_decide as Hk.
  - subst k. exists [], fields. split; [done|]. apply not_elem_of_nil.
  - apply elem_of_cons in Hin as [Hin|Hin]; [congruence|].
    destruct (IH Hin) as (l1 & l2 & Heq & Hl1).
    exists ((k, v) :: l1), l2. split; [by rewrite Heq at 1|].
    simpl. apply not_elem_of_cons. split; [congruence|done].
Qed.

Lemma reference_assoc (name post : text) :
  txt "{{" ++ name ++ txt "}}" ++ post = (txt "{{" ++ name ++ txt "}}") ++ post.
Proof. by rewrite <- !app_assoc. Qed.

Lemma bind_Ok {A B} (a : A) (f : A → result B) : (Ok a ≫= f) = f a.
Proof. done. Qed.

Lemma substitute_fields_cons (t : text) item (items : dict text) :
  substitute_fields t (item :: items) =
  t' ← substitute_field t item; substitute_fields t' items.
Proof. done. Qed.

Lemma substitute_field_eq (t k v : text) :
  substitute_field t (k, v) =
  ps ← parse_template v;
  Ok (str_replace (txt "{{" ++ k ++ txt "}}")
        (expand (txt "{{" ++ k ++ txt "}}") ps) t).
Proof. done. Qed.

Lemma substitute_fields_app (t : text) (l1 l2 : dict text) :
  substitute_fields t (l1 ++ l2) =
  t' ← substitute_fields t l1; substitute_fields t' l2.
Proof.
  revert t. induction l1 as [|item l1 IH]; intros t; simpl; [done|].
  destruct (substitute_field t item) as [t'|e]; simpl; [apply IH|done].
Qed.

(** Fields of other names do not touch the reference. *)
Lemma substitute_fields_other pre name post (items : dict text) :
  no_open pre → brace_free name → brace_free post →
  name ∉ items.*1 →
  Forall (λ item, returns (parse_template item.2)) items →
  substitute_fields (pre ++ txt "{{" ++ name ++ txt "}}" ++ post) items
  = Ok (pre ++ txt "{{" ++ name ++ txt "}}" ++ post).
Proof.
  intros Hpre Hname Hpost Hnot Hall.
  induction Hall as [|[k v] items [ps Hps] _ IH]; [done|].
  simpl in Hnot, Hps. apply not_elem_of_cons in Hnot as [Hk Hnot].
  rewrite substitute_fields_cons, substitute_field_eq, Hps, !bind_Ok.
  rewrite str_replace_other by (done || congruence). by apply IH.
Qed.

(** X9: A reference to a field is replaced by the value of the field:
    around text without braces, for a name that is neither the tags,
    nor the front side on the answer side, nor a cloze block, a value
    with neither backslash nor opening brace is inserted as it is. *)
Theorem render_field_reference
    pre name post fields tags is_answer front_side_html :
  no_open pre → name ≠ [] → brace_free name → brace_free post →
  name ≠ txt "Tags" → is_answer = false ∨ name ≠ txt "FrontSide" →
  starts_with (txt "cloze:") name = false →
  Forall (λ item, returns (parse_template item.2)) fields →
  name ∈ fields.*1 →
  backslash_free (dict_get fields name []) →
  no_open (dict_get fields name []) →
  render (pre ++ txt "{{" ++ name ++ txt "}}" ++ post) fields tags is_answer
         front_side_html
  = Ok (pre ++ dict_get fields name [] ++ post).
Proof.
  intros Hpre Hne Hname Hpost Htags Hfront Hcloze Hall Hin Hback Hvalue.
  rewrite render_reference_head by done.
  set (v := dict_get fields name []) in *.
  destruct (dict_first fields name [] Hin) as (l1 & l2 & Heq & Hl1).
  fold v in Heq. unfold _render_fields. rewrite Heq in Hall |- *.
  apply Forall_app in Hall as [Hall1 Hall2].
  apply Forall_cons in Hall2 as [_ Hall2].
  rewrite substitute_fields_app, substitute_fields_other by done.
  rewrite bind_Ok, substitute_fields_cons, substitute_field_eq.
  rewrite parse_template_backslash_free by done.
  rewrite !bind_Ok, expand_literal.
  assert (no_open (pre ++ v ++ post)) as Hplain.
  { apply no_open_app. split; [done|]. apply no_open_app.
    split; [done|by apply brace_free_no_open]. }
  assert (str_replace (txt "{{" ++ name ++ txt "}}") v
            (pre ++ txt "{{" ++ name ++ txt "}}" ++ post)
          = pre ++ v ++ post) as ->.
  { unfold str_replace.
    rewrite (re_sub_site_matched _ pre _ v
               (length (txt "{{" ++ name ++ txt "}}"))).
    - rewrite reference_assoc, drop_app_length.
      rewrite re_sub_plain; [done|apply lit_match_needs_open|].
      apply no_open_contains. by apply brace_free_no_open.
    - apply lit_match_needs_open.
    - done.
    - unfold lit_match. by rewrite reference_assoc, starts_with_app.
    - by rewrite txt_open.
    - rewrite length_app. change (length (txt "{{")) with 2%nat. lia. }
  rewrite substitute_fields_plain by (done || by apply no_open_contains).
  rewrite bind_Ok. rewrite re_sub_plain;
    [done|apply unmatched_reference_needs_open|by apply no_open_contains].
Qed.

(** X10: A reference to a name that no field has is removed, unless it has
    the form of an image-occlusion shape: around text without braces,
    for a name that is neither the tags, nor the front side on the
    answer side, nor a cloze block. *)
Theorem render_missing_reference
    pre name post fields tags is_answer front_side_html :
  no_open pre → name ≠ [] → brace_free name → brace_free post →
  name ≠ txt "Tags" → is_answer = false ∨ name ≠ txt "FrontSide" →
  starts_with (txt "cloze:") name = false →
  occlusion_ahead (name ++ txt "}}" ++ post) = false →
  Forall (λ item, returns (parse_template item.2)) fields →
  name ∉ fields.*1 →
  render (pre ++ txt "{{" ++ name ++ txt "}}" ++ post) fields tags is_answer
         front_side_html
  = Ok (pre ++ post).
Proof.
  intros Hpre Hne Hname Hpost Htags Hfront Hcloze Hocc Hall Hnot.
  rewrite render_reference_head by done.
  unfold _render_fields. rewrite substitute_fields_other by done.
  rewrite bind_Ok.
  assert (unmatched_reference (txt "{{" ++ name ++ txt "}}" ++ post) =
          Some ([], (2 + length name + 2)%nat)) as Hsite.
  { unfold unmatched_reference. rewrite starts_with_app.
    rewrite (drop_app_length' (txt "{{")) by done.
    rewrite Hocc, run_to_close_run; [done|done|].
    eapply Forall_impl; [exact Hname|]. by intros c [_ ?]. }
  rewrite (re_sub_site_matched _ pre _ _ _
             unmatched_reference_needs_open Hpre Hsite);
    [|by rewrite txt_open|lia].
  assert (drop (2 + length name + 2) (txt "{{" ++ name ++ txt "}}" ++ post)
          = post) as ->.
  { rewrite reference_assoc.
    apply drop_app_length'. rewrite !length_app.
    change (length (txt "{{")) with 2%nat.
    change (length (txt "}}")) with 2%nat. lia. }
  rewrite re_sub_plain; [done|apply unmatched_reference_needs_open|].
  apply no_open_contains. by apply brace_free_no_open.
Qed.
End reference_theorems.

Section block_theorems.
Context `{Runtime}.

Lemma brace_free_Tags : brace_free (txt "Tags").
Proof. by apply (bool_decide_unpack _); vm_compute. Qed.

(** X11: The tags reference is replaced by the tags joined with spaces:
    around text without braces, and for tags without opening brace. *)
Theorem render_tags_reference pre post fields tags is_answer front_side_html :
  no_open pre → brace_free post →
  no_open (str_join (txt " ") (default [] tags)) →
  Forall (λ item, returns (parse_template item.2)) fields →
  render (pre ++ txt "{{Tags}}" ++ post) fields tags is_answer front_side_html
  = Ok (pre ++ str_join (txt " ") (default [] tags) ++ post).
Proof.
  intros Hpre Hpost Htags Hall. unfold render.
  set (tags_str := str_join (txt " ") (default [] tags)) in *.
  change (txt "{{Tags}}" ++ post)
    with (txt "{{" ++ txt "Tags" ++ txt "}}" ++ post).
  assert ((if is_answer &&
              contains (txt "{{FrontSide}}")
                (pre ++ txt "{{" ++ txt "Tags" ++ txt "}}" ++ post)
           then str_replace (txt "{{FrontSide}}") front_side_html
                  (pre ++ txt "{{" ++ txt "Tags" ++ txt "}}" ++ post)
           else pre ++ txt "{{" ++ txt "Tags" ++ txt "}}" ++ post)
          = pre ++ txt "{{" ++ txt "Tags" ++ txt "}}" ++ post) as ->.
  { destruct (_ && _); [|done].
    apply (str_replace_other (txt "FrontSide"));
      [done|apply brace_free_Tags|done|done]. }
  assert (no_open (pre ++ tags_str ++ post)) as Hplain.
  { apply no_open_app. split; [done|]. apply no_open_app.
    split; [done|by apply brace_free_no_open]. }
  assert (str_replace (txt "{{Tags}}") tags_str
            (pre ++ txt "{{" ++ txt "Tags" ++ txt "}}" ++ post)
          = pre ++ tags_str ++ post) as ->.
  { unfold str_replace.
    rewrite (re_sub_site_matched _ pre _ tags_str 8).
    - rewrite reference_assoc.
      rewrite (drop_app_length' (txt "{{" ++ txt "Tags" ++ txt "}}")) by done.
      rewrite re_sub_plain;
        [done|apply (lit_match_needs_open (txt "Tags}}"))|].
      apply no_open_contains. by apply brace_free_no_open.
    - apply (lit_match_needs_open (txt "Tags}}")).
    - done.
    - unfold lit_match. rewrite reference_assoc.
      change (txt "{{Tags}}") with (txt "{{" ++ txt "Tags" ++ txt "}}").
      by rewrite starts_with_app.
    - by rewrite txt_open.
    - lia. }
  apply render_tail_plain; [by apply no_open_contains|done].
Qed.

Lemma str_find_app (body c rest : text) :
  no_open body →
  str_find (ch "{" :: c) (body ++ (ch "{" :: c) ++ rest) = Some (length body).
Proof.
  induction 1 as [|a body Ha _ IH].
  - change (str_find (ch "{" :: c) ([] ++ (ch "{" :: c) ++ rest))
      with (str_find (ch "{" :: c) ((ch "{" :: c) ++ rest)).
    destruct ((ch "{" :: c) ++ rest) as [|x l] eqn:Heq; [done|].
    change (str_find (ch "{" :: c) (x :: l)) with
      (if starts_with (ch "{" :: c) (x :: l) then Some 0%nat
       else S <$> str_find (ch "{" :: c) l).
    by rewrite <- Heq, starts_with_app.
  - change (str_find (ch "{" :: c) ((a :: body) ++ (ch "{" :: c) ++ rest)) with
      (if (ch "{" =? a) && starts_with c (body ++ (ch "{" :: c) ++ rest)
       then Some 0%nat
       else S <$> str_find (ch "{" :: c) (body ++ (ch "{" :: c) ++ rest)).
    rewrite IH. apply N.eqb_neq in Ha. rewrite N.eqb_sym in Ha.
    by rewrite Ha.
Qed.

Lemma block_text_sites (marker : N) (name body post : text) :
  block_text marker name body ++ post =
  txt "{{" ++ ((marker :: name ++ txt "}}" ++ body) ++ txt "{{" ++
               (ch "/" :: name ++ txt "}}" ++ post)).
Proof.
  unfold block_text. rewrite <- !app_assoc. simpl. rewrite <- !app_assoc.
  done.
Qed.

Lemma starts_with_open_ne (a : N) (rest : text) :
  a ≠ ch "{" → starts_with (txt "{{") (a :: rest) = false.
Proof.
  intros Ha. destruct (starts_with (txt "{{") (a :: rest)) eqn:Hs; [|done].
  apply starts_with_open_inv in Hs as [r [= -> _]]. done.
Qed.

Lemma starts_with_open_second (b : N) (rest : text) :
  b ≠ ch "{" → starts_with (txt "{{") (ch "{" :: b :: rest) = false.
Proof.
  intros Hb. destruct (starts_with (txt "{{") _) eqn:Hs; [|done].
  apply starts_with_open_inv in Hs as [r [= -> _]]. done.
Qed.

(** A [{{] at which the pattern does not match is copied. *)
Lemma re_sub_site_skip (m : text → option (text * nat)) (A : text) b B :
  needs_open m → no_open A → b ≠ ch "{" →
  m (txt "{{" ++ b :: B) = None →
  re_sub m (A ++ txt "{{" ++ b :: B) = A ++ txt "{{" ++ re_sub m (b :: B).
Proof.
  intros Hm HA Hb Hsite.
  rewrite (app_assoc A (txt "{{")), sub_from_app_unmatched.
  - by rewrite <- app_assoc.
  - intros k Hk. rewrite <- app_assoc.
    rewrite length_app in Hk. change (length (txt "{{")) with 2%nat in Hk.
    destruct (decide (k < length A)%nat) as [HkA|HkA].
    + apply Hm. rewrite drop_app_le by lia.
      destruct (lookup_lt_is_Some_2 A k HkA) as [a Ha].
      rewrite (drop_S _ _ _ Ha). simpl. apply starts_with_open_ne.
      unfold no_open in HA. rewrite Forall_forall in HA.
      apply HA. by eapply list_elem_of_lookup_2.
    + rewrite drop_app_ge by lia.
      destruct (k - length A)%nat as [|[|k']] eqn:Hkk; [done| |lia].
      apply Hm. change (drop 1 (txt "{{" ++ b :: B)) with (ch "{" :: b :: B).
      by apply starts_with_open_second.
Qed.

(** A pattern that matches at neither of the two [{{] of a block leaves
    it as it is. *)
Lemma re_sub_block_unmatched (m : text → option (text * nat))
    (marker : N) (pre name body post : text) :
  needs_open m → no_open pre → marker ≠ ch "{" →
  no_open name → no_open body → no_open post →
  m (block_text marker name body ++ post) = None →
  m (txt "{{/" ++ name ++ txt "}}" ++ post) = None →
  re_sub m (pre ++ block_text marker name body ++ post)
  = pre ++ block_text marker name body ++ post.
Proof.
  intros Hm Hpre Hmarker Hname Hbody Hpost Hsite1 Hsite2.
  assert (no_open (marker :: name ++ txt "}}" ++ body)) as HA2.
  { constructor; [done|]. apply no_open_app. split; [done|].
    apply no_open_app. split; [apply no_open_close|done]. }
  assert (no_open (ch "/" :: name ++ txt "}}" ++ post)) as HB2.
  { constructor; [done|]. apply no_open_app. split; [done|].
    apply no_open_app. split; [apply no_open_close|done]. }
  rewrite block_text_sites in Hsite1 |- *.
  change ((marker :: name ++ txt "}}" ++ body) ++ txt "{{" ++
          ch "/" :: name ++ txt "}}" ++ post)
    with (marker :: ((name ++ txt "}}" ++ body) ++ txt "{{" ++
                     ch "/" :: name ++ txt "}}" ++ post)) in Hsite1 |- *.
  rewrite re_sub_site_skip by done.
  change (marker :: ((name ++ txt "}}" ++ body) ++ txt "{{" ++
                     ch "/" :: name ++ txt "}}" ++ post))
    with ((marker :: name ++ txt "}}" ++ body) ++ txt "{{" ++
          ch "/" :: name ++ txt "}}" ++ post).
  rewrite re_sub_site_unmatched; done.
Qed.

Lemma starts_with_third (x0 a : N) (p rest : text) :
  x0 ≠ a → starts_with (txt "{{" ++ x0 :: p) (txt "{{" ++ a :: rest) = false.
Proof.
  intros Hne. rewrite starts_with_app_same. simpl.
  apply N.eqb_neq in Hne. by rewrite Hne.
Qed.

Lemma lit_match_third (x0 a : N) (p new rest : text) :
  x0 ≠ a → lit_match (txt "{{" ++ x0 :: p) new (txt "{{" ++ a :: rest) = None.
Proof. intros Hne. unfold lit_match. by rewrite starts_with_third. Qed.

Lemma cloze_block_third fields (a : N) (rest : text) :
  ch "c" ≠ a → cloze_block fields (txt "{{" ++ a :: rest) = None.
Proof.
  intros Hne. unfold cloze_block.
  change (txt "{{cloze:") with (txt "{{" ++ ch "c" :: txt "loze:").
  by rewrite starts_with_third.
Qed.

Lemma conditional_third (positive : bool) fields (a : N) (rest : text) :
  (if positive then ch "#" else ch "^") ≠ a →
  conditional positive fields (txt "{{" ++ a :: rest) = None.
Proof.
  intros Hne. unfold conditional.
  change (txt "{{" ++ [if positive then ch "#" else ch "^"])
    with (txt "{{" ++ (if positive then ch "#" else ch "^") :: []).
  by rewrite starts_with_third.
Qed.

Lemma block_text_first (marker : N) (name body post : text) :
  block_text marker name body ++ post =
  txt "{{" ++ marker :: (name ++ txt "}}" ++ body ++
                         txt "{{/" ++ name ++ txt "}}" ++ post).
Proof. unfold block_text. by rewrite <- !app_assoc. Qed.

Lemma block_text_length (marker : N) (name body : text) :
  length (block_text marker name body) =
  (3 + length name + 2 + length body + length (txt "{{/" ++ name ++ txt "}}"))%nat.
Proof.
  unfold block_text. rewrite !length_app.
  change (length (txt "{{")) with 2%nat.
  change (length (txt "}}")) with 2%nat. simpl. lia.
Qed.

(** The block is a match of the pattern of its marker. *)
Lemma conditional_block (positive : bool) fields (name body post : text) :
  name ≠ [] → brace_free name → no_open body →
  conditional positive fields
    (block_text (if positive then ch "#" else ch "^") name body ++ post)
  = Some (if bool_decide
               (bool_decide (strip (dict_get fields (strip name) []) = [])
                = positive)
          then [] else body,
          length (block_text (if positive then ch "#" else ch "^") name body)).
Proof.
  intros Hne Hname Hbody. rewrite block_text_length. unfold conditional.
  rewrite block_text_first.
  change (txt "{{" ++ (if positive then ch "#" else ch "^") ::
            name ++ txt "}}" ++ body ++ txt "{{/" ++ name ++ txt "}}" ++ post)
    with ((txt "{{" ++ [if positive then ch "#" else ch "^"]) ++
            name ++ txt "}}" ++ body ++ txt "{{/" ++ name ++ txt "}}" ++ post).
  rewrite starts_with_app.
  rewrite (drop_app_length'
             (txt "{{" ++ [if positive then ch "#" else ch "^"])) by done.
  rewrite run_to_close_run;
    [|done|eapply Forall_impl; [exact Hname|]; by intros c [_ ?]].
  change (txt "{{/" ++ name ++ txt "}}" ++ post)
    with (ch "{" :: ch "{" :: ch "/" :: (name ++ txt "}}" ++ post)).
  rewrite (app_assoc name (txt "}}") post).
  change (ch "{" :: ch "{" :: ch "/" :: ((name ++ txt "}}") ++ post))
    with ((ch "{" :: (ch "{" :: ch "/" :: name ++ txt "}}")) ++ post).
  change (txt "{{/" ++ name ++ txt "}}")
    with (ch "{" :: (ch "{" :: ch "/" :: name ++ txt "}}")).
  rewrite str_find_app by done.
  by rewrite take_app_length.
Qed.

(** X12: A conditional block is replaced by its body or by nothing: a block
    [{{#Name}}] shows its body when the field of the name, with its
    surrounding whitespace left out, has a value that is not blank; a
    block [{{^Name}}] shows it when the value is blank or the field is
    missing.  Around and inside the block the text has no opening
    brace. *)
Theorem render_conditional_block
    (positive : bool) pre name body post fields tags is_answer front_side_html :
  no_open pre → name ≠ [] → brace_free name → no_open body → no_open post →
  Forall (λ item, returns (parse_template item.2)) fields →
  render (pre ++ block_text (if positive then ch "#" else ch "^") name body
              ++ post) fields tags is_answer front_side_html
  = Ok (pre ++
        (if bool_decide
              (bool_decide (strip (dict_get fields (strip name) []) = [])
               = positive)
         then [] else body) ++ post).
Proof.
  intros Hpre Hne Hname Hbody Hpost Hall.
  set (marker := if positive then ch "#" else ch "^").
  set (T := pre ++ block_text marker name body ++ post).
  set (shown := if bool_decide _ then [] else body).
  assert (marker ≠ ch "{") as Hmarker by (subst marker; by destruct positive).
  assert (no_open name) as Hname' by by apply brace_free_no_open.
  assert (∀ m, needs_open m →
               (∀ a rest, a = marker ∨ a = ch "/" →
                          m (txt "{{" ++ a :: rest) = None) →
               re_sub m T = T) as Hskip.
  { intros m Hm Hthird. subst T. apply re_sub_block_unmatched; try done.
    - rewrite block_text_first. apply Hthird. by left.
    - change (txt "{{/" ++ name ++ txt "}}" ++ post)
        with (txt "{{" ++ ch "/" :: (name ++ txt "}}" ++ post)).
      apply Hthird. by right. }
  assert (no_open (pre ++ shown ++ post)) as Hplain.
  { apply no_open_app. split; [done|]. apply no_open_app. split; [|done].
    subst shown. destruct (bool_decide _); [constructor|done]. }
  assert (re_sub (conditional positive fields) T = pre ++ shown ++ post)
    as Hmatch.
  { subst T marker.
    rewrite (re_sub_site_matched _ pre _ _ _
               (conditional_needs_open positive fields) Hpre
               (conditional_block positive fields name body post
                  Hne Hname Hbody)).
    - rewrite drop_app_length.
      rewrite re_sub_plain;
        [done|apply conditional_needs_open|by apply no_open_contains].
    - by rewrite block_text_first, txt_open.
    - rewrite block_text_length. lia. }
  unfold render. fold T.
  assert ((if is_answer && contains (txt "{{FrontSide}}") T
           then str_replace (txt "{{FrontSide}}") front_side_html T
           else T) = T) as ->.
  { destruct (_ && _); [|done]. apply Hskip.
    - apply (lit_match_needs_open (txt "FrontSide}}")).
    - intros a rest Ha.
      apply (lit_match_third (ch "F") a (txt "rontSide}}")).
      subst marker. destruct Ha as [->| ->]; by destruct positive. }
  assert (str_replace (txt "{{Tags}}")
            (str_join (txt " ") (default [] tags)) T = T) as ->.
  { apply Hskip.
    - apply (lit_match_needs_open (txt "Tags}}")).
    - intros a rest Ha. apply (lit_match_third (ch "T") a (txt "ags}}")).
      subst marker. destruct Ha as [->| ->]; by destruct positive. }
  unfold _render_cloze. rewrite Hskip.
  2:{ apply cloze_block_needs_open. }
  2:{ intros a rest Ha. apply cloze_block_third.
      subst marker. destruct Ha as [->| ->]; by destruct positive. }
  assert (_render_conditionals T fields = pre ++ shown ++ post) as ->.
  { unfold _render_conditionals. destruct positive.
    - rewrite (Hskip (conditional false fields)).
      + exact Hmatch.
      + apply conditional_needs_open.
      + intros a rest Ha. apply conditional_third.
        subst marker. by destruct Ha as [->| ->].
    - rewrite Hmatch.
      rewrite re_sub_plain;
        [done|apply conditional_needs_open|by apply no_open_contains]. }
  unfold _render_fields.
  rewrite substitute_fields_plain by (done || by apply no_open_contains).
  rewrite bind_Ok, re_sub_plain;
    [done|apply unmatched_reference_needs_open|by apply no_open_contains].
Qed.
End block_theorems.

Section renderer_more.
Context `{Runtime}.

Lemma list_index_below {A} (l : list A) (i : Z) :
  (i < - Z.of_nat (length l))%Z → list_index l i = Raise IndexError.
Proof.
  intros Hi. unfold list_index.
  destruct (Z.ltb_spec i 0) as [_|?]; [|lia].
  by destruct (Z.ltb_spec (i + Z.of_nat (length l)) 0) as [_|?]; [|lia].
Qed.

Lemma list_index_nonneg {A} (l : list A) (i : Z) :
  (0 ≤ i)%Z →
  list_index l i = match l !! Z.to_nat i with
                   | Some x => Ok x
                   | None => Raise IndexError
                   end.
Proof.
  intros Hi. unfold list_index.
  destruct (Z.ltb_spec i 0) as [?|_]; [lia|].
  by destruct (Z.ltb_spec i 0) as [?|_]; [lia|].
Qed.

Lemma list_index_raises {A} (l : list A) (i : Z) (e : exn) :
  list_index l i = Raise e → e = IndexError.
Proof.
  unfold list_index. destruct (_ <? 0)%Z; [congruence|].
  destruct (l !! _); congruence.
Qed.

Lemma dict_set_fresh {V} (d : dict V) k (v : V) :
  k ∉ d.*1 → dict_set d k v = d ++ [(k, v)].
Proof.
  induction d as [|[k' v'] d IH]; simpl; [done|]. intros Hk.
  apply not_elem_of_cons in Hk as [Hne Hk].
  rewrite bool_decide_eq_false_2 by done. by rewrite IH.
Qed.

(** The value the field map gives to a field definition. *)
Lemma build_field_map_from_fresh acc note flds :
  Forall (λ f, (0 ≤ FieldModel.ord f)%Z) flds →
  NoDup (acc.*1 ++ (FieldModel.name <$> flds)) →
  build_field_map_from acc note flds =
  Ok (acc ++ ((λ f, (FieldModel.name f,
                     default [] (Note.fields note !! Z.to_nat (FieldModel.ord f))))
              <$> flds)).
Proof.
  intros Hord. revert acc.
  induction Hord as [|f flds Hf _ IH]; intros acc Hdup.
  { simpl. by rewrite app_nil_r. }
  change (build_field_map_from acc note (f :: flds)) with
    ((if (FieldModel.ord f <? Z.of_nat (length (Note.fields note)))%Z
      then list_index (Note.fields note) (FieldModel.ord f)
      else Ok []) ≫= λ v,
     build_field_map_from (dict_set acc (FieldModel.name f) v) note flds).
  assert ((if (FieldModel.ord f <? Z.of_nat (length (Note.fields note)))%Z
           then list_index (Note.fields note) (FieldModel.ord f)
           else Ok [])
          = Ok (default [] (Note.fields note !! Z.to_nat (FieldModel.ord f))))
    as ->.
  { destruct (Z.ltb_spec (FieldModel.ord f)
                         (Z.of_nat (length (Note.fields note)))) as [Hlt|Hge].
    - rewrite list_index_nonneg by done.
      destruct (lookup_lt_is_Some_2 (Note.fields note)
                  (Z.to_nat (FieldModel.ord f))) as [v ->]; [lia|done].
    - rewrite lookup_ge_None_2 by lia. done. }
  rewrite bind_Ok.
  rewrite fmap_cons in Hdup.
  assert (FieldModel.name f ∉ acc.*1) as Hfresh.
  { apply NoDup_app in Hdup as (_ & Hdis & _). intros Hin.
    apply (Hdis _ Hin). apply list_elem_of_here. }
  rewrite dict_set_fresh by done.
  rewrite IH.
  - by rewrite <- app_assoc.
  - rewrite fmap_app, <- app_assoc. exact Hdup.
Qed.

(** X13: The field map gives every field name the value of the note at the
    ordinal of the field, and the empty text where the note has no such
    value; the names are in the order of the field definitions.  The
    names are distinct and no ordinal is negative. *)
Theorem build_field_map_lookup (note : Note.t) (note_model : NoteModel.t) :
  Forall (λ f, (0 ≤ FieldModel.ord f)%Z) (NoteModel.flds note_model) →
  NoDup (FieldModel.name <$> NoteModel.flds note_model) →
  _build_field_map note note_model =
  Ok ((λ f, (FieldModel.name f,
             default [] (Note.fields note !! Z.to_nat (FieldModel.ord f))))
      <$> NoteModel.flds note_model).
Proof.
  intros Hord Hdup. unfold _build_field_map.
  by rewrite build_field_map_from_fresh.
Qed.

Lemma build_field_map_from_cases acc note flds :
  match build_field_map_from acc note flds with
  | Ok _ =>
      Forall (λ f, (- Z.of_nat (length (Note.fields note))
                    ≤ FieldModel.ord f)%Z) flds
  | Raise e =>
      e = IndexError ∧
      Exists (λ f, (FieldModel.ord f
                    < - Z.of_nat (length (Note.fields note)))%Z) flds
  end.
Proof.
  revert acc. induction flds as [|f flds IH]; intros acc.
  { simpl. constructor. }
  change (build_field_map_from acc note (f :: flds)) with
    ((if (FieldModel.ord f <? Z.of_nat (length (Note.fields note)))%Z
      then list_index (Note.fields note) (FieldModel.ord f)
      else Ok []) ≫= λ v,
     build_field_map_from (dict_set acc (FieldModel.name f) v) note flds).
  destruct (Z.ltb_spec (FieldModel.ord f)
                       (Z.of_nat (length (Note.fields note)))) as [Hlt|Hge].
  - destruct (decide (- Z.of_nat (length (Note.fields note))
                      ≤ FieldModel.ord f)%Z) as [Hlow|Hlow].
    + destruct (list_index_in_range (Note.fields note) (FieldModel.ord f))
        as (v & -> & _); [lia|].
      rewrite bind_Ok.
      specialize (IH (dict_set acc (FieldModel.name f) v)).
      destruct (build_field_map_from _ note flds).
      * by constructor.
      * destruct IH as [-> IH]. split; [done|]. by apply Exists_cons_tl.
    + rewrite list_index_below by lia. simpl.
      split; [done|]. apply Exists_cons_hd. lia.
  - rewrite bind_Ok.
    specialize (IH (dict_set acc (FieldModel.name f) [])).
    destruct (build_field_map_from _ note flds).
    + constructor; [lia|done].
    + destruct IH as [-> IH]. split; [done|]. by apply Exists_cons_tl.
Qed.

(** X14: The field map is built unless a field definition has an ordinal
    below minus the number of values of the note: then, and only then,
    building it raises, and what it raises is [IndexError].  (An
    ordinal from minus that number up to -1 counts from the end of the
    values.) *)
Theorem build_field_map_raises_iff (note : Note.t) (note_model : NoteModel.t) :
  (returns (_build_field_map note note_model) ↔
   Forall (λ f, (- Z.of_nat (length (Note.fields note))
                 ≤ FieldModel.ord f)%Z) (NoteModel.flds note_model)) ∧
  (_build_field_map note note_model = Raise IndexError ↔
   Exists (λ f, (FieldModel.ord f
                 < - Z.of_nat (length (Note.fields note)))%Z)
          (NoteModel.flds note_model)) ∧
  (∀ e, _build_field_map note note_model = Raise e → e = IndexError).
Proof.
  unfold _build_field_map.
  pose proof (build_field_map_from_cases [] note (NoteModel.flds note_model))
    as Hc.
  destruct (build_field_map_from [] note (NoteModel.flds note_model))
    as [fm|e].
  - split; [|split].
    + split; [done|]. intros _. apply returns_Ok.
    + split; [done|]. intros Hex. exfalso.
      apply Exists_exists in Hex as (f & Hf & Hlt).
      rewrite Forall_forall in Hc. specialize (Hc f Hf). lia.
    + done.
  - destruct Hc as [-> Hex]. split; [|split].
    + split.
      * intros Hr. by apply not_returns_Raise in Hr.
      * intros Hall. exfalso.
        apply Exists_exists in Hex as (f & Hf & Hlt).
        rewrite Forall_forall in Hall. specialize (Hall f Hf). lia.
    + done.
    + congruence.
Qed.

(** X15: The template index of [render_card]: without templates every call
    raises [IndexError]; an index from the number of templates on stands
    for the first template; an index below minus the number of templates
    raises [IndexError]. *)
Theorem render_card_template_index (r : renderer) (note : Note.t)
    (note_model : NoteModel.t) (template_idx : Z) :
  (NoteModel.tmpls note_model = [] →
   render_card r note note_model template_idx = Raise IndexError) ∧
  ((Z.of_nat (length (NoteModel.tmpls note_model)) ≤ template_idx)%Z →
   render_card r note note_model template_idx =
   render_card r note note_model 0) ∧
  ((template_idx < - Z.of_nat (length (NoteModel.tmpls note_model)))%Z →
   render_card r note note_model template_idx = Raise IndexError).
Proof.
  split; [|split].
  - intros Hnil. unfold render_card, clamp_template_idx. rewrite Hnil.
    simpl length. unfold list_index. simpl length.
    destruct (Z.leb_spec (Z.of_nat 0) template_idx) as [Hle|Hlt]; [done|].
    destruct (Z.ltb_spec template_idx 0) as [_|?]; [|lia].
    by destruct (Z.ltb_spec (template_idx + Z.of_nat 0) 0) as [_|?]; [|lia].
  - intros Hle. unfold render_card, clamp_template_idx.
    destruct (Z.leb_spec (Z.of_nat (length (NoteModel.tmpls note_model)))
                template_idx) as [_|?]; [|lia].
    by destruct (Z.leb_spec (Z.of_nat (length (NoteModel.tmpls note_model)))
                   0).
  - intros Hlt. unfold render_card, clamp_template_idx.
    destruct (Z.leb_spec (Z.of_nat (length (NoteModel.tmpls note_model)))
                template_idx) as [?|_]; [lia|].
    by rewrite list_index_below.
Qed.

Lemma render_cards_from_Ok r note note_model cards idxs all :
  render_cards_from r note note_model cards idxs = Ok all ↔
  ∃ new, all = cards ++ new ∧
         Forall2 (λ i card,
                    render_card r note note_model (Z.of_nat i) = Ok card)
                 idxs new.
Proof.
  revert cards. induction idxs as [|i idxs IH]; intros cards.
  - simpl. split.
    + intros [= <-]. exists []. by rewrite app_nil_r.
    + intros (new & -> & Hnew). apply Forall2_nil_inv_l in Hnew as ->.
      by rewrite app_nil_r.
  - change (render_cards_from r note note_model cards (i :: idxs)) with
      (render_card r note note_model (Z.of_nat i) ≫= λ card,
       render_cards_from r note note_model (cards ++ [card]) idxs).
    destruct (render_card r note note_model (Z.of_nat i)) as [card|e] eqn:Hi.
    + rewrite bind_Ok, IH. split.
      * intros (new & -> & Hnew). exists (card :: new).
        split; [by rewrite <- app_assoc|by constructor].
      * intros (new & -> & Hnew).
        apply Forall2_cons_inv_l in Hnew as (card' & new' & Hc & Hnew & ->).
        assert (card' = card) as -> by congruence.
        exists new'. split; [by rewrite <- app_assoc|done].
    + simpl. split; [done|]. intros (new & -> & Hnew).
      apply Forall2_cons_inv_l in Hnew as (card' & new' & Hc & _ & _).
      congruence.
Qed.

Lemma render_cards_from_Raise r note note_model cards idxs e :
  render_cards_from r note note_model cards idxs = Raise e ↔
  ∃ earlier i rest,
    idxs = earlier ++ i :: rest ∧
    Forall (λ j, returns (render_card r note note_model (Z.of_nat j))) earlier ∧
    render_card r note note_model (Z.of_nat i) = Raise e.
Proof.
  revert cards. induction idxs as [|i idxs IH]; intros cards.
  - simpl. split; [done|]. intros (earlier & j & rest & Heq & _).
    by destruct earlier.
  - change (render_cards_from r note note_model cards (i :: idxs)) with
      (render_card r note note_model (Z.of_nat i) ≫= λ card,
       render_cards_from r note note_model (cards ++ [card]) idxs).
    destruct (render_card r note note_model (Z.of_nat i)) as [card|e'] eqn:Hi.
    + rewrite bind_Ok, IH. split.
      * intros (earlier & j & rest & -> & Hdone & Hj).
        exists (i :: earlier), j, rest. split; [done|].
        split; [|done]. constructor; [|done]. rewrite Hi. apply returns_Ok.
      * intros (earlier & j & rest & Heq & Hdone & Hj).
        destruct earlier as [|i' earlier]; simpl in Heq.
        { injection Heq as -> ->. congruence. }
        injection Heq as -> ->. apply Forall_cons in Hdone as [_ Hdone].
        by exists earlier, j, rest.
    + simpl. split.
      * intros [= ->]. exists [], i, idxs. by repeat split.
      * intros (earlier & j & rest & Heq & Hdone & Hj).
        destruct earlier as [|i' earlier]; simpl in Heq.
        { injection Heq as -> ->. congruence. }
        injection Heq as -> ->. apply Forall_cons in Hdone as [Hi' _].
        rewrite Hi in Hi'. by apply not_returns_Raise in Hi'.
Qed.

(** X16: [render_all_cards] returns the cards of the templates 0, 1, ... in
    this order, one for each template of the model, when every one of
    them is rendered; otherwise it raises what the first template that is
    not rendered raises. *)
Theorem render_all_cards_spec (r : renderer) (note : Note.t)
    (note_model : NoteModel.t) :
  (∀ cards,
     render_all_cards r note note_model = Ok cards ↔
     Forall2 (λ i card, render_card r note note_model (Z.of_nat i) = Ok card)
             (seq 0 (length (NoteModel.tmpls note_model))) cards) ∧
  (∀ cards,
     render_all_cards r note note_model = Ok cards →
     length cards = length (NoteModel.tmpls note_model)) ∧
  (∀ e,
     render_all_cards r note note_model = Raise e ↔
     ∃ i, (i < length (NoteModel.tmpls note_model))%nat ∧
          render_card r note note_model (Z.of_nat i) = Raise e ∧
          ∀ j, (j < i)%nat →
               returns (render_card r note note_model (Z.of_nat j))).
Proof.
  unfold render_all_cards.
  set (n := length (NoteModel.tmpls note_model)).
  assert (∀ cards,
     render_cards_from r note note_model [] (seq 0 n) = Ok cards ↔
     Forall2 (λ i card, render_card r note note_model (Z.of_nat i) = Ok card)
             (seq 0 n) cards) as Hok.
  { intros cards. rewrite render_cards_from_Ok. split.
    - by intros (new & -> & Hnew).
    - intros Hnew. by exists cards. }
  split; [done|]. split.
  - intros cards Hcards. apply Hok in Hcards.
    apply Forall2_length in Hcards. by rewrite length_seq in Hcards.
  - intros e. rewrite render_cards_from_Raise. split.
    + intros (earlier & i & rest & Heq & Hdone & Hi).
      assert (length earlier = i ∧ (i < n)%nat) as [Hlen Hlt].
      { assert (seq 0 n !! length earlier = Some i) as Hl.
        { rewrite Heq. by rewrite list_lookup_middle. }
        apply lookup_seq in Hl. lia. }
      exists i. split; [done|]. split; [done|].
      intros j Hj. rewrite Forall_forall in Hdone. apply Hdone.
      assert (seq 0 n !! j = Some j) as Hl by (apply lookup_seq; lia).
      rewrite Heq, lookup_app_l in Hl by lia.
      by eapply list_elem_of_lookup_2.
    + intros (i & Hlt & Hi & Hbefore).
      exists (seq 0 i), i, (seq (S i) (n - S i)). split; [|split; [|done]].
      * replace n with (i + S (n - S i))%nat at 1 by lia.
        by rewrite seq_app.
      * apply Forall_forall. intros j Hj. apply Hbefore.
        apply elem_of_seq in Hj. lia.
Qed.
End renderer_more.

Section occlusion_more.
Context `{Runtime}.

Lemma str_split_plain (sep : N) (p : text) :
  sep ∉ p → str_split sep p = [p].
Proof.
  induction p as [|c p IH]; intros Hp; simpl; [done|].
  apply not_elem_of_cons in Hp as [Hne Hp].
  apply not_eq_sym, N.eqb_neq in Hne. rewrite Hne.
  by rewrite IH.
Qed.

Lemma str_split_app (sep : N) (p s : text) :
  sep ∉ p → str_split sep (p ++ sep :: s) = p :: str_split sep s.
Proof.
  induction p as [|c p IH]; intros Hp; simpl.
  - by rewrite N.eqb_refl.
  - apply not_elem_of_cons in Hp as [Hne Hp].
    apply not_eq_sym, N.eqb_neq in Hne. rewrite Hne.
    by rewrite IH.
Qed.

(** Splitting what was joined gives the parts back. *)
Lemma str_split_join (sep : N) (parts : list text) :
  parts ≠ [] → Forall (λ p, sep ∉ p) parts →
  str_split sep (str_join [sep] parts) = parts.
Proof.
  intros Hne Hparts. induction Hparts as [|p parts Hp Hparts IH]; [done|].
  destruct parts as [|q parts].
  - simpl. by apply str_split_plain.
  - change (str_join [sep] (p :: q :: parts))
      with (p ++ sep :: str_join [sep] (q :: parts)).
    rewrite str_split_app by done. by rewrite IH.
Qed.

Lemma str_find_char (x : N) (p k rest : text) :
  x ∉ k → str_find (x :: p) (k ++ (x :: p) ++ rest) = Some (length k).
Proof.
  induction k as [|a k IH]; intros Hk.
  - change (str_find (x :: p) ([] ++ (x :: p) ++ rest))
      with (str_find (x :: p) ((x :: p) ++ rest)).
    destruct ((x :: p) ++ rest) as [|y l] eqn:Heq; [done|].
    change (str_find (x :: p) (y :: l)) with
      (if starts_with (x :: p) (y :: l) then Some 0%nat
       else S <$> str_find (x :: p) l).
    by rewrite <- Heq, starts_with_app.
  - apply not_elem_of_cons in Hk as [Hne Hk].
    change (str_find (x :: p) ((a :: k) ++ (x :: p) ++ rest)) with
      (if (x =? a) && starts_with p (k ++ (x :: p) ++ rest)
       then Some 0%nat
       else S <$> str_find (x :: p) (k ++ (x :: p) ++ rest)).
    rewrite IH by done. apply N.eqb_neq in Hne. by rewrite Hne.
Qed.

Lemma contains_unfold (p s : text) :
  contains p s = starts_with p s ||
                 match s with [] => false | _ :: s' => contains p s' end.
Proof. by destruct s. Qed.

Lemma contains_app_r (p a b : text) : contains p (a ++ p ++ b) = true.
Proof.
  induction a as [|c a IH].
  - change ([] ++ p ++ b) with (p ++ b).
    by rewrite contains_unfold, starts_with_app.
  - change ((c :: a) ++ p ++ b) with (c :: (a ++ p ++ b)).
    rewrite contains_cons, IH. apply orb_true_r.
Qed.

Lemma param_step_text (params : dict text) (kv : text * text) :
  ch "=" ∉ kv.1 → kv.1 ∉ params.*1 →
  param_step params (param_text kv) = params ++ [kv].
Proof.
  destruct kv as [k v]. simpl. intros Hk Hfresh.
  unfold param_step, param_text. simpl fst. simpl snd.
  rewrite (contains_app_r (txt "=") k v).
  change (txt "=") with (ch "=" :: []).
  rewrite (str_find_char (ch "=") [] k v Hk).
  rewrite take_app_length.
  replace (S (length k)) with (length k + 1)%nat by lia.
  rewrite <- drop_drop, drop_app_length.
  change (drop 1 ([ch "="] ++ v)) with v.
  by apply dict_set_fresh.
Qed.

Lemma param_steps_text (params : dict text) (kvs : list (text * text)) :
  NoDup (params.*1 ++ kvs.*1) →
  Forall (λ kv, ch "=" ∉ kv.1) kvs →
  foldl param_step params (param_text <$> kvs) = params ++ kvs.
Proof.
  intros Hdup Hkvs. revert params Hdup.
  induction Hkvs as [|kv kvs Hkv _ IH]; intros params Hdup.
  { simpl. by rewrite app_nil_r. }
  rewrite fmap_cons in Hdup |- *. simpl foldl.
  rewrite param_step_text; [|done|].
  - rewrite IH; [by rewrite <- app_assoc|].
    by rewrite fmap_app, <- app_assoc.
  - apply NoDup_app in Hdup as (_ & Hdis & _). intros Hin.
    apply (Hdis _ Hin). apply list_elem_of_here.
Qed.

Lemma param_text_colon_free (kv : text * text) :
  ch ":" ∉ kv.1 → ch ":" ∉ kv.2 → ch ":" ∉ param_text kv.
Proof.
  intros Hk Hv. unfold param_text. rewrite !elem_of_app.
  intros [?|[Heq|?]]; [done| |done].
  by apply list_elem_of_singleton in Heq.
Qed.

Lemma parse_params_text (kvs : list (text * text)) :
  NoDup kvs.*1 →
  Forall (λ kv, (ch ":" ∉ kv.1) ∧ (ch "=" ∉ kv.1) ∧ (ch ":" ∉ kv.2)) kvs →
  parse_params (params_text kvs) = kvs.
Proof.
  intros Hdup Hkvs. unfold parse_params, params_text.
  change (foldl _ [] ?l) with (foldl param_step [] l).
  destruct kvs as [|kv kvs]; [done|].
  change (txt ":") with [ch ":"].
  rewrite str_split_join.
  - rewrite param_steps_text; [done|done|].
    eapply Forall_impl; [exact Hkvs|]. by intros ? (_ & ? & _).
  - done.
  - apply Forall_fmap. eapply Forall_impl; [exact Hkvs|].
    intros ? (? & _ & ?). by apply param_text_colon_free.
Qed.

Lemma str_split_join_app (sep : N) (parts : list text) (s : text) :
  parts ≠ [] → Forall (λ p, sep ∉ p) parts →
  str_split sep (str_join [sep] parts ++ sep :: s) = parts ++ str_split sep s.
Proof.
  intros Hne Hparts. induction Hparts as [|p parts Hp Hparts IH]; [done|].
  destruct parts as [|q parts].
  - simpl str_join. by rewrite str_split_app.
  - change (str_join [sep] (p :: q :: parts))
      with (p ++ sep :: str_join [sep] (q :: parts)).
    rewrite <- app_assoc.
    change ((sep :: str_join [sep] (q :: parts)) ++ sep :: s)
      with (sep :: (str_join [sep] (q :: parts) ++ sep :: s)).
    rewrite str_split_app by done. by rewrite IH.
Qed.

Lemma str_split_part (sep : N) (s p : text) (c : N) :
  p ∈ str_split sep s → c ∈ p → c ∈ s.
Proof.
  revert p. induction s as [|x s IH]; intros p Hp Hc; simpl in Hp.
  { apply list_elem_of_singleton in Hp as ->. done. }
  destruct (x =? sep).
  - apply elem_of_cons in Hp as [->|Hp].
    + by apply elem_of_nil in Hc.
    + apply elem_of_cons. right. by apply (IH p).
  - destruct (str_split sep s) as [|q qs] eqn:Hsplit.
    + apply list_elem_of_singleton in Hp as ->.
      apply list_elem_of_singleton in Hc as ->. apply list_elem_of_here.
    + apply elem_of_cons in Hp as [->|Hp].
      * apply elem_of_cons in Hc as [->|Hc]; [apply list_elem_of_here|].
        apply elem_of_cons. right. apply (IH q); [apply list_elem_of_here|done].
      * apply elem_of_cons. right. apply (IH p); [|done].
        apply elem_of_cons. by right.
Qed.

Lemma contains_char (c : N) (s : text) :
  c ∉ s → contains [c] s = false.
Proof.
  induction s as [|x s IH]; intros Hc; [done|].
  apply not_elem_of_cons in Hc as [Hne Hc].
  rewrite contains_cons, IH by done. simpl.
  apply N.eqb_neq in Hne. by rewrite Hne.
Qed.

Lemma param_steps_other (params : dict text) (parts : list text) :
  Forall (λ p, ch "=" ∉ p) parts → foldl param_step params parts = params.
Proof.
  induction 1 as [|p parts Hp _ IH]; [done|]. simpl foldl.
  unfold param_step at 2. change (txt "=") with [ch "="].
  by rewrite contains_char.
Qed.

(** X17: Parameters written as [key=value], joined with colons, are read
    back as they were: in their order, for distinct keys without colon
    and equals sign and values without colon.  What follows them after
    a colon is ignored when it has no equals sign. *)
Theorem parse_params_round_trip (kvs : list (text * text)) :
  NoDup kvs.*1 →
  Forall (λ kv, (ch ":" ∉ kv.1) ∧ (ch "=" ∉ kv.1) ∧ (ch ":" ∉ kv.2)) kvs →
  parse_params (params_text kvs) = kvs ∧
  ∀ rest, ch "=" ∉ rest →
          parse_params (params_text kvs ++ txt ":" ++ rest) = kvs.
Proof.
  intros Hdup Hkvs. split; [by apply parse_params_text|].
  intros rest Hrest. unfold parse_params.
  change (foldl _ [] ?l) with (foldl param_step [] l).
  assert (Forall (λ p, ch "=" ∉ p) (str_split (ch ":") rest)) as Hparts.
  { apply Forall_forall. intros p Hp Hc. apply Hrest.
    by apply (str_split_part (ch ":") rest p). }
  change (txt ":" ++ rest) with (ch ":" :: rest).
  destruct kvs as [|kv kvs].
  - change (params_text [] ++ ch ":" :: rest) with (ch ":" :: rest).
    change (str_split (ch ":") (ch ":" :: rest))
      with ([] :: str_split (ch ":") rest).
    apply param_steps_other.
    constructor; [apply not_elem_of_nil|done].
  - unfold params_text. change (txt ":") with [ch ":"].
    rewrite str_split_join_app.
    + rewrite foldl_app, param_steps_text; [by apply param_steps_other|done|].
      eapply Forall_impl; [exact Hkvs|]. by intros ? (_ & ? & _).
    + done.
    + apply Forall_fmap. eapply Forall_impl; [exact Hkvs|].
      intros ? (? & _ & ?). by apply param_text_colon_free.
Qed.

Lemma str_replace_contains (old new s : text) :
  old ≠ [] → contains old s = true →
  ∃ pre post, str_replace old new s = pre ++ new ++ post.
Proof.
  intros Hold. unfold str_replace, re_sub.
  induction s as [|c s IH]; intros Hc.
  { destruct old; [done|]. done. }
  rewrite contains_cons in Hc. simpl. unfold lit_match at 1.
  destruct (starts_with old (c :: s)) eqn:Hs.
  - exists [], (sub_from (lit_match old new) None (pred (length old)) s).
    done.
  - simpl in Hc. destruct (IH Hc) as (pre & post & ->).
    by exists (c :: pre), post.
Qed.

Lemma str_replace_first_contains (old new s : text) :
  old ≠ [] → contains old s = true →
  ∃ pre post, str_replace_first old new s = pre ++ new ++ post.
Proof.
  intros Hold. unfold str_replace_first.
  induction s as [|c s IH]; intros Hc.
  { destruct old; [done|]. done. }
  rewrite contains_cons in Hc. simpl. unfold lit_match at 1.
  destruct (starts_with old (c :: s)) eqn:Hs.
  - exists [], (sub_from (lit_match old new) (Some 0%nat)
                         (pred (length old)) s).
    done.
  - simpl in Hc. destruct (IH Hc) as (pre & post & ->).
    by exists (c :: pre), post.
Qed.

(** X18: The page [_inject_io_script] returns contains the script generated
    for the shapes, whichever of its three ways it takes. *)
Theorem inject_io_script_contains (html : text) (shapes : list shape)
    (show_answer : bool) :
  contains (_generate_io_script shapes show_answer)
           (_inject_io_script html shapes show_answer) = true.
Proof.
  unfold _inject_io_script.
  set (io_script := _generate_io_script shapes show_answer).
  destruct (contains (txt "anki.imageOcclusion.setup()") html) eqn:Hsetup.
  - destruct (str_replace_contains (txt "anki.imageOcclusion.setup()")
                io_script html) as (pre & post & ->); [done|done|].
    apply contains_app_r.
  - destruct (contains (txt "</script>") html) eqn:Hscript.
    + destruct (str_replace_first_contains (txt "</script>")
                  (io_script ++ [10] ++ txt "</script>") html)
        as (pre & post & ->); [done|done|].
      rewrite <- (app_assoc io_script). apply contains_app_r.
    + rewrite (app_assoc html [10]), (app_assoc (html ++ [10])),
        (app_assoc ((html ++ [10]) ++ txt "<script>")).
      apply contains_app_r.
Qed.

(** The pattern on a shape reference: its three groups and its
    length. *)
Lemma occlusion_shape_text (num shape_type params_str rest : text) :
  num ≠ [] → Forall (λ c, is_digit c = true) num →
  shape_type ≠ [] → Forall (λ c, is_word c = true) shape_type →
  ch "}" ∉ params_str → 10 ∉ params_str →
  occlusion_shape (shape_text num shape_type params_str ++ rest)
  = Some ((num, shape_type, params_str),
          length (shape_text num shape_type params_str)).
Proof.
  intros Hnum Hdigits Hty Hword Hclose Hnl.
  unfold shape_text at 1. rewrite <- !app_assoc.
  unfold occlusion_shape.
  rewrite starts_with_app.
  rewrite (drop_app_length' (txt "{{c")) by done.
  rewrite span_run; [|done|].
  2:{ intros c rest' [= <- _]. apply digit_not_colon. }
  destruct num as [|d ds]; [done|].
  rewrite starts_with_app.
  rewrite (drop_app_length' (txt "::image-occlusion:")) by done.
  rewrite span_run; [|done|].
  2:{ intros c rest' [= <- _]. apply word_not_colon. }
  destruct shape_type as [|w ws]; [done|].
  rewrite starts_with_app.
  rewrite (drop_app_length' (txt ":")) by done.
  change (txt "}}") with (ch "}" :: [ch "}"]).
  rewrite (str_find_char (ch "}") [ch "}"] params_str rest Hclose).
  rewrite take_app_length.
  assert (forallb (λ c, negb (c =? 10)) params_str = true) as ->.
  { apply forallb_forall. intros c Hc. apply negb_true_iff, N.eqb_neq.
    intros ->. apply Hnl. by apply list_elem_of_In. }
  f_equal. f_equal. unfold shape_text. rewrite !length_app.
  change (length (txt "{{c")) with 3%nat.
  change (length (txt "::image-occlusion:")) with 18%nat.
  change (length (txt ":")) with 1%nat.
  change (length (txt "}}")) with 2%nat. simpl length. lia.
Qed.

Lemma finditer_shape_text (num shape_type params_str rest : text) :
  num ≠ [] → Forall (λ c, is_digit c = true) num →
  shape_type ≠ [] → Forall (λ c, is_word c = true) shape_type →
  ch "}" ∉ params_str → 10 ∉ params_str →
  re_finditer occlusion_shape (shape_text num shape_type params_str ++ rest)
  = (num, shape_type, params_str) :: re_finditer occlusion_shape rest.
Proof.
  intros Hnum Hdigits Hty Hword Hclose Hnl.
  pose proof (occlusion_shape_text num shape_type params_str rest
                Hnum Hdigits Hty Hword Hclose Hnl) as Hm.
  unfold re_finditer.
  destruct (shape_text num shape_type params_str) as [|c s] eqn:Hs.
  { unfold shape_text in Hs. done. }
  change ((c :: s) ++ rest) with (c :: (s ++ rest)) in Hm |- *.
  simpl finditer_from. rewrite Hm. f_equal.
  simpl. rewrite finditer_from_skip. by rewrite drop_app_length.
Qed.

Lemma finditer_app_unmatched {A} (m : text → option (A * nat)) (a rest : text) :
  (∀ k, (k < length a)%nat → m (drop k (a ++ rest)) = None) →
  re_finditer m (a ++ rest) = re_finditer m rest.
Proof.
  unfold re_finditer. induction a as [|c a IH]; intros Hm; [done|].
  change ((c :: a) ++ rest) with (c :: (a ++ rest)). simpl finditer_from.
  pose proof (Hm 0%nat) as H0. simpl in H0. rewrite H0 by lia.
  apply IH. intros k Hk. apply (Hm (S k)). simpl. lia.
Qed.

Lemma occlusion_shape_other (c : N) (s : text) :
  c ≠ ch "{" → occlusion_shape (c :: s) = None.
Proof.
  intros Hc. unfold occlusion_shape.
  change (txt "{{c") with (ch "{" :: txt "{c").
  change (starts_with (ch "{" :: txt "{c") (c :: s))
    with ((ch "{" =? c) && starts_with (txt "{c") s).
  apply not_eq_sym, N.eqb_neq in Hc. by rewrite Hc.
Qed.

Lemma str_join_free (c sep : N) (parts : list text) :
  c ≠ sep → Forall (λ p, c ∉ p) parts → c ∉ str_join [sep] parts.
Proof.
  intros Hsep Hparts. induction Hparts as [|p parts Hp Hparts IH].
  { apply not_elem_of_nil. }
  destruct parts as [|q parts]; [done|].
  change (str_join [sep] (p :: q :: parts))
    with (p ++ sep :: str_join [sep] (q :: parts)).
  rewrite elem_of_app, elem_of_cons. intros [?|[?|?]]; done.
Qed.

Lemma params_text_free (c : N) (kvs : list (text * text)) :
  c ≠ ch ":" → c ≠ ch "=" →
  Forall (λ kv, (c ∉ kv.1) ∧ (c ∉ kv.2)) kvs → c ∉ params_text kvs.
Proof.
  intros Hcolon Heq Hkvs. unfold params_text.
  change (txt ":") with [ch ":"]. apply str_join_free; [done|].
  apply Forall_fmap. eapply Forall_impl; [exact Hkvs|].
  intros [k v] [Hk Hv]. simpl in *. unfold param_text. simpl.
  rewrite elem_of_app, elem_of_cons. intros [?|[?|?]]; done.
Qed.

Lemma shape_written_params (item : text * shape) :
  shape_written item →
  parse_params (params_text (shape_params item.2)) = shape_params item.2 ∧
  (ch "}" ∉ params_text (shape_params item.2)) ∧
  (10 ∉ params_text (shape_params item.2)).
Proof.
  intros (_ & _ & _ & _ & _ & Hdup & Hkvs). split; [|split].
  - apply parse_params_text; [done|].
    eapply Forall_impl; [exact Hkvs|]. intros kv [Hc Heq].
    apply Forall_cons in Hc as [[? ?] _]. done.
  - apply params_text_free; [done|done|].
    eapply Forall_impl; [exact Hkvs|]. intros kv [Hc _].
    apply Forall_cons in Hc as [_ Hc]. by apply Forall_cons in Hc as [? _].
  - apply params_text_free; [done|done|].
    eapply Forall_impl; [exact Hkvs|]. intros kv [Hc _].
    apply Forall_cons in Hc as [_ Hc]. apply Forall_cons in Hc as [_ Hc].
    by apply Forall_cons in Hc as [? _].
Qed.

Lemma finditer_shape_refs (sep : text) (items : list (text * shape)) :
  ch "{" ∉ sep → Forall shape_written items →
  re_finditer occlusion_shape (mjoin ((λ item, shape_ref item ++ sep) <$> items))
  = (λ item, (item.1, shape_type item.2,
              params_text (shape_params item.2))) <$> items.
Proof.
  intros Hsep Hitems.
  assert (∀ rest, re_finditer occlusion_shape (sep ++ rest)
                  = re_finditer occlusion_shape rest) as Hgap.
  { intros rest. apply finditer_app_unmatched. intros k Hk.
    rewrite drop_app_le by lia.
    destruct (lookup_lt_is_Some_2 sep k Hk) as [c Hc].
    rewrite (drop_S _ _ _ Hc). apply occlusion_shape_other.
    intros ->. apply Hsep. by eapply list_elem_of_lookup_2. }
  induction Hitems as [|item items Hitem _ IH]; [done|].
  rewrite fmap_cons.
  change (mjoin ((shape_ref item ++ sep) ::
                 ((λ item, shape_ref item ++ sep) <$> items)))
    with ((shape_ref item ++ sep) ++
          mjoin ((λ item, shape_ref item ++ sep) <$> items)).
  rewrite <- app_assoc.
  destruct (shape_written_params item Hitem) as (_ & Hclose & Hnl).
  destruct Hitem as (Hnum & Hdigits & _ & Hty & Hword & _).
  unfold shape_ref at 1.
  rewrite finditer_shape_text by done.
  by rewrite Hgap, IH.
Qed.

(** X19: Shape references are read back as the shapes they were written
    from: the field made of the references of a list of shapes, each
    followed by the same separator without opening brace, is parsed to
    the list of the shapes.  A reference holds the digits of the cloze
    number, the type (word characters) and the parameters as
    [key=value] joined with colons. *)
Theorem parse_occlusion_shapes_round_trip (sep : text)
    (items : list (text * shape)) :
  ch "{" ∉ sep → Forall shape_written items →
  _parse_occlusion_shapes (mjoin ((λ item, shape_ref item ++ sep) <$> items))
  = Ok (items.*2).
Proof.
  intros Hsep Hitems. unfold _parse_occlusion_shapes.
  rewrite finditer_shape_refs by done.
  induction Hitems as [|[num sh] items Hitem _ IH]; [done|].
  rewrite !fmap_cons.
  change (shapes_of_matches (?m :: ?ms)) with
    (shape_of_match m ≫= λ s, shapes_of_matches ms ≫= λ shapes,
     Ok (s :: shapes)).
  rewrite IH.
  destruct (shape_written_params _ Hitem) as (Hparams & _ & _).
  destruct Hitem as (_ & _ & Hint & _). simpl in *.
  unfold shape_of_match. rewrite Hint, Hparams. by destruct sh.
Qed.
End occlusion_more.

(** * The deck hierarchy *)

Section deck_facts.

Lemma Deck_ind (P : Deck.t → Prop) :
  (∀ name notes children,
     Forall P children → P (Deck.mk name notes children)) →
  ∀ deck, P deck.
Proof.
  intros Hmk. fix IH 1. intros [name notes children]. apply Hmk.
  induction children as [|child children IHc]; constructor;
    [apply IH|exact IHc].
Qed.

Lemma find_app_first {A} (f : A → bool) (l1 l2 : list A) :
  List.find f (l1 ++ l2) =
  match List.find f l1 with
  | Some x => Some x
  | None => List.find f l2
  end.
Proof.
  induction l1 as [|x l1 IH]; simpl; [done|]. by destruct (f x).
Qed.

Lemma find_fmap {A B} (f : B → bool) (g : A → B) (l : list A) :
  List.find f (g <$> l) = g <$> List.find (f ∘ g) l.
Proof.
  induction l as [|x l IH]; simpl; [done|]. by destruct (f (g x)).
Qed.

Lemma find_note_by_guid_first (deck : Deck.t) (guid current_path : text) :
  find_note_by_guid deck guid current_path =
  List.find (has_guid guid) (notes_below deck current_path).
Proof.
  revert current_path.
  induction deck as [name notes children IH] using Deck_ind.
  intros current_path. simpl.
  set (deck_path := path_in current_path name).
  rewrite find_app_first, find_fmap.
  change (has_guid guid ∘ (λ note, (note, deck_path)))
    with (λ note, bool_decide (DeckNote.guid note = guid)).
  destruct (List.find _ notes) as [note|]; [done|]. simpl.
  induction IH as [|child children Hchild _ IHc]; [done|].
  rewrite find_app_first, <- Hchild.
  by destruct (find_note_by_guid child guid deck_path).
Qed.

Lemma find_None {A} (f : A → bool) (l : list A) :
  List.find f l = None ↔ Forall (λ x, f x = false) l.
Proof.
  induction l as [|x l IH]; simpl; [by split; [constructor|]|].
  destruct (f x) eqn:Hx.
  - split; [done|]. intros Hall. apply Forall_cons in Hall as [? _].
    congruence.
  - rewrite IH. split; [by constructor|]. by intros [_ ?]%Forall_cons.
Qed.

Lemma find_reverse_None {A} (f : A → bool) (l : list A) :
  List.find f (reverse l) = None ↔ List.find f l = None.
Proof. by rewrite !find_None, Forall_reverse. Qed.

Lemma find_reverse_unique {A} (key : A → text) (g : text) (l : list A) :
  NoDup (key <$> l) →
  List.find (λ e, bool_decide (key e = g)) (reverse l) =
  List.find (λ e, bool_decide (key e = g)) l.
Proof.
  induction l as [|x l IH]; [done|]. rewrite fmap_cons, NoDup_cons.
  intros [Hx Hl]. rewrite reverse_cons, find_app_first. simpl.
  case_bool_decide as Hg.
  - assert (List.find (λ e, bool_decide (key e = g)) (reverse l) = None)
      as ->; [|done].
    apply find_None, Forall_reverse, Forall_forall. intros y Hy.
    apply bool_decide_eq_false_2. intros Hyg. apply Hx.
    apply list_elem_of_fmap. exists y. split; [congruence|done].
  - rewrite IH by done.
    by destruct (List.find (λ e, bool_decide (key e = g)) l).
Qed.

(** ** Dictionaries *)

Lemma dict_lookup_app {V} (d1 d2 : dict V) (k : text) :
  dict_lookup (d1 ++ d2) k =
  match dict_lookup d1 k with
  | Some v => Some v
  | None => dict_lookup d2 k
  end.
Proof.
  induction d1 as [|[k' v'] d1 IH]; simpl; [done|]. by case_bool_decide.
Qed.

Lemma dict_lookup_set {V} (d : dict V) (k k' : text) (v : V) :
  dict_lookup (dict_set d k v) k' =
  if bool_decide (k = k') then Some v else dict_lookup d k'.
Proof.
  induction d as [|[k0 v0] d IH]; simpl; [done|].
  destruct (decide (k0 = k)) as [->|Hne].
  - rewrite bool_decide_true by done. simpl. by case_bool_decide.
  - rewrite bool_decide_false by done. simpl. rewrite IH.
    repeat case_bool_decide; congruence.
Qed.

Lemma dict_set_keys {V} (d : dict V) (k : text) (v : V) :
  (dict_set d k v).*1 = if bool_decide (k ∈ d.*1) then d.*1 else d.*1 ++ [k].
Proof.
  induction d as [|[k0 v0] d IH]; [done|].
  change (dict_set ((k0, v0) :: d) k v) with
    (if bool_decide (k0 = k) then (k, v) :: d else (k0, v0) :: dict_set d k v).
  rewrite (fmap_cons fst (k0, v0) d). simpl fst.
  destruct (decide (k0 = k)) as [->|Hne].
  - rewrite bool_decide_true by done.
    rewrite bool_decide_true; [done|]. apply list_elem_of_here.
  - rewrite bool_decide_false by done.
    rewrite (fmap_cons fst (k0, v0)), IH. simpl fst.
    destruct (decide (k ∈ d.*1)) as [Hin|Hin].
    + rewrite !bool_decide_true; [done| |done]. by apply elem_of_cons; right.
    + rewrite !bool_decide_false; [done| |done].
      intros [?|?]%elem_of_cons; congruence.
Qed.

Lemma dict_set_NoDup {V} (d : dict V) (k : text) (v : V) :
  NoDup d.*1 → NoDup (dict_set d k v).*1.
Proof.
  intros Hd. rewrite dict_set_keys. case_bool_decide as Hk; [done|].
  apply NoDup_app. split_and!; [done| |apply NoDup_singleton].
  intros x Hx ->%list_elem_of_singleton. done.
Qed.

Lemma dict_update_NoDup {V} (d l : dict V) :
  NoDup d.*1 → NoDup (dict_update d l).*1.
Proof.
  unfold dict_update. revert d.
  induction l as [|[k v] l IH]; intros d Hd; simpl; [done|].
  apply IH. by apply dict_set_NoDup.
Qed.

Lemma dict_update_lookup {V} (d l : dict V) (k : text) :
  dict_lookup (dict_update d l) k =
  match dict_lookup (reverse l) k with
  | Some v => Some v
  | None => dict_lookup d k
  end.
Proof.
  unfold dict_update. revert d.
  induction l as [|[k' v'] l IH]; intros d; simpl; [done|].
  rewrite IH, reverse_cons, dict_lookup_app, dict_lookup_set. simpl.
  destruct (dict_lookup (reverse l) k); [done|]. by case_bool_decide.
Qed.

Lemma dict_lookup_elem {V} (d : dict V) (k : text) (v : V) :
  NoDup d.*1 → dict_lookup d k = Some v ↔ (k, v) ∈ d.
Proof.
  induction d as [|[k0 v0] d IH]; simpl.
  { intros _. split; [done|]. by intros ?%elem_of_nil. }
  rewrite NoDup_cons. intros [Hk0 Hd]. case_bool_decide as Hk.
  - subst k0. split.
    + intros [= ->]. apply list_elem_of_here.
    + intros [[= ->]|Hin]%elem_of_cons; [done|]. exfalso. apply Hk0.
      apply list_elem_of_fmap. by exists (k, v).
  - rewrite IH by done. split; [by right|].
    intros [[= -> ->]|Hin]%elem_of_cons; done.
Qed.

Lemma dict_lookup_reverse {V} (d : dict V) (k : text) :
  NoDup d.*1 → dict_lookup (reverse d) k = dict_lookup d k.
Proof.
  intros Hd.
  assert (NoDup (reverse d).*1) as Hr.
  { by rewrite fmap_reverse, reverse_Permutation. }
  destruct (dict_lookup d k) as [v|] eqn:Hv.
  - apply dict_lookup_elem; [done|]. apply elem_of_reverse.
    by apply dict_lookup_elem.
  - destruct (dict_lookup (reverse d) k) as [v|] eqn:Hv'; [|done].
    apply (dict_lookup_elem _ _ _ Hr) in Hv'. rewrite elem_of_reverse in Hv'.
    pose proof (proj2 (dict_lookup_elem d k v Hd) Hv') as Hv''. congruence.
Qed.

Lemma dict_lookup_None {V} (d : dict V) (k : text) :
  dict_lookup d k = None ↔ k ∉ d.*1.
Proof.
  induction d as [|[k0 v0] d IH]; simpl.
  { split; [intros _; apply not_elem_of_nil|done]. }
  case_bool_decide as Hk.
  - subst. split; [done|]. intros Hn. exfalso. apply Hn, list_elem_of_here.
  - rewrite IH, not_elem_of_cons. simpl. split; [by split|by intros [_ ?]].
Qed.

(** ** The note map *)

Lemma notes_loop_lookup (deck_path : text) (notes : list DeckNote.t)
    (acc : dict (DeckNote.t * text)) (g : text) :
  NoDup acc.*1 →
  let note_map :=
    foldl (λ note_map note,
             dict_set note_map (DeckNote.guid note) (note, deck_path))
          acc notes in
  NoDup note_map.*1 ∧
  dict_lookup note_map g =
  match List.find (has_guid g)
                  (reverse ((λ note, (note, deck_path)) <$> notes)) with
  | Some entry => Some entry
  | None => dict_lookup acc g
  end.
Proof.
  revert acc. induction notes as [|note notes IH]; intros acc Hacc; simpl.
  { done. }
  destruct (IH (dict_set acc (DeckNote.guid note) (note, deck_path)))
    as [Hdup Hlook]; [by apply dict_set_NoDup|].
  split; [done|]. rewrite Hlook, reverse_cons, find_app_first.
  destruct (List.find _ (reverse _)); [done|].
  rewrite dict_lookup_set. simpl. unfold has_guid. simpl.
  by case_bool_decide.
Qed.

Lemma build_note_map_last (deck : Deck.t) (current_path g : text) :
  NoDup (build_note_map deck current_path).*1 ∧
  dict_lookup (build_note_map deck current_path) g =
  List.find (has_guid g) (reverse (notes_below deck current_path)).
Proof.
  revert current_path.
  induction deck as [name notes children IH] using Deck_ind.
  intros current_path. simpl.
  set (deck_path := path_in current_path name).
  destruct (notes_loop_lookup deck_path notes [] g) as [Hdup Hlook].
  { constructor. }
  revert Hdup Hlook. simpl dict_lookup.
  set (note_map := foldl _ [] notes).
  set (own := (λ note, (note, deck_path)) <$> notes).
  intros Hdup Hlook.
  assert (List.find (has_guid g) (reverse own) =
          match List.find (has_guid g) (reverse own) with
          | Some entry => Some entry
          | None => None
          end) as Hown by by destruct (List.find _ _).
  rewrite <- Hown in Hlook. clear Hown.
  rewrite reverse_app, find_app_first, <- Hlook. clear Hlook.
  clearbody note_map own. revert note_map Hdup.
  induction IH as [|child children Hchild _ IHc]; intros note_map Hdup.
  { simpl. done. }
  destruct (Hchild deck_path) as [Hcdup Hclook].
  destruct (IHc (dict_update note_map (build_note_map child deck_path)))
    as [Hdup' Hlook']; [by apply dict_update_NoDup|].
  split; [done|]. rewrite Hlook'.
  rewrite reverse_app, find_app_first.
  destruct (List.find _ (reverse _)); [done|].
  rewrite dict_update_lookup, dict_lookup_reverse by done.
  by rewrite Hclook.
Qed.

(** X20: [find_note_by_guid] returns the first note with the guid, in the
    order: the notes of the deck, then the decks below it in turn; the
    map of [build_note_map] holds the last one.  One finds a note
    exactly when the other has one, and they agree on every guid when no
    two notes of the hierarchy share a guid. *)
Theorem note_lookup_first_and_last (deck : Deck.t) (guid current_path : text) :
  find_note_by_guid deck guid current_path =
    List.find (has_guid guid) (notes_below deck current_path) ∧
  dict_lookup (build_note_map deck current_path) guid =
    List.find (has_guid guid) (reverse (notes_below deck current_path)) ∧
  (find_note_by_guid deck guid current_path = None ↔
   dict_lookup (build_note_map deck current_path) guid = None) ∧
  (NoDup (DeckNote.guid <$> (notes_below deck current_path).*1) →
   find_note_by_guid deck guid current_path =
   dict_lookup (build_note_map deck current_path) guid).
Proof.
  destruct (build_note_map_last deck current_path guid) as [_ Hlast].
  pose proof (find_note_by_guid_first deck guid current_path) as Hfirst.
  split_and!; [done|done| |].
  - by rewrite Hfirst, Hlast, find_reverse_None.
  - intros Hdup. rewrite Hfirst, Hlast. symmetry.
    apply (find_reverse_unique (λ entry, DeckNote.guid entry.1)).
    by rewrite <- list_fmap_compose in Hdup.
Qed.
End deck_facts.

Section validate_facts.

Lemma note_valid_true (note_models : dict NoteModel.t) (note : DeckNote.t) :
  note_valid note_models note = true ↔
  ∃ note_model,
    dict_lookup note_models (DeckNote.note_model_uuid note) = Some note_model ∧
    length (DeckNote.fields note) = length (NoteModel.flds note_model).
Proof.
  unfold note_valid.
  destruct (dict_lookup note_models _) as [note_model|].
  - rewrite bool_decide_eq_true. split; [by exists note_model|].
    by intros (? & [= <-] & ?).
  - split; [done|]. by intros (? & ? & _).
Qed.

Lemma validate_recursive_below (note_models : dict NoteModel.t)
    (deck : Deck.t) (current_path : text) :
  _validate_recursive note_models deck = true ↔
  Forall (λ entry, note_valid note_models entry.1 = true)
         (notes_below deck current_path).
Proof.
  revert current_path.
  induction deck as [name notes children IH] using Deck_ind.
  intros current_path. simpl.
  set (deck_path := path_in current_path name).
  rewrite Forall_app, Forall_fmap.
  destruct (forallb (note_valid note_models) notes) eqn:Hnotes.
  2:{ split; [done|]. intros [Hall _]. exfalso.
      assert (forallb (note_valid note_models) notes = true); [|congruence].
      apply forallb_forall. intros note Hin.
      rewrite Forall_forall in Hall. apply (Hall note).
      by apply list_elem_of_In. }
  assert (Forall (λ note, note_valid note_models note = true) notes) as Hall.
  { apply Forall_forall. intros note Hin.
    rewrite forallb_forall in Hnotes. apply Hnotes. by apply list_elem_of_In. }
  assert (Forall ((λ entry, note_valid note_models entry.1 = true)
                  ∘ (λ note, (note, deck_path))) notes) as Hown by done.
  induction IH as [|child children Hchild _ IHc].
  { split; [by split; [|constructor]|done]. }
  rewrite Forall_app, <- (Hchild deck_path).
  destruct (_validate_recursive note_models child); [|by split; [|intros (_ & ? & _)]].
  rewrite IHc. split; [by intros [? ?]|by intros (? & _ & ?)].
Qed.

(** X21: [validate_deck_structure] holds exactly when every note of the
    deck and of the decks below it names a model of the dictionary that
    has as many fields as the note has values; then the notes that
    [find_note_by_guid] and [build_note_map] give have such a model. *)
Theorem validate_deck_structure_spec (deck : Deck.t)
    (note_models : dict NoteModel.t) (current_path : text) :
  (validate_deck_structure deck note_models = true ↔
   ∀ note deck_path,
     (note, deck_path) ∈ notes_below deck current_path →
     ∃ note_model,
       dict_lookup note_models (DeckNote.note_model_uuid note)
         = Some note_model ∧
       length (DeckNote.fields note) = length (NoteModel.flds note_model)) ∧
  (validate_deck_structure deck note_models = true →
   ∀ guid note deck_path,
     find_note_by_guid deck guid current_path = Some (note, deck_path) ∨
     dict_lookup (build_note_map deck current_path) guid
       = Some (note, deck_path) →
     ∃ note_model,
       dict_lookup note_models (DeckNote.note_model_uuid note)
         = Some note_model ∧
       length (DeckNote.fields note) = length (NoteModel.flds note_model)).
Proof.
  unfold validate_deck_structure.
  rewrite (validate_recursive_below note_models deck current_path).
  rewrite Forall_forall.
  assert ((∀ entry, entry ∈ notes_below deck current_path →
                    note_valid note_models entry.1 = true) ↔
          ∀ note deck_path,
            (note, deck_path) ∈ notes_below deck current_path →
            ∃ note_model,
              dict_lookup note_models (DeckNote.note_model_uuid note)
                = Some note_model ∧
              length (DeckNote.fields note)
                = length (NoteModel.flds note_model)) as Hiff.
  { split.
    - intros Hall note deck_path Hin. apply note_valid_true.
      apply (Hall (note, deck_path) Hin).
    - intros Hall [note deck_path] Hin. apply note_valid_true.
      by apply (Hall note deck_path). }
  split; [done|]. intros Hvalid guid note deck_path Hfound.
  pose proof (proj1 Hiff Hvalid) as Hnotes. apply (Hnotes note deck_path).
  destruct (build_note_map_last deck current_path guid) as [_ Hlast].
  pose proof (find_note_by_guid_first deck guid current_path) as Hfirst.
  destruct Hfound as [Hf|Hf].
  - rewrite Hfirst in Hf. apply find_some in Hf as [Hin _].
    by apply list_elem_of_In.
  - rewrite Hlast in Hf. apply find_some in Hf as [Hin _].
    apply list_elem_of_In in Hin. by rewrite elem_of_reverse in Hin.
Qed.
End validate_facts.

(** * Changes of notes *)

Section order_facts.

Lemma text_leb_refl (a : text) : text_leb a a = true.
Proof.
  induction a as [|x a IH]; simpl; [done|].
  by rewrite N.eqb_refl, IH, orb_true_r.
Qed.

Lemma text_leb_total (a b : text) :
  text_leb a b = true ∨ text_leb b a = true.
Proof.
  revert b. induction a as [|x a IH]; intros [|y b]; simpl; auto.
  destruct (N.ltb_spec x y) as [?|Hxy]; [by left|].
  destruct (N.ltb_spec y x) as [?|Hyx]; [by right|].
  assert (x = y) as -> by lia. rewrite N.eqb_refl. simpl. apply IH.
Qed.

Lemma text_leb_antisym (a b : text) :
  text_leb a b = true → text_leb b a = true → a = b.
Proof.
  revert b. induction a as [|x a IH]; intros [|y b]; simpl; try done.
  destruct (N.ltb_spec x y) as [Hxy|Hxy];
    destruct (N.ltb_spec y x) as [Hyx|Hyx]; simpl; try lia.
  - destruct (N.eqb_spec y x); [lia|done].
  - destruct (N.eqb_spec x y); [lia|done].
  - destruct (N.eqb_spec x y) as [->|?]; [|done]. rewrite N.eqb_refl.
    simpl. intros Hab Hba. f_equal. by apply IH.
Qed.

Lemma text_leb_trans (a b c : text) :
  text_leb a b = true → text_leb b c = true → text_leb a c = true.
Proof.
  revert b c. induction a as [|x a IH]; intros [|y b] [|z c]; simpl; try done.
  destruct (N.ltb_spec x y) as [Hxy|Hxy]; simpl.
  - intros _. destruct (N.ltb_spec y z) as [Hyz|Hyz]; simpl.
    + intros _. destruct (N.ltb_spec x z); [done|lia].
    + destruct (N.eqb_spec y z) as [->|?]; [|done]. intros _.
      by destruct (N.ltb_spec x z); [|lia].
  - destruct (N.eqb_spec x y) as [->|?]; [|done]. simpl. intros Hab.
    destruct (N.ltb_spec y z) as [Hyz|Hyz]; simpl; [done|].
    destruct (N.eqb_spec y z) as [->|?]; [|done]. simpl. by apply IH.
Qed.

#[local] Instance text_le_total : Total text_le.
Proof. intros a b. apply text_leb_total. Qed.
#[local] Instance text_le_trans : Transitive text_le.
Proof. intros a b c. apply text_leb_trans. Qed.
#[local] Instance text_le_antisym : AntiSymm eq text_le.
Proof. intros a b. apply text_leb_antisym. Qed.

Lemma sorted_eq_iff (l1 l2 : list text) :
  sorted l1 = sorted l2 ↔ l1 ≡ₚ l2.
Proof.
  unfold sorted. split.
  - intros Heq. rewrite <- (merge_sort_Permutation text_le l1), Heq.
    apply merge_sort_Permutation.
  - intros Hperm. apply (StronglySorted_unique text_le).
    + by apply StronglySorted_merge_sort; apply _.
    + by apply StronglySorted_merge_sort; apply _.
    + by rewrite !merge_sort_Permutation.
Qed.

(** X22: Two notes are equal for [_notes_equal] exactly when they have the
    same guid, the same field values in the same order, the same model,
    and the same tags up to their order: each tag as many times in one
    as in the other. *)
Theorem notes_equal_iff (note1 note2 : DeckNote.t) :
  _notes_equal note1 note2 = true ↔
  DeckNote.guid note1 = DeckNote.guid note2 ∧
  DeckNote.fields note1 = DeckNote.fields note2 ∧
  DeckNote.tags note1 ≡ₚ DeckNote.tags note2 ∧
  DeckNote.note_model_uuid note1 = DeckNote.note_model_uuid note2.
Proof.
  unfold _notes_equal.
  rewrite !andb_true_iff, !bool_decide_eq_true, sorted_eq_iff.
  tauto.
Qed.
End order_facts.

Section compare_facts.
Context `{Runtime}.

Lemma build_note_map_keyed (deck : Deck.t) (current_path : text) :
  keyed_by_guid (build_note_map deck current_path).
Proof.
  split; [apply (build_note_map_last deck current_path [])|].
  apply Forall_forall. intros [k [note p]] Hin. simpl.
  destruct (build_note_map_last deck current_path k) as [Hdup Hlast].
  apply (dict_lookup_elem _ _ _ Hdup) in Hin. rewrite Hlast in Hin.
  apply find_some in Hin as [_ Hg]. unfold has_guid in Hg. simpl in Hg.
  by apply bool_decide_eq_true in Hg.
Qed.

Lemma notes_of_keyed (deck : option Deck.t) : keyed_by_guid (notes_of deck).
Proof.
  destruct deck as [deck|]; [apply build_note_map_keyed|].
  split; constructor.
Qed.

(** A loop that appends what each item contributes. *)
Lemma foldl_contributions {A B} (step : list B → A → list B)
    (items : list A) (acc : list B) :
  (∀ acc item, step acc item = acc ++ step [] item) →
  foldl step acc items = acc ++ mjoin (step [] <$> items).
Proof.
  intros Hstep. revert acc.
  induction items as [|item items IH]; intros acc; simpl.
  { by rewrite app_nil_r. }
  rewrite IH, (Hstep acc item). by rewrite <- app_assoc.
Qed.

(** Of the contributions of the items of a dictionary, those of a guid
    are the contribution of its entry. *)
Lemma filter_contributions {V} (f : text * V → list NoteChange.t)
    (items : dict V) (g : text) :
  NoDup items.*1 →
  (∀ item, item ∈ items → Forall (λ c, NoteChange.guid c = item.1) (f item)) →
  filter (λ c, NoteChange.guid c = g) (mjoin (f <$> items)) =
  match dict_lookup items g with
  | Some v => f (g, v)
  | None => []
  end.
Proof.
  induction items as [|[k v] items IH]; [done|].
  rewrite fmap_cons, NoDup_cons. intros [Hk Hdup] Hf.
  change (mjoin (f <$> (k, v) :: items))
    with (f (k, v) ++ mjoin (f <$> items)).
  rewrite filter_app.
  assert (Forall (λ c, NoteChange.guid c = k) (f (k, v))) as Hkv.
  { apply (Hf (k, v)). apply list_elem_of_here. }
  specialize (IH Hdup (λ item Hin, Hf item (list_elem_of_further _ _ _ Hin))).
  simpl dict_lookup. case_bool_decide as Hg.
  - subst k.
    assert (dict_lookup items g = None) as Hnone
      by by apply dict_lookup_None.
    rewrite IH, Hnone, app_nil_r.
    induction Hkv as [|c cs Hc _ IHc]; [done|].
    rewrite filter_cons_True by done. by rewrite IHc.
  - rewrite IH.
    assert (filter (λ c, NoteChange.guid c = g) (f (k, v)) = []) as ->; [|done].
    induction Hkv as [|c cs Hc _ IHc]; [done|].
    rewrite filter_cons_False by congruence. done.
Qed.

Lemma modified_change_guid before_note after_note note_model deck_path :
  NoteChange.guid (modified_change before_note after_note note_model deck_path)
  = DeckNote.guid after_note.
Proof.
  unfold modified_change. by destruct (classify_note_change _ _) as [? ?].
Qed.

Lemma after_step_app before_notes after_models changes item :
  after_step before_notes after_models changes item =
  changes ++ after_step before_notes after_models [] item.
Proof.
  unfold after_step.
  destruct (dict_lookup after_models _); [|by rewrite app_nil_r].
  destruct (dict_lookup before_notes _) as [[before_note ?]|]; [|done].
  destruct (negb _); [done|by rewrite app_nil_r].
Qed.

Lemma before_step_app after_notes before_models changes item :
  before_step after_notes before_models changes item =
  changes ++ before_step after_notes before_models [] item.
Proof.
  unfold before_step.
  destruct (dict_lookup after_notes _); [by rewrite app_nil_r|].
  destruct (dict_lookup before_models _); [done|by rewrite app_nil_r].
Qed.

Lemma after_step_guid before_notes after_models item :
  DeckNote.guid item.2.1 = item.1 →
  Forall (λ c, NoteChange.guid c = item.1)
         (after_step before_notes after_models [] item).
Proof.
  intros Hitem. unfold after_step.
  destruct (dict_lookup after_models _); [|constructor].
  destruct (dict_lookup before_notes _) as [[before_note ?]|].
  - destruct (negb _); repeat constructor. by rewrite modified_change_guid.
  - repeat constructor. done.
Qed.

Lemma before_step_guid after_notes before_models item :
  DeckNote.guid item.2.1 = item.1 →
  Forall (λ c, NoteChange.guid c = item.1)
         (before_step after_notes before_models [] item).
Proof.
  intros Hitem. unfold before_step.
  destruct (dict_lookup after_notes _); [constructor|].
  destruct (dict_lookup before_models _); repeat constructor. done.
Qed.

(** The changes of a guid in one loop. *)
Lemma loop_by_guid (step : list NoteChange.t → text * (DeckNote.t * text)
                           → list NoteChange.t)
    (notes : dict (DeckNote.t * text)) (acc : list NoteChange.t) (g : text) :
  keyed_by_guid notes →
  (∀ acc item, step acc item = acc ++ step [] item) →
  (∀ item, DeckNote.guid item.2.1 = item.1 →
           Forall (λ c, NoteChange.guid c = item.1) (step [] item)) →
  filter (λ c, NoteChange.guid c = g) (foldl step acc notes) =
  filter (λ c, NoteChange.guid c = g) acc ++
  match dict_lookup notes g with
  | Some v => step [] (g, v)
  | None => []
  end.
Proof.
  intros [Hdup Hkeys] Happ Hguid.
  rewrite (foldl_contributions step notes acc Happ), filter_app.
  rewrite filter_contributions; [done|done|].
  intros item Hin. apply Hguid.
  rewrite Forall_forall in Hkeys. by apply Hkeys.
Qed.

Lemma one_sided_by_guid change notes models (g : text) :
  keyed_by_guid notes →
  (∀ note note_model deck_path,
     NoteChange.guid (change note note_model deck_path) = DeckNote.guid note) →
  filter (λ c, NoteChange.guid c = g) (one_sided change notes models []) =
  match dict_lookup notes g with
  | Some (note, deck_path) =>
      match dict_lookup models (DeckNote.note_model_uuid note) with
      | Some note_model => [change note note_model deck_path]
      | None => []
      end
  | None => []
  end.
Proof.
  intros Hnotes Hchange. unfold one_sided.
  rewrite loop_by_guid; [|done| |].
  - simpl. by destruct (dict_lookup notes g) as [[note deck_path]|].
  - intros acc item. destruct (dict_lookup models _); [done|].
    by rewrite app_nil_r.
  - intros item Hitem. destruct (dict_lookup models _); repeat constructor.
    by rewrite Hchange.
Qed.

(** X23: What [_compare_deck_versions] reports for a guid, from the note
    maps of the two versions: a note that is only in the later version
    is added and one that is only in the earlier version is deleted,
    when its model is in the dictionary of its version, and nothing is
    reported when it is not; a note in both is modified unless
    [_notes_equal] holds, with the model of the later version, and
    nothing is reported when that model is unknown.  At most one change
    is reported for a guid. *)
Theorem compare_deck_versions_by_guid
    (before_deck : option Deck.t) (before_models : dict NoteModel.t)
    (after_deck : option Deck.t) (after_models : dict NoteModel.t)
    (guid : text) :
  filter (λ change, NoteChange.guid change = guid)
         (_compare_deck_versions before_deck before_models
                                 after_deck after_models) =
  match dict_lookup (notes_of before_deck) guid,
        dict_lookup (notes_of after_deck) guid with
  | None, None => []
  | None, Some (note, deck_path) =>
      match dict_lookup after_models (DeckNote.note_model_uuid note) with
      | Some note_model => [added_change note note_model deck_path]
      | None => []
      end
  | Some (note, deck_path), None =>
      match dict_lookup before_models (DeckNote.note_model_uuid note) with
      | Some note_model => [deleted_change note note_model deck_path]
      | None => []
      end
  | Some (before_note, _), Some (after_note, deck_path) =>
      match dict_lookup after_models (DeckNote.note_model_uuid after_note) with
      | Some note_model =>
          if _notes_equal before_note after_note then []
          else [modified_change before_note after_note note_model deck_path]
      | None => []
      end
  end.
Proof.
  destruct before_deck as [before_deck|], after_deck as [after_deck|];
    simpl _compare_deck_versions.
  - rewrite loop_by_guid;
      [|apply build_note_map_keyed|apply before_step_app
       |apply before_step_guid].
    rewrite loop_by_guid;
      [|apply build_note_map_keyed|apply after_step_app
       |apply after_step_guid].
    simpl notes_of. simpl filter.
    destruct (dict_lookup (build_note_map before_deck []) guid)
      as [[before_note before_path]|] eqn:Hb;
      destruct (dict_lookup (build_note_map after_deck []) guid)
        as [[after_note after_path]|] eqn:Ha.
    + unfold after_step, before_step. simpl. rewrite Hb, Ha.
      destruct (dict_lookup after_models _); [|done].
      by destruct (_notes_equal before_note after_note).
    + unfold before_step. simpl. rewrite Ha.
      by destruct (dict_lookup before_models _).
    + unfold after_step. simpl. rewrite Hb.
      destruct (dict_lookup after_models _); [|done]. done.
    + done.
  - rewrite one_sided_by_guid; [|apply build_note_map_keyed|done].
    simpl. by destruct (dict_lookup (build_note_map before_deck []) guid)
      as [[note deck_path]|].
  - rewrite one_sided_by_guid; [|apply build_note_map_keyed|done].
    simpl. by destruct (dict_lookup (build_note_map after_deck []) guid)
      as [[note deck_path]|].
  - done.
Qed.
End compare_facts.

Section stats_facts.
Context `{Runtime}.
Import ChangeType.

Lemma note_loop_same (fields : list text) (st : note_state) (l : list nat) :
  foldl (note_step fields fields) st l = st.
Proof.
  induction l as [|i l IH]; simpl; [done|].
  unfold note_step at 2. rewrite bool_decide_false by by intros ?.
  apply IH.
Qed.

Lemma classify_note_change_same (fields : list text) :
  classify_note_change fields fields = (CONTENT, ([], ∅)).
Proof.
  unfold classify_note_change, note_loop. by rewrite note_loop_same.
Qed.

(** X24: A modification that leaves every field value as it was (the tags
    or the model changed) has the kind [content]: it is not cosmetic
    only, and [generate_diff_page] renders it. *)
Theorem unchanged_fields_are_content (before_note after_note : DeckNote.t)
    (note_model : NoteModel.t) (deck_path : text) :
  DeckNote.fields before_note = DeckNote.fields after_note →
  let change := modified_change before_note after_note note_model deck_path in
  NoteChange.content_change_type change = CONTENT ∧
  NoteChange.cosmetic_changes change = ∅ ∧
  NoteChange.is_cosmetic_only change = false ∧
  changes_to_render [change] = [change].
Proof.
  intros Hfields. unfold modified_change.
  rewrite Hfields, classify_note_change_same. simpl.
  split_and!; try done.
Qed.

Lemma modified_change_classified before_note after_note note_model deck_path :
  well_classified
    (modified_change before_note after_note note_model deck_path).
Proof.
  pose proof (note_overall_kind (DeckNote.fields before_note)
                                (DeckNote.fields after_note)) as Hkind.
  unfold modified_change.
  destruct (classify_note_change _ _) as [kind details]. simpl in *.
  by right.
Qed.

Lemma compare_well_classified before_deck before_models after_deck after_models :
  Forall well_classified
    (_compare_deck_versions before_deck before_models after_deck after_models).
Proof.
  assert (∀ bn am item, Forall well_classified (after_step bn am [] item))
    as Hafter.
  { intros bn am item. unfold after_step.
    destruct (dict_lookup am _); [|constructor].
    destruct (dict_lookup bn _) as [[before_note ?]|].
    - destruct (negb _); [|constructor]. apply Forall_singleton.
      apply modified_change_classified.
    - apply Forall_singleton. left. split; [by left|done]. }
  assert (∀ an bm item, Forall well_classified (before_step an bm [] item))
    as Hbefore.
  { intros an bm item. unfold before_step.
    destruct (dict_lookup an _); [constructor|].
    destruct (dict_lookup bm _); [|constructor]. apply Forall_singleton.
    left. split; [by right|done]. }
  assert (∀ change notes models,
            (∀ n m p, well_classified (change n m p)) →
            Forall well_classified (one_sided change notes models []))
    as Hone.
  { intros change notes models Hchange. unfold one_sided.
    rewrite foldl_contributions.
    - apply Forall_join, Forall_fmap, Forall_forall. intros item _. simpl.
      destruct (dict_lookup models _); [|constructor].
      apply Forall_singleton, Hchange.
    - intros acc item. destruct (dict_lookup models _); [done|].
      by rewrite app_nil_r. }
  destruct before_deck as [before_deck|], after_deck as [after_deck|];
    simpl.
  - rewrite (foldl_contributions _ _ _ (before_step_app _ _)).
    rewrite (foldl_contributions _ _ _ (after_step_app _ _)).
    simpl. apply Forall_app. split.
    + apply Forall_join, Forall_fmap, Forall_forall. intros item _.
      apply Hafter.
    + apply Forall_join, Forall_fmap, Forall_forall. intros item _.
      apply Hbefore.
  - apply Hone. intros n m p. left. split; [by right|done].
  - apply Hone. intros n m p. left. split; [by left|done].
  - constructor.
Qed.

Lemma breakdown_total_insert (b : gmap string nat) (k : string) (n : nat) :
  b !! k = Some n →
  breakdown_total (<[k := S n]> b) = S (breakdown_total b).
Proof.
  intros Hk. unfold breakdown_total.
  assert (∀ m : gmap string nat, (∀ (j1 j2 : string) (z1 z2 y : nat),
                  j1 ≠ j2 → m !! j1 = Some z1 → m !! j2 = Some z2 →
                  (z1 + (z2 + y) = z2 + (z1 + y))%nat)) as Hcomm
    by (intros; lia).
  rewrite <- (insert_delete_eq b k (S n)).
  rewrite map_fold_insert_L; [|apply Hcomm|apply lookup_delete_eq].
  rewrite <- (insert_delete_id b k n Hk) at 2.
  rewrite map_fold_insert_L; [|apply Hcomm|apply lookup_delete_eq].
  done.
Qed.

Lemma stats_init_balanced : stats_balanced stats_init.
Proof.
  split_and!; [done|by vm_compute|].
  intros k [->|Hk]; [by eexists|].
  apply list_elem_of_In in Hk. simpl in Hk.
  destruct Hk as [<-|[<-|[<-|[<-|[<-|[]]]]]]; by eexists.
Qed.

Lemma stats_step_classified (stats : Stats.t) (change : NoteChange.t) :
  stats_balanced stats → well_classified change →
  ∃ stats',
    stats_step stats change = Some stats' ∧
    stats_balanced stats' ∧
    stats_total stats' = S (stats_total stats) ∧
    stats_rendered stats' =
      (stats_rendered stats +
       length (changes_to_render [change]))%nat.
Proof.
  intros (Hmod & Htotal & Hkeys) Hchange.
  unfold stats_step, changes_to_render, NoteChange.is_cosmetic_only.
  destruct Hchange as [[Htype Hcontent]|[Htype Hkind]].
  - rewrite Hcontent.
    rewrite (bool_decide_false (CONTENT ≠ "content"%string)) by by intros ?.
    rewrite filter_cons_True by by rewrite bool_decide_false by by intros ?.
    destruct Htype as [-> | ->]; simpl.
    + eexists. split; [done|].
      unfold stats_balanced, stats_total, stats_rendered. simpl.
      split_and!; [done|done|done|lia|lia].
    + eexists. split; [done|].
      unfold stats_balanced, stats_total, stats_rendered. simpl.
      split_and!; [done|done|done|lia|lia].
  - rewrite Htype. simpl.
    destruct (decide (NoteChange.content_change_type change = CONTENT))
      as [Hc|Hc].
    + rewrite Hc.
      rewrite (bool_decide_false (CONTENT ≠ "content"%string)) by by intros ?.
      rewrite filter_cons_True by by rewrite bool_decide_false by by intros ?.
      eexists. split; [done|].
      unfold stats_balanced, stats_total, stats_rendered. simpl.
      split_and!; [lia|done|done|lia|lia].
    + rewrite (bool_decide_true (_ ≠ "content"%string)) by done.
      rewrite filter_cons_False by by rewrite bool_decide_true by done.
      assert (NoteChange.content_change_type change = MIXED_COSMETIC ∨
              NoteChange.content_change_type change ∈ cosmetic_kinds)
        as Hcos by by destruct Hkind as [?|?].
      destruct (Hkeys _ Hcos) as [n Hn]. simpl. rewrite Hn.
      eexists. split; [done|].
      unfold stats_balanced, stats_total, stats_rendered. simpl.
      split_and!; [lia| |  |lia|lia].
      * rewrite breakdown_total_insert by done. lia.
      * intros k Hk.
        destruct (decide (NoteChange.content_change_type change = k))
          as [->|Hne].
        -- rewrite lookup_insert_eq. by eexists.
        -- rewrite lookup_insert_ne by done. by apply Hkeys.
Qed.

Lemma calculate_stats_classified (changes : list NoteChange.t)
    (stats : Stats.t) :
  stats_balanced stats → Forall well_classified changes →
  ∃ stats',
    calculate_stats_from stats changes = Some stats' ∧
    stats_balanced stats' ∧
    stats_total stats' = (stats_total stats + length changes)%nat ∧
    stats_rendered stats' =
      (stats_rendered stats + length (changes_to_render changes))%nat.
Proof.
  intros Hstats Hchanges. revert stats Hstats.
  induction Hchanges as [|change changes Hchange _ IH]; intros stats Hstats.
  { exists stats. simpl. split_and!; [done|done|lia|].
    unfold changes_to_render. simpl. lia. }
  destruct (stats_step_classified stats change Hstats Hchange)
    as (stats1 & Hstep & Hbal1 & Htot1 & Hren1).
  destruct (IH stats1 Hbal1) as (stats' & Hcalc & Hbal & Htot & Hren).
  exists stats'. simpl. rewrite Hstep. simpl.
  split_and!; [done|done|lia|].
  rewrite Hren, Hren1. unfold changes_to_render.
  change (change :: changes) with ([change] ++ changes).
  rewrite (filter_app _ [change] changes), length_app. lia.
Qed.

(** X25: The statistics of a comparison add up: [_calculate_stats] returns
    on the changes [_compare_deck_versions] reports; the added, the
    modified and the deleted notes are all the changes; a modified note
    is counted either as a content change or as cosmetic only; every
    cosmetic-only change is counted under one kind of the breakdown;
    and the changes that are rendered are the added, the deleted and the
    content changes. *)
Theorem stats_of_comparison
    (before_deck : option Deck.t) (before_models : dict NoteModel.t)
    (after_deck : option Deck.t) (after_models : dict NoteModel.t) :
  let changes :=
    _compare_deck_versions before_deck before_models after_deck after_models in
  ∃ stats,
    _calculate_stats changes = Some stats ∧
    (Stats.added stats + Stats.modified stats + Stats.deleted stats
     = length changes)%nat ∧
    (Stats.modified stats
     = Stats.content_changes stats + Stats.cosmetic_only stats)%nat ∧
    breakdown_total (Stats.cosmetic_breakdown stats)
      = Stats.cosmetic_only stats ∧
    (length (changes_to_render changes)
     = Stats.added stats + Stats.deleted stats
       + Stats.content_changes stats)%nat.
Proof.
  intros changes.
  destruct (calculate_stats_classified changes stats_init
              stats_init_balanced
              (compare_well_classified before_deck before_models
                 after_deck after_models))
    as (stats & Hcalc & (Hmod & Hbreak & _) & Htot & Hren).
  exists stats. unfold stats_total, stats_rendered in *. simpl in *.
  split_and!; [done|lia|done|done|lia].
Qed.
End stats_facts.

(** * Highlighted differences *)

Section highlight_facts.

Lemma str_replace_char (c : N) (new s : text) :
  str_replace [c] new s = mjoin ((λ x, if x =? c then new else [x]) <$> s).
Proof.
  unfold str_replace, re_sub. induction s as [|x s IH]; [done|].
  rewrite fmap_cons.
  change (mjoin ((if x =? c then new else [x]) ::
                 ((λ x, if x =? c then new else [x]) <$> s)))
    with ((if x =? c then new else [x]) ++
          mjoin ((λ x, if x =? c then new else [x]) <$> s)).
  simpl sub_from. unfold lit_match at 1.
  change (starts_with [c] (x :: s)) with ((c =? x) && true).
  rewrite andb_true_r, N.eqb_sym.
  destruct (x =? c); simpl; by rewrite IH.
Qed.

Lemma str_replace_char_app (c : N) (new a b : text) :
  str_replace [c] new (a ++ b) = str_replace [c] new a ++ str_replace [c] new b.
Proof. by rewrite !str_replace_char, fmap_app, join_app. Qed.

Lemma str_replace_char_free (c x : N) (new s : text) :
  x ∉ new → (x ≠ c → x ∉ s) → x ∉ str_replace [c] new s.
Proof.
  intros Hnew Hs. rewrite str_replace_char. intros Hin.
  apply list_elem_of_join in Hin as (piece & Hx & Hpiece).
  apply list_elem_of_fmap in Hpiece as (y & -> & Hy).
  destruct (decide (y = c)) as [Heq|Hne].
  - subst y. by rewrite N.eqb_refl in Hx.
  - pose proof Hne as Hb. apply N.eqb_neq in Hb. rewrite Hb in Hx.
    apply list_elem_of_singleton in Hx. subst x. by apply Hs.
Qed.

Lemma escape_html_app (a b : text) :
  escape_html (a ++ b) = escape_html a ++ escape_html b.
Proof.
  unfold escape_html.
  change (txt "&") with [ch "&"]. change (txt "<") with [ch "<"].
  change (txt ">") with [ch ">"].
  by rewrite !str_replace_char_app.
Qed.

Lemma escape_html_join (ts : list text) :
  mjoin (escape_html <$> ts) = escape_html (mjoin ts).
Proof.
  induction ts as [|t ts IH]; [done|].
  rewrite fmap_cons.
  change (mjoin (escape_html t :: (escape_html <$> ts)))
    with (escape_html t ++ mjoin (escape_html <$> ts)).
  change (mjoin (t :: ts)) with (t ++ mjoin ts).
  by rewrite escape_html_app, IH.
Qed.

Lemma escape_html_free (t : text) :
  (ch "<" ∉ escape_html t) ∧ (ch ">" ∉ escape_html t).
Proof.
  unfold escape_html.
  change (txt "&") with [ch "&"]. change (txt "<") with [ch "<"].
  change (txt ">") with [ch ">"].
  assert (ch "<" ∉ str_replace [ch "<"] (txt "&lt;")
                     (str_replace [ch "&"] (txt "&amp;") t)) as Hlt.
  { apply str_replace_char_free; [|done].
    by apply (bool_decide_unpack _); vm_compute. }
  split.
  - apply str_replace_char_free; [|done].
    by apply (bool_decide_unpack _); vm_compute.
  - apply str_replace_char_free; [|done].
    by apply (bool_decide_unpack _); vm_compute.
Qed.

Lemma str_join_nil (l : list text) : str_join [] l = mjoin l.
Proof.
  induction l as [|t [|u l] IH]; [done| |].
  - simpl. by rewrite app_nil_r.
  - change (str_join [] (t :: u :: l)) with (t ++ [] ++ str_join [] (u :: l)).
    by rewrite IH.
Qed.

(** The pieces of the two sides. *)
Lemma highlight_pieces (diffs : list (Z * text)) (html1 html2 : list text) :
  foldl highlight_step (html1, html2) diffs =
  (html1 ++ ((λ d, if bool_decide (d.1 = DIFF_DELETE)
                   then txt "<del>" ++ escape_html d.2 ++ txt "</del>"
                   else escape_html d.2)
             <$> filter (λ d, d.1 ≠ DIFF_INSERT) diffs),
   html2 ++ ((λ d, if bool_decide (d.1 = DIFF_INSERT)
                   then txt "<ins>" ++ escape_html d.2 ++ txt "</ins>"
                   else escape_html d.2)
             <$> filter (λ d, d.1 ≠ DIFF_DELETE) diffs)).
Proof.
  revert html1 html2. induction diffs as [|[op t] diffs IH];
    intros html1 html2.
  { simpl. by rewrite !app_nil_r. }
  change (foldl highlight_step (html1, html2) ((op, t) :: diffs))
    with (foldl highlight_step (highlight_step (html1, html2) (op, t)) diffs).
  destruct (decide (op = DIFF_DELETE)) as [->|Hdel].
  - assert (highlight_step (html1, html2) (DIFF_DELETE, t) =
            (html1 ++ [txt "<del>" ++ escape_html t ++ txt "</del>"], html2))
      as -> by done.
    rewrite IH, filter_cons_True by done.
    rewrite filter_cons_False by (simpl; by intros ?).
    rewrite fmap_cons. simpl fst. simpl snd.
    rewrite (bool_decide_true (DIFF_DELETE = DIFF_DELETE)) by done.
    by rewrite <- app_assoc.
  - destruct (decide (op = DIFF_INSERT)) as [->|Hins].
    + assert (highlight_step (html1, html2) (DIFF_INSERT, t) =
              (html1, html2 ++ [txt "<ins>" ++ escape_html t ++ txt "</ins>"]))
        as -> by done.
      rewrite IH, filter_cons_False by (simpl; by intros ?).
      rewrite filter_cons_True by done.
      rewrite fmap_cons. simpl fst. simpl snd.
      rewrite (bool_decide_true (DIFF_INSERT = DIFF_INSERT)) by done.
      by rewrite <- app_assoc.
    + assert (highlight_step (html1, html2) (op, t) =
              (html1 ++ [escape_html t], html2 ++ [escape_html t])) as ->.
      { unfold highlight_step. simpl fst. simpl snd.
        by rewrite !bool_decide_false by done. }
      rewrite IH, !filter_cons_True by done.
      rewrite !fmap_cons. simpl fst. simpl snd.
      rewrite (bool_decide_false (op = DIFF_DELETE)) by done.
      rewrite (bool_decide_false (op = DIFF_INSERT)) by done.
      by rewrite <- !app_assoc.
Qed.

Lemma remove_plain (l e rest : text) :
  ch "<" ∉ e →
  str_replace (ch "<" :: l) [] (e ++ rest) =
  e ++ str_replace (ch "<" :: l) [] rest.
Proof.
  intros He. unfold str_replace. apply sub_from_app_unmatched.
  intros k Hk. rewrite drop_app_le by lia.
  destruct (lookup_lt_is_Some_2 e k Hk) as [c Hc].
  rewrite (drop_S _ _ _ Hc). unfold lit_match.
  change (starts_with (ch "<" :: l) ((c :: drop (S k) e) ++ rest))
    with ((ch "<" =? c) && starts_with l (drop (S k) e ++ rest)).
  assert (ch "<" ≠ c) as Hne.
  { intros <-. apply He. by eapply list_elem_of_lookup_2. }
  apply N.eqb_neq in Hne. by rewrite Hne.
Qed.

Lemma remove_here (x : N) (l rest : text) :
  str_replace (x :: l) [] ((x :: l) ++ rest) = str_replace (x :: l) [] rest.
Proof.
  unfold str_replace.
  rewrite (sub_from_match _ _ [] (length (x :: l))).
  - by rewrite drop_app_length.
  - unfold lit_match. by rewrite starts_with_app.
  - done.
  - simpl. lia.
Qed.

Lemma remove_other (old other rest : text) :
  (∀ k, (k < length other)%nat →
        starts_with old (drop k (other ++ rest)) = false) →
  str_replace old [] (other ++ rest) = other ++ str_replace old [] rest.
Proof.
  intros Hother. unfold str_replace. apply sub_from_app_unmatched.
  intros k Hk. unfold lit_match. by rewrite Hother.
Qed.

(** Removing the marks of a tag from marked and unmarked pieces
    without [<] leaves the pieces. *)
Lemma without_marks_pieces (o c : text) (marked : Z * text → bool)
    (ds : list (Z * text)) :
  (∀ rest k, (k < length (ch "<" :: c))%nat →
             starts_with (ch "<" :: o) (drop k ((ch "<" :: c) ++ rest))
             = false) →
  str_replace (ch "<" :: c) []
    (str_replace (ch "<" :: o) []
       (mjoin ((λ d, if marked d
                     then (ch "<" :: o) ++ escape_html d.2 ++ (ch "<" :: c)
                     else escape_html d.2) <$> ds)))
  = escape_html (mjoin (snd <$> ds)).
Proof.
  intros Hother.
  assert (str_replace (ch "<" :: o) []
            (mjoin ((λ d, if marked d
                          then (ch "<" :: o) ++ escape_html d.2 ++ (ch "<" :: c)
                          else escape_html d.2) <$> ds))
          = mjoin ((λ d, if marked d
                         then escape_html d.2 ++ (ch "<" :: c)
                         else escape_html d.2) <$> ds)) as ->.
  { induction ds as [|d ds IH]; [done|].
    rewrite !fmap_cons.
    change (mjoin (?p :: ?ps)) with (p ++ mjoin ps).
    destruct (escape_html_free d.2) as [Hlt _].
    destruct (marked d).
    - rewrite <- !app_assoc, remove_here, remove_plain by done.
      rewrite remove_other by apply Hother. by rewrite IH.
    - rewrite remove_plain by done. by rewrite IH. }
  rewrite <- escape_html_join, <- list_fmap_compose.
  induction ds as [|d ds IH]; [done|].
  rewrite !fmap_cons.
  change (mjoin (?p :: ?ps)) with (p ++ mjoin ps).
  destruct (escape_html_free d.2) as [Hlt _].
  destruct (marked d).
  - rewrite <- !app_assoc, remove_plain, remove_here by done.
    by rewrite IH.
  - rewrite remove_plain by done. by rewrite IH.
Qed.

Lemma del_close_other (rest : text) (k : nat) :
  (k < length (ch "<" :: txt "/del>"))%nat →
  starts_with (ch "<" :: txt "del>")
              (drop k ((ch "<" :: txt "/del>") ++ rest)) = false.
Proof.
  intros Hk. do 6 (destruct k as [|k]; [done|]). simpl in Hk. lia.
Qed.

Lemma ins_close_other (rest : text) (k : nat) :
  (k < length (ch "<" :: txt "/ins>"))%nat →
  starts_with (ch "<" :: txt "ins>")
              (drop k ((ch "<" :: txt "/ins>") ++ rest)) = false.
Proof.
  intros Hk. do 6 (destruct k as [|k]; [done|]). simpl in Hk. lia.
Qed.

(** X26: Every text of a difference reaches the page escaped: without its
    [<del>] marks the highlighted first text is the escaped text of the
    differences of the first side, without its [<ins>] marks the second
    is that of the second side, and an escaped text has neither [<] nor
    [>]. *)
Theorem highlight_diff_escaped (diff_main : text → text → list (Z * text))
    (text1 text2 : text) :
  let diffs := diff_main text1 text2 in
  let '(html1, html2) := _highlight_diff diff_main text1 text2 in
  without_marks (txt "del") html1 = escape_html (side_text DIFF_INSERT diffs) ∧
  without_marks (txt "ins") html2 = escape_html (side_text DIFF_DELETE diffs) ∧
  ∀ t, (ch "<" ∉ escape_html t) ∧ (ch ">" ∉ escape_html t).
Proof.
  unfold _highlight_diff, highlight.
  rewrite highlight_pieces, !str_join_nil, !app_nil_l.
  unfold without_marks, side_text. split_and!.
  - apply (without_marks_pieces (txt "del>") (txt "/del>")
             (λ d, bool_decide (d.1 = DIFF_DELETE))).
    intros rest k. apply del_close_other.
  - apply (without_marks_pieces (txt "ins>") (txt "/ins>")
             (λ d, bool_decide (d.1 = DIFF_INSERT))).
    intros rest k. apply ins_close_other.
  - apply escape_html_free.
Qed.
End highlight_facts.

(** * Runs of the further properties *)

Section more_runs.
Import ChangeType.

Lemma cloze_block_is_display_witness :
  _render_cloze (txt "{{cloze:Text}}")
                [(txt "Text", txt "The {{c1::sun::star}} is hot")] =
  txt "The <span class=" ++ [34] ++ txt "cloze" ++ [34] ++
  txt " data-cloze=" ++ [34] ++ txt "1" ++ [34] ++ txt ">sun</span> is hot".
Proof.
  rewrite (cloze_block_is_display (txt "Text")
             [(txt "Text", txt "The {{c1::sun::star}} is hot")]).
  - by vm_compute.
  - done.
  - by apply (bool_decide_unpack _); vm_compute.
Defined.

Lemma render_plain_text_witness :
  render (txt "<hr id=answer>") [(txt "Front", txt "Hi")] None true
         (txt "Hi") = Ok (txt "<hr id=answer>").
Proof.
  apply (render_plain_text (txt "<hr id=answer>") [(txt "Front", txt "Hi")]
           None true (txt "Hi")).
  - by vm_compute.
  - repeat constructor. eexists. by vm_compute.
Defined.

Lemma render_field_reference_witness :
  render (txt "<b>{{Front}}</b>") [(txt "Front", txt "Hi")] None false []
  = Ok (txt "<b>Hi</b>").
Proof.
  apply (render_field_reference (txt "<b>") (txt "Front") (txt "</b>")
           [(txt "Front", txt "Hi")] None false []).
  - by apply (bool_decide_unpack _); vm_compute.
  - done.
  - by apply (bool_decide_unpack _); vm_compute.
  - by apply (bool_decide_unpack _); vm_compute.
  - done.
  - by left.
  - by vm_compute.
  - repeat constructor. eexists. by vm_compute.
  - apply list_elem_of_here.
  - by apply (bool_decide_unpack _); vm_compute.
  - by apply (bool_decide_unpack _); vm_compute.
Defined.

Lemma render_missing_reference_witness :
  render (txt "<b>{{Extra}}</b>") [(txt "Front", txt "Hi")] None false []
  = Ok (txt "<b></b>").
Proof.
  apply (render_missing_reference (txt "<b>") (txt "Extra") (txt "</b>")
           [(txt "Front", txt "Hi")] None false []).
  - by apply (bool_decide_unpack _); vm_compute.
  - done.
  - by apply (bool_decide_unpack _); vm_compute.
  - by apply (bool_decide_unpack _); vm_compute.
  - done.
  - by left.
  - by vm_compute.
  - by vm_compute.
  - repeat constructor. eexists. by vm_compute.
  - by apply (bool_decide_unpack _); vm_compute.
Defined.

Lemma render_tags_reference_witness :
  render (txt "<i>{{Tags}}</i>") [(txt "Front", txt "Hi")]
         (Some [txt "math"; txt "easy"]) false []
  = Ok (txt "<i>math easy</i>").
Proof.
  apply (render_tags_reference (txt "<i>") (txt "</i>")
           [(txt "Front", txt "Hi")] (Some [txt "math"; txt "easy"]) false []).
  - by apply (bool_decide_unpack _); vm_compute.
  - by apply (bool_decide_unpack _); vm_compute.
  - by apply (bool_decide_unpack _); vm_compute.
  - repeat constructor. eexists. by vm_compute.
Defined.

Lemma render_conditional_block_witness :
  render (txt "Q{{#Hint}} (hint){{/Hint}}!") [(txt "Hint", txt " ")]
         None false []
  = Ok (txt "Q!").
Proof.
  change (txt "Q{{#Hint}} (hint){{/Hint}}!")
    with (txt "Q" ++ block_text (ch "#") (txt "Hint") (txt " (hint)") ++
          txt "!").
  etransitivity;
    [apply (render_conditional_block true (txt "Q") (txt "Hint")
              (txt " (hint)") (txt "!") [(txt "Hint", txt " ")] None false [])
    |by vm_compute].
  - by apply (bool_decide_unpack _); vm_compute.
  - done.
  - by apply (bool_decide_unpack _); vm_compute.
  - by apply (bool_decide_unpack _); vm_compute.
  - by apply (bool_decide_unpack _); vm_compute.
  - repeat constructor. eexists. by vm_compute.
Defined.

Lemma build_field_map_lookup_witness :
  _build_field_map cloze_note cloze_model =
  Ok ((λ f, (FieldModel.name f,
             default [] (Note.fields cloze_note !! Z.to_nat (FieldModel.ord f))))
      <$> NoteModel.flds cloze_model).
Proof.
  apply (build_field_map_lookup cloze_note cloze_model).
  - repeat constructor; by vm_compute.
  - by apply (bool_decide_unpack _); vm_compute.
Defined.

Lemma parse_params_round_trip_witness :
  parse_params (txt "left=.5:top=.25:oi=1") =
  [(txt "left", txt ".5"); (txt "top", txt ".25"); (txt "oi", txt "1")].
Proof.
  apply (parse_params_round_trip
           [(txt "left", txt ".5"); (txt "top", txt ".25");
            (txt "oi", txt "1")]).
  - by apply (bool_decide_unpack _); vm_compute.
  - by apply (bool_decide_unpack _); vm_compute.
Defined.

Lemma parse_occlusion_shapes_round_trip_witness :
  _parse_occlusion_shapes
    (txt "{{c1::image-occlusion:rect:left=.5:top=.25}}<br>") =
  Ok [ {| shape_cloze := 1; shape_type := txt "rect";
          shape_params := [(txt "left", txt ".5"); (txt "top", txt ".25")] |} ].
Proof.
  apply (parse_occlusion_shapes_round_trip (txt "<br>")
           [(txt "1",
             {| shape_cloze := 1; shape_type := txt "rect";
                shape_params :=
                  [(txt "left", txt ".5"); (txt "top", txt ".25")] |})]).
  - by apply (bool_decide_unpack _); vm_compute.
  - constructor; [|constructor]. unfold shape_written. simpl.
    split_and!; by apply (bool_decide_unpack _); vm_compute.
Defined.

Lemma unchanged_fields_are_content_witness :
  NoteChange.content_change_type
    (modified_change
       {| DeckNote.note := {| Note.guid := txt "g"; Note.fields := [txt "Hi"];
                              Note.tags := [txt "old"] |};
          DeckNote.note_model_uuid := txt "m" |}
       {| DeckNote.note := {| Note.guid := txt "g"; Note.fields := [txt "Hi"];
                              Note.tags := [txt "new"] |};
          DeckNote.note_model_uuid := txt "m" |}
       cloze_model (txt "Deck")) = CONTENT.
Proof.
  apply (unchanged_fields_are_content
           {| DeckNote.note := {| Note.guid := txt "g"; Note.fields := [txt "Hi"];
                                  Note.tags := [txt "old"] |};
              DeckNote.note_model_uuid := txt "m" |}
           {| DeckNote.note := {| Note.guid := txt "g"; Note.fields := [txt "Hi"];
                                  Note.tags := [txt "new"] |};
              DeckNote.note_model_uuid := txt "m" |}
           cloze_model (txt "Deck")).
  done.
Defined.
End more_runs.
